(** * Ex10 reader host stack: continuous inventory, regulatory timers, OSAL

    A shallow embedding of the parts of the Ex10 C development kit that
    drive continuous inventory:

    - [Osal]: the bounds-checked memory helpers of
      [board/e710_ref_design/ex10_osal_posix.c];
    - [EtsiLower]: the per-channel regulatory timers of
      [ex10_regulatory_regions/ex10_regulatory_etsi_lower.c];
    - [Reader]: the continuous inventory state machine of
      [ex10_api/ex10_reader.c] and the LBT helper of
      [ex10_api/ex10_lbt_helpers.c].

    Unsigned C integers are [Z] with their wrap-around written out, C arrays
    are lists indexed with stdpp's lookup and insert, and an access outside
    an array (undefined behaviour in C) makes the operation return [None]. *)

From Stdlib Require Import ZArith Bool List Lia.
From Stdlib Require Import Init.Byte.
From stdpp Require Import base option list.

Local Open Scope Z_scope.

(** [uint32_t] arithmetic. *)
Definition UINT32_MAX : Z := 4294967295.
Definition wrap32 (z : Z) : Z := z mod 2 ^ 32.
Definition is_uint32 (z : Z) : Prop := 0 <= z <= UINT32_MAX.

(* ================================================================== *)
(** ** OSAL memory helpers (ex10_osal_posix.c) *)

Module Osal.

(** A buffer is the list of the bytes the pointer designates; [dst_size] and
    [src_size] are the sizes the caller announces. *)
Abbreviation buffer := (list byte).

(** [EINVAL] of <errno.h>. *)
Definition EINVAL : Z := 22.

(** [ptr[index] = value]; [None] when [index] is outside the buffer. *)
Definition store (m : buffer) (index : nat) (value : byte) : option buffer :=
  if decide (index < length m)%nat then Some (<[index := value]> m) else None.

(** [for (index = first; index < first + count; ++index) dst[index] = 0u;] *)
Fixpoint memzero_loop (dst : buffer) (index count : nat) : option buffer :=
  match count with
  | O => Some dst
  | S count' =>
      dst' ← store dst index x00;
      memzero_loop dst' (S index) count'
  end.

Definition ex10_memzero (dst : buffer) (dst_size : nat) : option buffer :=
  memzero_loop dst 0 dst_size.

(** [for (...; ++index) dst[index] = src[index];] *)
Fixpoint memcpy_loop (dst src : buffer) (index count : nat) : option buffer :=
  match count with
  | O => Some dst
  | S count' =>
      value ← src !! index;
      dst' ← store dst index value;
      memcpy_loop dst' src (S index) count'
  end.

(** The result is the destination buffer after the call and the returned
    [int]. *)
Definition ex10_memcpy (dst : buffer) (dst_size : nat)
    (src : buffer) (src_size : nat) : option (buffer * Z) :=
  if decide (src_size <= dst_size)%nat then
    dst' ← memcpy_loop dst src 0 src_size;
    Some (dst', 0)
  else
    dst' ← ex10_memzero dst dst_size;
    Some (dst', EINVAL).

(** [for (...; ++index) dst[index] = (uint8_t)value;] *)
Fixpoint memset_loop (dst : buffer) (value : byte) (index count : nat)
    : option buffer :=
  match count with
  | O => Some dst
  | S count' =>
      dst' ← store dst index value;
      memset_loop dst' value (S index) count'
  end.

Definition ex10_memset (dst : buffer) (dst_size : nat)
    (value : byte) (count : nat) : option (buffer * Z) :=
  if decide (count <= dst_size)%nat then
    dst' ← memset_loop dst value 0 count;
    Some (dst', 0)
  else
    dst' ← ex10_memzero dst dst_size;
    Some (dst', EINVAL).

End Osal.

(* ================================================================== *)
(** ** Regulatory timers, ETSI lower band (ex10_regulatory_etsi_lower.c) *)

Module EtsiLower.

Inductive RfFilter := UNDEFINED_BAND | LOWER_BAND | UPPER_BAND.

Inductive Ex10RegionId :=
  | REGION_NOT_DEFINED | REGION_FCC | REGION_ETSI_LOWER | REGION_ETSI_UPPER
  | REGION_CUSTOM | REGION_ID (id : Z).

(** Times are in milliseconds, each a [uint16_t]. *)
Record Ex10RegulatoryTimers := {
  nominal_ms : Z;
  extended_ms : Z;
  regulatory_ms : Z;
  off_same_channel_ms : Z;
}.

Record Ex10RegulatoryChannels := {
  start_freq_khz : Z;
  spacing_khz : Z;
  count : Z;
  usable : list Z;
  usable_count : Z;
  random_hop : bool;
}.

Record Ex10Region := {
  region_id : Ex10RegionId;
  regulatory_timers : Ex10RegulatoryTimers;
  regulatory_channels : Ex10RegulatoryChannels;
  pll_divider : Z;
  rf_filter : RfFilter;
  max_power_cdbm : Z;
}.

Definition ETSI_UPPER_CHANNELS : nat := 4.

Definition etsi_lower_usable_channels : list Z := [4; 7; 10; 13].

Definition region : Ex10Region := {|
  region_id := REGION_ETSI_LOWER;
  regulatory_timers := {|
    nominal_ms := 3800;
    extended_ms := 3980;
    regulatory_ms := 4000;
    off_same_channel_ms := 100;
  |};
  regulatory_channels := {|
    start_freq_khz := 865100;
    spacing_khz := 200;
    count := 4;
    usable := etsi_lower_usable_channels;
    usable_count := Z.of_nat (length etsi_lower_usable_channels);
    random_hop := false;
  |};
  pll_divider := 60;
  rf_filter := LOWER_BAND;
  max_power_cdbm := 3000;
|}.

(** The file's static variables: the region in use and the three
    per-channel arrays of [uint32_t]. *)
Record State := {
  region_ptr : Ex10Region;
  channel_last_start : list Z;
  channel_last_end : list Z;
  channel_total_time : list Z;
}.

(** Static storage is zero-initialised. *)
Definition initial : State := {|
  region_ptr := region;
  channel_last_start := replicate ETSI_UPPER_CHANNELS 0;
  channel_last_end := replicate ETSI_UPPER_CHANNELS 0;
  channel_total_time := replicate ETSI_UPPER_CHANNELS 0;
|}.

(** [region_to_use] is [None] for a [NULL] pointer. *)
Definition set_region (region_to_use : option Ex10Region) (s : State) : State :=
  {| region_ptr := match region_to_use with
                   | None => region
                   | Some r => r
                   end;
     channel_last_start := channel_last_start s;
     channel_last_end := channel_last_end s;
     channel_total_time := channel_total_time s |}.

Definition get_region (s : State) : Ex10Region := region_ptr s.

Definition get_regulatory_timers (channel : nat) (time_ms : Z) (s : State)
    : Ex10RegulatoryTimers :=
  regulatory_timers (region_ptr s).

(** [array[index] = value] on one of the per-channel arrays. *)
Definition array_store (a : list Z) (index : nat) (value : Z) : option (list Z) :=
  if decide (index < length a)%nat then Some (<[index := value]> a) else None.

Definition regulatory_timer_set_start (channel : nat) (time_ms : Z) (s : State)
    : option State :=
  last_start' ← array_store (channel_last_start s) channel time_ms;
  last_end ← channel_last_end s !! channel;
  let time_since_off := wrap32 (time_ms - last_end) in
  total ← channel_total_time s !! channel;
  total' ← array_store (channel_total_time s) channel
             (if time_since_off <? off_same_channel_ms (regulatory_timers (region_ptr s))
              then wrap32 (total + time_since_off)
              else 0);
  Some {| region_ptr := region_ptr s;
          channel_last_start := last_start';
          channel_last_end := channel_last_end s;
          channel_total_time := total' |}.

Definition regulatory_timer_set_end (channel : nat) (time_ms : Z) (s : State)
    : option State :=
  last_end' ← array_store (channel_last_end s) channel time_ms;
  last_start ← channel_last_start s !! channel;
  let time_elapsed := wrap32 (time_ms - last_start) in
  total ← channel_total_time s !! channel;
  total' ← array_store (channel_total_time s) channel (wrap32 (total + time_elapsed));
  Some {| region_ptr := region_ptr s;
          channel_last_start := channel_last_start s;
          channel_last_end := last_end';
          channel_total_time := total' |}.

Definition regulatory_timer_clear (s : State) : State :=
  {| region_ptr := region_ptr s;
     channel_last_start := replicate (length (channel_last_start s)) 0;
     channel_last_end := replicate (length (channel_last_end s)) 0;
     channel_total_time := replicate (length (channel_total_time s)) 0 |}.

(** The arrays keep the size they are declared with. *)
Definition well_sized (s : State) : Prop :=
  length (channel_last_start s) = ETSI_UPPER_CHANNELS /\
  length (channel_last_end s) = ETSI_UPPER_CHANNELS /\
  length (channel_total_time s) = ETSI_UPPER_CHANNELS.

(** An observation for the statements below: the start time, the end time
    and the accumulated on-time recorded for one channel. *)
Definition channel_timers (s : State) (channel : nat) : option (Z * Z * Z) :=
  last_start ← channel_last_start s !! channel;
  last_end ← channel_last_end s !! channel;
  total ← channel_total_time s !! channel;
  Some (last_start, last_end, total).

End EtsiLower.

(* ================================================================== *)
(** ** The reader (ex10_reader.c) *)

Module Reader.

Import EtsiLower.

(** *** Enumerations

    The enumerations are declared in headers outside these sources; each
    type lists the enumerators the sources name, and one more constructor
    carries any other value of the underlying integer. *)

Inductive InventoryState := InvIdle | InvOngoing | InvStopRequested.

Inductive InventorySummaryReason :=
  | InventorySummaryNone
  | InventorySummaryDone
  | InventorySummaryHost
  | InventorySummaryRegulatory
  | InventorySummaryEventFifoFull
  | InventorySummaryTxNotRampedUp
  | InventorySummaryInvalidParam
  | InventorySummaryLmacOverload
  | InventorySummaryUnsupported
  | InventorySummaryOther (raw : Z).

Inductive StopReason :=
  | SRNone
  | SRHost
  | SRMaxNumberOfRounds
  | SRMaxNumberOfTags
  | SRMaxDuration
  | SROpError
  | SRSdkTimeoutError
  | SRDeviceCommandError
  | SRDeviceAggregateBufferOverflow
  | SRDeviceRampCallbackError
  | SROther (raw : Z).

Inductive Ex10Module :=
  | Ex10ModuleDevice | Ex10ModuleReader | Ex10ModuleUseCase
  | Ex10ModuleOther (raw : Z).

Inductive Ex10SdkResultCode :=
  | Ex10SdkSuccess
  | Ex10SdkErrorNullPointer
  | Ex10SdkErrorBadParamValue
  | Ex10SdkErrorOpRunning
  | Ex10SdkErrorAggBufferOverflow
  | Ex10AboveThreshold
  | Ex10SdkEventFifoFull
  | Ex10InventoryInvalidParam
  | Ex10SdkLmacOverload
  | Ex10InventorySummaryReasonInvalid
  | Ex10SdkOther (raw : Z).

Inductive Ex10DeviceResultCode :=
  | Ex10DeviceSuccess
  | Ex10DeviceErrorCommandsNoResponse
  | Ex10DeviceErrorCommandsWithResponse
  | Ex10DeviceErrorOps
  | Ex10DeviceErrorOpsTimeout
  | Ex10DeviceOther (raw : Z).

(** [union Ex10ResultCode]: the member that was written.  Reading the other
    member of the union matches none of its named enumerators. *)
Inductive Ex10ResultCode :=
  | SdkCode (sdk : Ex10SdkResultCode)
  | DeviceCode (device : Ex10DeviceResultCode).

Inductive OpId :=
  | SendSelectOp
  | StartInventoryRoundOp
  | OpIdRaw (raw : Z).

Inductive OpsStatusError :=
  | ErrorNone
  | ErrorInvalidTxState
  | ErrorUnknownError
  | OpsErrorRaw (raw : Z).

Inductive EventPacketType :=
  | TxRampUp
  | TxRampDown
  | InventoryRoundSummary
  | Gen2Transaction
  | ContinuousInventorySummary
  | HelloWorld
  | Custom
  | AggregateOpSummary
  | Ex10ResultPacket
  | TagRead
  | InvalidPacket.

Inductive InventoryHelperReturns :=
  | InvHelperSuccess
  | InvHelperOpStatusError
  | InvHelperStopConditions
  | InvHelperTimeout.

(** The two Gen2 inventoried-flag targets; [target ^= 1u] goes from one to
    the other. *)
Definition target_A : Z := 0.
Definition target_B : Z := 1.

#[global] Instance InventoryState_eq_dec : EqDecision InventoryState.
Proof. solve_decision. Defined.
#[global] Instance InventorySummaryReason_eq_dec : EqDecision InventorySummaryReason.
Proof. solve_decision. Defined.
#[global] Instance StopReason_eq_dec : EqDecision StopReason.
Proof. solve_decision. Defined.
#[global] Instance Ex10Module_eq_dec : EqDecision Ex10Module.
Proof. solve_decision. Defined.
#[global] Instance OpId_eq_dec : EqDecision OpId.
Proof. solve_decision. Defined.
#[global] Instance OpsStatusError_eq_dec : EqDecision OpsStatusError.
Proof. solve_decision. Defined.
#[global] Instance EventPacketType_eq_dec : EqDecision EventPacketType.
Proof. solve_decision. Defined.

(** *** Structures *)

Record OpsStatusFields := {
  op_id : OpId;
  ops_error : OpsStatusError;
}.

Record Ex10DeviceStatus := {
  ops_status : OpsStatusFields;
}.

Record Ex10Result := {
  error : bool;
  customer : bool;
  module : Ex10Module;
  result_code : Ex10ResultCode;
  device_status : Ex10DeviceStatus;
}.

Record InventoryRoundControlFields := {
  initial_q : Z;
  max_q : Z;
  min_q : Z;
  num_min_q_cycles : Z;
  fixed_q_mode : bool;
  q_increase_use_query : bool;
  q_decrease_use_query : bool;
  session : Z;
  select : Z;
  target : Z;
  halt_on_all_tags : bool;
  tag_focus_enable : bool;
  fast_id_enable : bool;
}.

Record InventoryRoundControl_2Fields := {
  max_queries_since_valid_epc : Z;
  starting_min_q_count : Z;
  starting_max_queries_since_valid_epc_count : Z;
}.

Record StopConditions := {
  max_number_of_rounds : Z;
  max_number_of_tags : Z;
  max_duration_us : Z;
}.

(** The ten fields of the receiver gain register. *)
Definition RxGainControlFields := list Z.

Record ReaderInventoryParams := {
  antenna : Z;
  rf_mode : Z;
  tx_power_cdbm : Z;
  inventory_config : InventoryRoundControlFields;
  inventory_config_2 : InventoryRoundControl_2Fields;
  send_selects : bool;
  stop_conditions : StopConditions;
  dual_target : bool;
  remain_on : bool;
  start_time_us : Z;
}.

Record ContinuousInventoryState := {
  state : InventoryState;
  done_reason : InventorySummaryReason;
  initial_inventory_config : InventoryRoundControlFields;
  previous_q : Z;
  min_q_count : Z;
  queries_since_valid_epc_count : Z;
  stop_reason : StopReason;
  round_count : Z;
  tag_count : Z;
  inv_target : Z;
}.

Record Ex10ReaderPrivate := {
  stored_analog_rx_fields : RxGainControlFields;
  inventory_params : ReaderInventoryParams;
  inventory_state : ContinuousInventoryState;
}.

(** Static data of the packets the reader looks into or builds. *)
Record InventoryRoundSummaryFields := {
  irs_duration_us : Z;
  irs_total_slots : Z;
  irs_reason : InventorySummaryReason;
  irs_final_q : Z;
  irs_min_q_count : Z;
  irs_queries_since_valid_epc_count : Z;
}.

Record ContinuousInventorySummaryFields := {
  duration_us : Z;
  number_of_inventory_rounds : Z;
  number_of_tags : Z;
  reason : StopReason;
  last_op_id : OpId;
  last_op_error : OpsStatusError;
  packet_rfu_1 : Z;
}.

(** [union PacketData], by the member that was written. *)
Inductive PacketData :=
  | inventory_round_summary (summary : InventoryRoundSummaryFields)
  | continuous_inventory_summary (summary : ContinuousInventorySummaryFields)
  | ex10_result_packet (ex10_result : Ex10Result)
  | other_packet_data.

Record EventFifoPacket := {
  packet_type : EventPacketType;
  us_counter : Z;
  static_data : PacketData;
  dynamic_data : list byte;
  is_valid : bool;
}.

(** What [packet.static_data->inventory_round_summary] reads.  The parser
    stores that member in the packets it types [InventoryRoundSummary]; for
    any other content the fields read as zero. *)
Definition get_inventory_round_summary (d : PacketData) : InventoryRoundSummaryFields :=
  match d with
  | inventory_round_summary s => s
  | _ => {| irs_duration_us := 0; irs_total_slots := 0;
            irs_reason := InventorySummaryNone; irs_final_q := 0;
            irs_min_q_count := 0; irs_queries_since_valid_epc_count := 0 |}
  end.

(** A node of the event FIFO queue: either the packets parsed from one buffer
    of event FIFO bytes, or the Ex10Result packet built by
    [make_ex10_result_fifo_packet]. *)
Inductive FifoBufferNode :=
  | fifo_data (packets : list EventFifoPacket)
  | result_node (packet : EventFifoPacket).

Record CwConfig := {
  rf_settings : Z;
  timer : Ex10RegulatoryTimers;
}.

Definition regulatory_timers_disabled : Ex10RegulatoryTimers := {|
  nominal_ms := 0;
  extended_ms := 0;
  regulatory_ms := 0;
  off_same_channel_ms := 0;
|}.


(** *** The outside world

    The reader reaches the device and the other SDK modules through tables
    of function pointers ([get_ex10_protocol()], [get_ex10_ops()],
    [get_ex10_rf_power()], ...), none of which is part of these sources.
    A [Call] names one call that acts on the outside; the calls the reader
    makes are recorded in order. *)

Inductive Call :=
  | set_rf_mode (rf_mode : Z)
  | update_channel_time_tracking
  | measure_and_read_adc_temperature
  | store_adc_temperature (temperature_adc : Z)
  | set_single_frequency (frequency_khz : Z)
  | store_pre_ramp_variables (antenna : Z)
  | store_post_ramp_variables (tx_power_cdbm : Z) (frequency_khz : Z)
  | cw_on (cw_config : CwConfig) (droop_comp_fields : Z)
  | wait_op_completion
  | read_rx_gain_control
  | run_inventory (inventory_config : InventoryRoundControlFields)
                  (inventory_config_2 : InventoryRoundControl_2Fields)
                  (send_selects : bool)
  | stop_op_and_ramp_down
  | insert_fifo_event (trigger_irq : bool) (event_packet : EventFifoPacket)
  | list_node_push_back (node : FifoBufferNode)
  | event_fifo_queue_init
  | clear_info_from_packets
  | discard_packets (print_packets flush_packets debug_aggregate_op : bool)
  | set_max_rssi_measurements (count : Z)
  | antenna_disconnect_deinit
  | listen_before_talk_init.

(** What a call gives back: its [Ex10Result] and the data it reads, if any. *)
Record Reply := {
  reply_result : Ex10Result;
  reply_data : list Z;
}.

(** The interface tables, over the state [D] of the device and of the SDK
    modules behind them. *)
Class Ex10Driver (D : Type) := {
  perform : Call -> D -> Reply * D;
  is_op_currently_running : D -> bool;
  get_cw_is_on : D -> bool;
  get_device_time : D -> Z;
  get_droop_compensation_defaults : D -> Z;
  retrieve_adc_temperature : D -> Z;
  get_next_channel_khz : D -> Z;
  temperature_compensation_enabled : Z -> bool;
  rf_power_build_cw_configs : Z -> Z -> Z -> Z -> bool -> D -> CwConfig;
  ex10_result_to_continuous_inventory_error : Ex10Result -> StopReason;
  free_list_get : D -> bool * D;
}.

Definition no_ops_status : OpsStatusFields :=
  {| op_id := OpIdRaw 0; ops_error := ErrorNone |}.

(** Modelled from the spec: [make_ex10_success] and [make_ex10_sdk_error]
    (ex10_result.c) are not among the sources; a success has [error] clear,
    an SDK error has it set and names the module and the SDK result code. *)
Definition make_ex10_success : Ex10Result :=
  {| error := false; customer := false; module := Ex10ModuleOther 0;
     result_code := SdkCode Ex10SdkSuccess;
     device_status := {| ops_status := no_ops_status |} |}.

Definition make_ex10_sdk_error (m : Ex10Module) (code : Ex10SdkResultCode) : Ex10Result :=
  {| error := true; customer := false; module := m;
     result_code := SdkCode code;
     device_status := {| ops_status := no_ops_status |} |}.

(** Modelled from the spec: [get_packet_type_valid] (event_packet_parser.c)
    is not among the sources; the codec rejects a type tag outside the known
    range, which the parsed packet carries as [InvalidPacket]. *)
Definition get_packet_type_valid (t : EventPacketType) : bool :=
  match t with
  | InvalidPacket => false
  | _ => true
  end.

Definition initial_inventory_config_zero : InventoryRoundControlFields := {|
  initial_q := 0; max_q := 0; min_q := 0; num_min_q_cycles := 0;
  fixed_q_mode := false; q_increase_use_query := false;
  q_decrease_use_query := false; session := 0; select := 0; target := 0;
  halt_on_all_tags := false; tag_focus_enable := false;
  fast_id_enable := false;
|}.

Definition inventory_state_zero : ContinuousInventoryState := {|
  state := InvIdle;
  done_reason := InventorySummaryNone;
  initial_inventory_config := initial_inventory_config_zero;
  previous_q := 0;
  min_q_count := 0;
  queries_since_valid_epc_count := 0;
  stop_reason := SRNone;
  round_count := 0;
  tag_count := 0;
  inv_target := target_A;
|}.

(** [static struct Ex10ReaderPrivate reader = { ... }] *)
Definition reader_initial : Ex10ReaderPrivate := {|
  stored_analog_rx_fields := [0; 0; 0; 0; 0; 0; 0; 0; 0; 0];
  inventory_params := {|
    antenna := 0;
    rf_mode := 0;
    tx_power_cdbm := 0;
    inventory_config := initial_inventory_config_zero;
    inventory_config_2 := {| max_queries_since_valid_epc := 0;
                             starting_min_q_count := 0;
                             starting_max_queries_since_valid_epc_count := 0 |};
    send_selects := false;
    stop_conditions := {| max_number_of_rounds := 0;
                          max_number_of_tags := 0;
                          max_duration_us := 0 |};
    dual_target := false;
    remain_on := false;
    start_time_us := 0;
  |};
  inventory_state := inventory_state_zero;
|}.

(** The packet of type [Ex10ResultPacket] that carries [ex10_result]. *)
Definition result_packet (ex10_result : Ex10Result) (us : Z) : EventFifoPacket :=
  {| packet_type := Ex10ResultPacket;
     us_counter := us;
     static_data := ex10_result_packet ex10_result;
     dynamic_data := [];
     is_valid := true |}.

(** *** Field updates *)

Definition set_state v (s : ContinuousInventoryState) : ContinuousInventoryState :=
  {| state := v; done_reason := done_reason s;
     initial_inventory_config := initial_inventory_config s;
     previous_q := previous_q s; min_q_count := min_q_count s;
     queries_since_valid_epc_count := queries_since_valid_epc_count s;
     stop_reason := stop_reason s; round_count := round_count s;
     tag_count := tag_count s; inv_target := inv_target s |}.

Definition set_done_reason v (s : ContinuousInventoryState) : ContinuousInventoryState :=
  {| state := state s; done_reason := v;
     initial_inventory_config := initial_inventory_config s;
     previous_q := previous_q s; min_q_count := min_q_count s;
     queries_since_valid_epc_count := queries_since_valid_epc_count s;
     stop_reason := stop_reason s; round_count := round_count s;
     tag_count := tag_count s; inv_target := inv_target s |}.

Definition set_previous_q v (s : ContinuousInventoryState) : ContinuousInventoryState :=
  {| state := state s; done_reason := done_reason s;
     initial_inventory_config := initial_inventory_config s;
     previous_q := v; min_q_count := min_q_count s;
     queries_since_valid_epc_count := queries_since_valid_epc_count s;
     stop_reason := stop_reason s; round_count := round_count s;
     tag_count := tag_count s; inv_target := inv_target s |}.

Definition set_min_q_count v (s : ContinuousInventoryState) : ContinuousInventoryState :=
  {| state := state s; done_reason := done_reason s;
     initial_inventory_config := initial_inventory_config s;
     previous_q := previous_q s; min_q_count := v;
     queries_since_valid_epc_count := queries_since_valid_epc_count s;
     stop_reason := stop_reason s; round_count := round_count s;
     tag_count := tag_count s; inv_target := inv_target s |}.

Definition set_queries_since_valid_epc_count v (s : ContinuousInventoryState)
    : ContinuousInventoryState :=
  {| state := state s; done_reason := done_reason s;
     initial_inventory_config := initial_inventory_config s;
     previous_q := previous_q s; min_q_count := min_q_count s;
     queries_since_valid_epc_count := v;
     stop_reason := stop_reason s; round_count := round_count s;
     tag_count := tag_count s; inv_target := inv_target s |}.

Definition set_stop_reason v (s : ContinuousInventoryState) : ContinuousInventoryState :=
  {| state := state s; done_reason := done_reason s;
     initial_inventory_config := initial_inventory_config s;
     previous_q := previous_q s; min_q_count := min_q_count s;
     queries_since_valid_epc_count := queries_since_valid_epc_count s;
     stop_reason := v; round_count := round_count s;
     tag_count := tag_count s; inv_target := inv_target s |}.

Definition set_round_count v (s : ContinuousInventoryState) : ContinuousInventoryState :=
  {| state := state s; done_reason := done_reason s;
     initial_inventory_config := initial_inventory_config s;
     previous_q := previous_q s; min_q_count := min_q_count s;
     queries_since_valid_epc_count := queries_since_valid_epc_count s;
     stop_reason := stop_reason s; round_count := v;
     tag_count := tag_count s; inv_target := inv_target s |}.

Definition set_tag_count v (s : ContinuousInventoryState) : ContinuousInventoryState :=
  {| state := state s; done_reason := done_reason s;
     initial_inventory_config := initial_inventory_config s;
     previous_q := previous_q s; min_q_count := min_q_count s;
     queries_since_valid_epc_count := queries_since_valid_epc_count s;
     stop_reason := stop_reason s; round_count := round_count s;
     tag_count := v; inv_target := inv_target s |}.

Definition set_inv_target v (s : ContinuousInventoryState) : ContinuousInventoryState :=
  {| state := state s; done_reason := done_reason s;
     initial_inventory_config := initial_inventory_config s;
     previous_q := previous_q s; min_q_count := min_q_count s;
     queries_since_valid_epc_count := queries_since_valid_epc_count s;
     stop_reason := stop_reason s; round_count := round_count s;
     tag_count := tag_count s; inv_target := v |}.

Definition set_antenna_rf_mode (a m : Z) (p : ReaderInventoryParams) : ReaderInventoryParams :=
  {| antenna := a; rf_mode := m; tx_power_cdbm := tx_power_cdbm p;
     inventory_config := inventory_config p;
     inventory_config_2 := inventory_config_2 p;
     send_selects := send_selects p; stop_conditions := stop_conditions p;
     dual_target := dual_target p; remain_on := remain_on p;
     start_time_us := start_time_us p |}.

Definition set_initial_q v (c : InventoryRoundControlFields) : InventoryRoundControlFields :=
  {| initial_q := v; max_q := max_q c; min_q := min_q c;
     num_min_q_cycles := num_min_q_cycles c; fixed_q_mode := fixed_q_mode c;
     q_increase_use_query := q_increase_use_query c;
     q_decrease_use_query := q_decrease_use_query c;
     session := session c; select := select c; target := target c;
     halt_on_all_tags := halt_on_all_tags c;
     tag_focus_enable := tag_focus_enable c;
     fast_id_enable := fast_id_enable c |}.

Definition set_target v (c : InventoryRoundControlFields) : InventoryRoundControlFields :=
  {| initial_q := initial_q c; max_q := max_q c; min_q := min_q c;
     num_min_q_cycles := num_min_q_cycles c; fixed_q_mode := fixed_q_mode c;
     q_increase_use_query := q_increase_use_query c;
     q_decrease_use_query := q_decrease_use_query c;
     session := session c; select := select c; target := v;
     halt_on_all_tags := halt_on_all_tags c;
     tag_focus_enable := tag_focus_enable c;
     fast_id_enable := fast_id_enable c |}.

Definition set_starting_counts (min_q_cnt queries_cnt : Z)
    (c : InventoryRoundControl_2Fields) : InventoryRoundControl_2Fields :=
  {| max_queries_since_valid_epc := max_queries_since_valid_epc c;
     starting_min_q_count := min_q_cnt;
     starting_max_queries_since_valid_epc_count := queries_cnt |}.

Definition set_timer v (c : CwConfig) : CwConfig :=
  {| rf_settings := rf_settings c; timer := v |}.

Definition map_inventory_state
    (f : ContinuousInventoryState -> ContinuousInventoryState)
    (r : Ex10ReaderPrivate) : Ex10ReaderPrivate :=
  {| stored_analog_rx_fields := stored_analog_rx_fields r;
     inventory_params := inventory_params r;
     inventory_state := f (inventory_state r) |}.

Definition map_inventory_params
    (f : ReaderInventoryParams -> ReaderInventoryParams)
    (r : Ex10ReaderPrivate) : Ex10ReaderPrivate :=
  {| stored_analog_rx_fields := stored_analog_rx_fields r;
     inventory_params := f (inventory_params r);
     inventory_state := inventory_state r |}.

(** *** The reader's monad

    The reader's functions run on the file's static [reader], the state of
    the outside world and the record of the calls made so far. *)

Record World (D : Type) := mkWorld {
  reader : Ex10ReaderPrivate;
  device : D;
  calls : list Call;
}.
Arguments mkWorld {D} _ _ _.
Arguments reader {D} _.
Arguments device {D} _.
Arguments calls {D} _.

Definition M (D A : Type) : Type := World D -> A * World D.

Definition ret {D A} (a : A) : M D A := fun w => (a, w).

Definition bind {D A B} (m : M D A) (k : A -> M D B) : M D B :=
  fun w => let (a, w') := m w in k a w'.

Notation "x <- m ;; k" := (bind m (fun x => k))
  (at level 100, m at next level, right associativity).
Notation "m ;; k" := (bind m (fun _ => k))
  (at level 100, right associativity).

Section WithDriver.

Context {D : Type} `{Ex10Driver D}.

Definition get_reader : M D Ex10ReaderPrivate := fun w => (reader w, w).

Definition get_state : M D ContinuousInventoryState :=
  fun w => (inventory_state (reader w), w).

Definition get_params : M D ReaderInventoryParams :=
  fun w => (inventory_params (reader w), w).

Definition modify_state (f : ContinuousInventoryState -> ContinuousInventoryState)
    : M D unit :=
  fun w => (tt, mkWorld (map_inventory_state f (reader w)) (device w) (calls w)).

Definition modify_params (f : ReaderInventoryParams -> ReaderInventoryParams)
    : M D unit :=
  fun w => (tt, mkWorld (map_inventory_params f (reader w)) (device w) (calls w)).

Definition put_stored_analog_rx_fields (v : RxGainControlFields) : M D unit :=
  fun w => (tt, mkWorld
    {| stored_analog_rx_fields := v;
       inventory_params := inventory_params (reader w);
       inventory_state := inventory_state (reader w) |}
    (device w) (calls w)).

(** A getter of one of the interface tables. *)
Definition query {A} (f : D -> A) : M D A := fun w => (f (device w), w).

(** A call through one of the interface tables. *)
Definition call (c : Call) : M D Reply :=
  fun w => let (rep, d) := perform c (device w) in
           (rep, mkWorld (reader w) d (calls w ++ [c])).

(** A call of which only the [Ex10Result] is looked at. *)
Definition op (c : Call) : M D Ex10Result :=
  rep <- call c ;; ret (reply_result rep).

(** Modelled from the spec: [make_ex10_result_fifo_packet] (not among the
    sources) takes a node from the free list of FIFO buffers and fills it
    with a result packet that carries the whole [Ex10Result], operation id
    and error code included, under the given timestamp; it yields [NULL]
    when no node is free. *)
Definition make_ex10_result_fifo_packet (ex10_result : Ex10Result) (us : Z)
    : M D (option FifoBufferNode) :=
  fun w => let (available, d) := free_list_get (device w) in
           (if available then Some (result_node (result_packet ex10_result us))
            else None,
            mkWorld (reader w) d (calls w)).

(** *** init, stop_transmitting *)

(** [ex10_memzero] leaves every field of the session state zero, which for
    the enumerations is their first enumerator. *)
Definition init : M D unit :=
  call event_fifo_queue_init ;;
  modify_state (fun _ => inventory_state_zero) ;;
  modify_state (set_state InvIdle).

Definition stop_transmitting : M D Ex10Result :=
  st <- get_state ;;
  (if decide (state st <> InvIdle)
   then modify_state (set_state InvStopRequested)
   else ret tt) ;;
  op stop_op_and_ramp_down.

(** *** push_continuous_inventory_summary_packet *)

Definition summary_with_error (ex10_result : Ex10Result)
    (summary : ContinuousInventorySummaryFields) : ContinuousInventorySummaryFields :=
  let with_reason r :=
    {| duration_us := duration_us summary;
       number_of_inventory_rounds := number_of_inventory_rounds summary;
       number_of_tags := number_of_tags summary;
       reason := r;
       last_op_id := last_op_id summary;
       last_op_error := last_op_error summary;
       packet_rfu_1 := packet_rfu_1 summary |} in
  let with_op r :=
    {| duration_us := duration_us summary;
       number_of_inventory_rounds := number_of_inventory_rounds summary;
       number_of_tags := number_of_tags summary;
       reason := r;
       last_op_id := op_id (ops_status (device_status ex10_result));
       last_op_error := ops_error (ops_status (device_status ex10_result));
       packet_rfu_1 := packet_rfu_1 summary |} in
  if error ex10_result then
    if decide (module ex10_result = Ex10ModuleDevice) then
      match result_code ex10_result with
      | DeviceCode Ex10DeviceErrorCommandsNoResponse
      | DeviceCode Ex10DeviceErrorCommandsWithResponse =>
          with_reason SRDeviceCommandError
      | DeviceCode Ex10DeviceErrorOps => with_op SROpError
      | DeviceCode Ex10DeviceErrorOpsTimeout => with_op SRSdkTimeoutError
      | _ => summary
      end
    else
      match result_code ex10_result with
      | SdkCode Ex10SdkErrorAggBufferOverflow =>
          with_reason SRDeviceAggregateBufferOverflow
      | SdkCode Ex10AboveThreshold => with_reason SRDeviceRampCallbackError
      | _ => summary
      end
  else summary.

Definition make_summary (r : Ex10ReaderPrivate) (event_packet : EventFifoPacket)
    (ex10_result : Ex10Result) : ContinuousInventorySummaryFields :=
  summary_with_error ex10_result
    {| duration_us :=
         wrap32 (us_counter event_packet - start_time_us (inventory_params r));
       number_of_inventory_rounds := round_count (inventory_state r);
       number_of_tags := tag_count (inventory_state r);
       reason := stop_reason (inventory_state r);
       last_op_id := OpIdRaw 0;
       last_op_error := ErrorNone;
       packet_rfu_1 := 0 |}.

Definition make_summary_packet (r : Ex10ReaderPrivate) (event_packet : EventFifoPacket)
    (ex10_result : Ex10Result) : EventFifoPacket :=
  {| packet_type := ContinuousInventorySummary;
     us_counter := us_counter event_packet;
     static_data := continuous_inventory_summary
                      (make_summary r event_packet ex10_result);
     dynamic_data := [];
     is_valid := true |}.

Definition push_continuous_inventory_summary_packet
    (event_packet : EventFifoPacket) (ex10_result : Ex10Result) : M D unit :=
  r <- get_reader ;;
  let trigger_irq := true in
  call (insert_fifo_event trigger_irq (make_summary_packet r event_packet ex10_result)) ;;
  ret tt.

(** *** check_stop_conditions *)

Definition elapsed_us (start_time timestamp_us : Z) : Z :=
  let packet_before_start := start_time >? timestamp_us in
  if packet_before_start
  then wrap32 (wrap32 (wrap32 (UINT32_MAX - start_time) + timestamp_us) + 1)
  else wrap32 (timestamp_us - start_time).

(** The stop conditions, in the order they are looked at: each bound counts
    only when it is non-zero. *)
Definition rounds_reached (r : Ex10ReaderPrivate) : bool :=
  (max_number_of_rounds (stop_conditions (inventory_params r)) >? 0)
  && (round_count (inventory_state r)
      >=? max_number_of_rounds (stop_conditions (inventory_params r))).

Definition tags_reached (r : Ex10ReaderPrivate) : bool :=
  (max_number_of_tags (stop_conditions (inventory_params r)) >? 0)
  && (tag_count (inventory_state r)
      >=? max_number_of_tags (stop_conditions (inventory_params r))).

Definition duration_reached (r : Ex10ReaderPrivate) (timestamp_us : Z) : bool :=
  (max_duration_us (stop_conditions (inventory_params r)) >? 0)
  && (elapsed_us (start_time_us (inventory_params r)) timestamp_us
      >=? max_duration_us (stop_conditions (inventory_params r))).

Definition stop_requested (r : Ex10ReaderPrivate) : bool :=
  bool_decide (state (inventory_state r) = InvStopRequested).

(** The first stop condition that holds, in that order. *)
Definition first_stop_condition (r : Ex10ReaderPrivate) (timestamp_us : Z)
    : option StopReason :=
  if rounds_reached r then Some SRMaxNumberOfRounds
  else if tags_reached r then Some SRMaxNumberOfTags
  else if duration_reached r timestamp_us then Some SRMaxDuration
  else if stop_requested r then Some SRHost
  else None.

Definition check_stop_conditions (timestamp_us : Z) : M D bool :=
  r <- get_reader ;;
  if decide (stop_reason (inventory_state r) <> SRNone) then ret true
  else if rounds_reached r
  then modify_state (set_stop_reason SRMaxNumberOfRounds) ;; ret true
  else if tags_reached r
  then modify_state (set_stop_reason SRMaxNumberOfTags) ;; ret true
  else if duration_reached r timestamp_us
  then modify_state (set_stop_reason SRMaxDuration) ;; ret true
  else if stop_requested r
  then modify_state (set_stop_reason SRHost) ;; ret true
  else ret false.

(** *** build_cw_configs, reader_ramp_for_inventory, start_inventory *)

(** The result is [inl] of the failing [Ex10Result], which leaves
    [*cw_config] unwritten, or [inr] of the configuration written. *)
Definition build_cw_configs (antenna rf_mode tx_power_cdbm frequency_khz : Z)
    (remain_on : bool) : M D (Ex10Result + CwConfig) :=
  temperature_adc <- query retrieve_adc_temperature ;;
  cw <- query get_cw_is_on ;;
  measured <-
    (if negb cw then
       rep <- call measure_and_read_adc_temperature ;;
       if error (reply_result rep) then ret (inl (reply_result rep))
       else
         let temperature_adc := hd temperature_adc (reply_data rep) in
         call (store_adc_temperature temperature_adc) ;;
         ret (inr temperature_adc)
     else ret (inr temperature_adc)) ;;
  match measured with
  | inl ex10_result => ret (inl ex10_result)
  | inr temperature_adc =>
      let temp_comp_enabled := temperature_compensation_enabled temperature_adc in
      (if decide (frequency_khz <> 0)
       then call (set_single_frequency frequency_khz) ;; ret tt
       else ret tt) ;;
      cw_config <- query (rf_power_build_cw_configs antenna rf_mode tx_power_cdbm
                            temperature_adc temp_comp_enabled) ;;
      ret (inr (if remain_on
                then set_timer regulatory_timers_disabled cw_config
                else cw_config))
  end.

Definition reader_ramp_for_inventory (antenna rf_mode tx_power_cdbm : Z)
    (remain_on : bool) (droop_comp_fields : Z) : M D Ex10Result :=
  ex10_result <- op update_channel_time_tracking ;;
  if error ex10_result then ret ex10_result else
  let frequency_khz := 0 in
  built <- build_cw_configs antenna rf_mode tx_power_cdbm frequency_khz remain_on ;;
  match built with
  | inl ex10_result => ret ex10_result
  | inr cw_config =>
      call (store_pre_ramp_variables antenna) ;;
      next_channel_khz <- query get_next_channel_khz ;;
      call (store_post_ramp_variables tx_power_cdbm next_channel_khz) ;;
      ex10_result <- op (cw_on cw_config droop_comp_fields) ;;
      if error ex10_result then ret ex10_result else
      ex10_result <- op wait_op_completion ;;
      if error ex10_result then ret ex10_result else
      rep <- call read_rx_gain_control ;;
      put_stored_analog_rx_fields (reply_data rep) ;;
      ret (reply_result rep)
  end.

(** The race the retry is for: the select was sent after the transmitter
    had ramped down. *)
Definition select_sent_while_tx_down (ex10_result : Ex10Result) : bool :=
  error ex10_result
  && bool_decide (op_id (ops_status (device_status ex10_result)) = SendSelectOp)
  && bool_decide (ops_error (ops_status (device_status ex10_result)) = ErrorInvalidTxState).

(** The end of [start_inventory]: the round is run and, on the race, the
    carrier is ramped again and the round is run again; any error after
    this is returned. *)
Definition run_inventory_rerun (antenna rf_mode tx_power_cdbm : Z)
    (inventory_config : InventoryRoundControlFields)
    (inventory_config_2 : InventoryRoundControl_2Fields)
    (send_selects remain_on : bool) (droop_comp_fields : Z) : M D Ex10Result :=
  ex10_result <- op (run_inventory inventory_config inventory_config_2 send_selects) ;;
  if select_sent_while_tx_down ex10_result then
    ex10_result <- reader_ramp_for_inventory antenna rf_mode tx_power_cdbm
                     remain_on droop_comp_fields ;;
    if error ex10_result then ret ex10_result else
    op (run_inventory inventory_config inventory_config_2 send_selects)
  else ret ex10_result.

Definition start_inventory (antenna rf_mode tx_power_cdbm : Z)
    (inventory_config : InventoryRoundControlFields)
    (inventory_config_2 : InventoryRoundControl_2Fields)
    (send_selects remain_on : bool) : M D Ex10Result :=
  running <- query is_op_currently_running ;;
  if running then ret make_ex10_success else
  modify_state (set_inv_target (target inventory_config)) ;;
  modify_params (set_antenna_rf_mode antenna rf_mode) ;;
  droop_comp_fields <- query get_droop_compensation_defaults ;;
  ex10_result <- op (set_rf_mode rf_mode) ;;
  if error ex10_result then ret ex10_result else
  cw <- query get_cw_is_on ;;
  if negb cw then
    ex10_result <- reader_ramp_for_inventory antenna rf_mode tx_power_cdbm
                     remain_on droop_comp_fields ;;
    if error ex10_result then ret ex10_result else
    run_inventory_rerun antenna rf_mode tx_power_cdbm inventory_config
      inventory_config_2 send_selects remain_on droop_comp_fields
  else
    run_inventory_rerun antenna rf_mode tx_power_cdbm inventory_config
      inventory_config_2 send_selects remain_on droop_comp_fields.

Definition inventory (antenna rf_mode tx_power_cdbm : Z)
    (inventory_config : InventoryRoundControlFields)
    (inventory_config_2 : InventoryRoundControl_2Fields)
    (send_selects remain_on : bool) : M D Ex10Result :=
  start_inventory antenna rf_mode tx_power_cdbm inventory_config
    inventory_config_2 send_selects remain_on.

(** *** continue_continuous_inventory *)

(** The first half of [continue_continuous_inventory]: the new value of
    [reader.inventory_state.target] and [reset_q]. *)
Definition next_target (r : Ex10ReaderPrivate) (cw_is_on : bool) : Z * bool :=
  let st := inventory_state r in
  let p := inventory_params r in
  if dual_target p then
    let '(tgt, reset_q) :=
      if decide (done_reason st = InventorySummaryDone)
      then (Z.lxor (inv_target st) 1, true)
      else (inv_target st, false) in
    if negb cw_is_on && (session (inventory_config p) =? 0)
    then (target_A, true)
    else (tgt, reset_q)
  else
    if decide (done_reason st = InventorySummaryDone)
    then (inv_target st, true)
    else (inv_target st, false).

(** The second half: the two configurations handed to [start_inventory],
    computed once [reader.inventory_state.target] has its new value. *)
Definition next_round_config (r : Ex10ReaderPrivate) (reset_q : bool)
    : InventoryRoundControlFields * InventoryRoundControl_2Fields :=
  let st := inventory_state r in
  let p := inventory_params r in
  let inventory_config := set_target (inv_target st) (inventory_config p) in
  let inventory_config_2 := inventory_config_2 p in
  if reset_q then
    (set_initial_q (initial_q (initial_inventory_config st)) inventory_config,
     set_starting_counts 0 0 inventory_config_2)
  else if decide (done_reason st = InventorySummaryRegulatory) then
    (set_initial_q (previous_q st) inventory_config,
     set_starting_counts (min_q_count st) (queries_since_valid_epc_count st)
       inventory_config_2)
  else (inventory_config, inventory_config_2).

Definition continue_continuous_inventory : M D Ex10Result :=
  r <- get_reader ;;
  cw <- query get_cw_is_on ;;
  let '(tgt, reset_q) := next_target r cw in
  modify_state (set_inv_target tgt) ;;
  r <- get_reader ;;
  let '(inventory_config, inventory_config_2) := next_round_config r reset_q in
  let p := inventory_params r in
  start_inventory (antenna p) (rf_mode p) (tx_power_cdbm p)
    inventory_config inventory_config_2 (send_selects p) (remain_on p).

(** *** handle_continuous_inventory_error, fifo_data_handler *)

Definition handle_continuous_inventory_error (ex10_result : Ex10Result)
    (packet : EventFifoPacket) : M D unit :=
  result_buffer_node <- make_ex10_result_fifo_packet ex10_result (us_counter packet) ;;
  match result_buffer_node with
  | Some node => call (list_node_push_back node) ;; ret tt
  | None => ret tt
  end ;;
  modify_state (set_state InvIdle) ;;
  modify_state (set_stop_reason (ex10_result_to_continuous_inventory_error ex10_result)) ;;
  push_continuous_inventory_summary_packet packet ex10_result.

(** The [switch (reason)] of [fifo_data_handler]. *)
Definition classify_reason (summary : InventoryRoundSummaryFields) : M D Ex10Result :=
  match irs_reason summary with
  | InventorySummaryDone
  | InventorySummaryHost =>
      st <- get_state ;;
      modify_state (set_round_count (wrap32 (round_count st + 1))) ;;
      ret make_ex10_success
  | InventorySummaryRegulatory =>
      modify_state (set_previous_q (irs_final_q summary)) ;;
      ret make_ex10_success
  | InventorySummaryUnsupported
  | InventorySummaryTxNotRampedUp =>
      ret make_ex10_success
  | InventorySummaryEventFifoFull =>
      ret (make_ex10_sdk_error Ex10ModuleReader Ex10SdkEventFifoFull)
  | InventorySummaryInvalidParam =>
      ret (make_ex10_sdk_error Ex10ModuleReader Ex10InventoryInvalidParam)
  | InventorySummaryLmacOverload =>
      ret (make_ex10_sdk_error Ex10ModuleReader Ex10SdkLmacOverload)
  | InventorySummaryNone
  | InventorySummaryOther _ =>
      ret (make_ex10_sdk_error Ex10ModuleReader Ex10InventorySummaryReasonInvalid)
  end.

(** What [fifo_data_handler] does with an [InventoryRoundSummary] packet:
    first the summary is recorded in the session state and its reason
    classified, ... *)
Definition record_round_summary (packet : EventFifoPacket) : M D Ex10Result :=
  let summary := get_inventory_round_summary (static_data packet) in
  modify_state (set_min_q_count (irs_min_q_count summary)) ;;
  modify_state (set_queries_since_valid_epc_count
                  (irs_queries_since_valid_epc_count summary)) ;;
  modify_state (set_done_reason (irs_reason summary)) ;;
  classify_reason summary.

(** ... then the session is ended on an error or on a stop condition, and
    continued otherwise. *)
Definition stop_or_continue (packet : EventFifoPacket) (ex10_result : Ex10Result)
    : M D unit :=
  if error ex10_result then
    handle_continuous_inventory_error ex10_result packet
  else
    stop <- check_stop_conditions (us_counter packet) ;;
    if stop then
      modify_state (set_state InvIdle) ;;
      push_continuous_inventory_summary_packet packet ex10_result
    else
      ex10_result <- continue_continuous_inventory ;;
      if error ex10_result then
        handle_continuous_inventory_error ex10_result packet
      else ret tt.

Definition handle_inventory_round_summary (packet : EventFifoPacket) : M D unit :=
  ex10_result <- record_round_summary packet ;;
  stop_or_continue packet ex10_result.

(** The body of the [while] loop for one valid packet. *)
Definition handle_packet (packet : EventFifoPacket) : M D unit :=
  st <- get_state ;;
  if decide (state st <> InvIdle) then
    if decide (packet_type packet = TagRead) then
      modify_state (set_tag_count (wrap32 (tag_count st + 1)))
    else if decide (packet_type packet = InventoryRoundSummary) then
      handle_inventory_round_summary packet
    else ret tt
  else ret tt.

(** The loop over the packets the parser finds in the buffer; it stops at
    the first packet of invalid type. *)
Fixpoint fifo_data_loop (packets : list EventFifoPacket) : M D unit :=
  match packets with
  | [] => ret tt
  | packet :: rest =>
      if negb (get_packet_type_valid (packet_type packet)) then ret tt
      else handle_packet packet ;; fifo_data_loop rest
  end.

Definition fifo_data_handler (packets : list EventFifoPacket) : M D unit :=
  fifo_data_loop packets ;;
  call (list_node_push_back (fifo_data packets)) ;;
  ret tt.

(** *** continuous_inventory

    A pointer argument is [None] when it is [NULL]. *)

Definition continuous_inventory (antenna rf_mode tx_power_cdbm : Z)
    (inventory_config : option InventoryRoundControlFields)
    (inventory_config_2 : option InventoryRoundControl_2Fields)
    (send_selects : bool)
    (stop_conditions : option StopConditions)
    (dual_target remain_on : bool) : M D Ex10Result :=
  match stop_conditions, inventory_config, inventory_config_2 with
  | Some stop_conditions, Some inventory_config, Some inventory_config_2 =>
      modify_state (fun _ =>
        {| state := InvOngoing;
           done_reason := InventorySummaryNone;
           initial_inventory_config := inventory_config;
           previous_q := 0;
           min_q_count := 0;
           queries_since_valid_epc_count := 0;
           stop_reason := SRNone;
           round_count := 0;
           tag_count := 0;
           inv_target := target inventory_config |}) ;;
      device_time <- query get_device_time ;;
      modify_params (fun _ =>
        {| antenna := antenna;
           rf_mode := rf_mode;
           tx_power_cdbm := tx_power_cdbm;
           inventory_config := inventory_config;
           inventory_config_2 := inventory_config_2;
           send_selects := send_selects;
           stop_conditions := stop_conditions;
           dual_target := dual_target;
           remain_on := remain_on;
           start_time_us := device_time |}) ;;
      ex10_result <- start_inventory antenna rf_mode tx_power_cdbm
                       inventory_config inventory_config_2 send_selects remain_on ;;
      (if error ex10_result
       then modify_state (set_state InvIdle)
       else ret tt) ;;
      ret ex10_result
  | _, _, _ => ret (make_ex10_sdk_error Ex10ModuleReader Ex10SdkErrorNullPointer)
  end.

Definition get_continuous_inventory_state : M D ContinuousInventoryState :=
  get_state.

(** *** continuous_inventory_lbt (ex10_lbt_helpers.c) *)

Record InventoryHelperParams := {
  ihp_antenna : Z;
  ihp_rf_mode : Z;
  ihp_tx_power_cdbm : Z;
  ihp_inventory_config : option InventoryRoundControlFields;
  ihp_inventory_config_2 : option InventoryRoundControl_2Fields;
  ihp_send_selects : bool;
  ihp_remain_on : bool;
  ihp_dual_target : bool;
}.

Record ContInventoryHelperParams := {
  cihp_inventory_params : InventoryHelperParams;
  cihp_stop_conditions : StopConditions;
}.

Definition continuous_inventory_lbt (cihp : ContInventoryHelperParams)
    : M D InventoryHelperReturns :=
  let ihp := cihp_inventory_params cihp in
  if (max_number_of_rounds (cihp_stop_conditions cihp) =? 0)
     && (max_number_of_tags (cihp_stop_conditions cihp) =? 0)
     && (max_duration_us (cihp_stop_conditions cihp) =? 0)
  then ret InvHelperStopConditions
  else
    call clear_info_from_packets ;;
    call (discard_packets false true false) ;;
    call (set_max_rssi_measurements 5000) ;;
    call antenna_disconnect_deinit ;;
    call listen_before_talk_init ;;
    ex10_result <- continuous_inventory (ihp_antenna ihp) (ihp_rf_mode ihp)
                     (ihp_tx_power_cdbm ihp) (ihp_inventory_config ihp)
                     (ihp_inventory_config_2 ihp) (ihp_send_selects ihp)
                     (Some (cihp_stop_conditions cihp)) (ihp_dual_target ihp) false ;;
    if error ex10_result then
      call (discard_packets true true true) ;;
      ret InvHelperOpStatusError
    else ret InvHelperSuccess.

(** The reader once an error has ended the session. *)
Definition ended_by_error (r : Ex10Result) (rd : Ex10ReaderPrivate) : Ex10ReaderPrivate :=
  map_inventory_state
    (fun st => set_stop_reason (ex10_result_to_continuous_inventory_error r)
                 (set_state InvIdle st)) rd.

(** The reasons that count as a completed round, and the SDK error the
    other reasons are turned into, if any. *)
Definition completes_round (reason : InventorySummaryReason) : bool :=
  match reason with
  | InventorySummaryDone | InventorySummaryHost => true
  | _ => false
  end.

Definition reason_error (reason : InventorySummaryReason) : option Ex10SdkResultCode :=
  match reason with
  | InventorySummaryDone | InventorySummaryHost | InventorySummaryRegulatory
  | InventorySummaryUnsupported | InventorySummaryTxNotRampedUp => None
  | InventorySummaryEventFifoFull => Some Ex10SdkEventFifoFull
  | InventorySummaryInvalidParam => Some Ex10InventoryInvalidParam
  | InventorySummaryLmacOverload => Some Ex10SdkLmacOverload
  | InventorySummaryNone | InventorySummaryOther _ =>
      Some Ex10InventorySummaryReasonInvalid
  end.



(** The error, if any, that the handling of a round summary raises, with the
    world in which it is raised: the error of the summary's reason, or else
    the error of the attempt to continue the inventory. *)
Definition round_summary_error (packet : EventFifoPacket) (w : World D)
    : option (Ex10Result * World D) :=
  let (ex10_result, w1) := record_round_summary packet w in
  if error ex10_result then Some (ex10_result, w1)
  else
    let (stop, w2) := check_stop_conditions (us_counter packet) w1 in
    if stop then None
    else
      let (ex10_result, w3) := continue_continuous_inventory w2 in
      if error ex10_result then Some (ex10_result, w3) else None.

(** The reason the final summary gives for an error: one of the five
    reasons [push_continuous_inventory_summary_packet] knows, and the reason
    [ex10_result_to_continuous_inventory_error] assigns otherwise. *)
Definition error_stop_reason (r : Ex10Result) : StopReason :=
  if decide (module r = Ex10ModuleDevice) then
    match result_code r with
    | DeviceCode Ex10DeviceErrorCommandsNoResponse
    | DeviceCode Ex10DeviceErrorCommandsWithResponse => SRDeviceCommandError
    | DeviceCode Ex10DeviceErrorOps => SROpError
    | DeviceCode Ex10DeviceErrorOpsTimeout => SRSdkTimeoutError
    | _ => ex10_result_to_continuous_inventory_error r
    end
  else
    match result_code r with
    | SdkCode Ex10SdkErrorAggBufferOverflow => SRDeviceAggregateBufferOverflow
    | SdkCode Ex10AboveThreshold => SRDeviceRampCallbackError
    | _ => ex10_result_to_continuous_inventory_error r
    end.

(** Outside the idle state no stop reason has been recorded yet. *)
Definition session_invariant (r : Ex10ReaderPrivate) : Prop :=
  state (inventory_state r) <> InvIdle ->
  stop_reason (inventory_state r) = SRNone.

(** *** Relations between worlds, for the statements below

    [session_kept r r']: the session state and the saved parameters are the
    same in [r] and [r'], but for the fields that [start_inventory] writes
    (the cached target, antenna and RF mode, and the receiver gains read
    back after a ramp). *)
Definition session_kept (r r' : Ex10ReaderPrivate) : Prop :=
  set_inv_target 0 (inventory_state r) = set_inv_target 0 (inventory_state r') /\
  set_antenna_rf_mode 0 0 (inventory_params r)
    = set_antenna_rf_mode 0 0 (inventory_params r').

(** [extends P w w']: the calls recorded in [w'] are those of [w] followed
    by calls that all satisfy [P]. *)
Definition extends (P : Call -> Prop) (w w' : World D) : Prop :=
  exists delta, calls w' = calls w ++ delta /\ Forall P delta.

Definition step (P : Call -> Prop) (w w' : World D) : Prop :=
  session_kept (reader w) (reader w') /\ extends P w w'.

Definition steps {A} (P : Call -> Prop) (m : M D A) : Prop :=
  forall w, step P w (snd (m w)).

Definition is_run_inventory (c : Call) : Prop :=
  match c with
  | run_inventory _ _ _ => True
  | _ => False
  end.

Definition is_queue_or_event (c : Call) : Prop :=
  match c with
  | list_node_push_back _ | insert_fifo_event _ _ => True
  | _ => False
  end.

(** Calls that neither start a round nor publish a packet. *)
Definition is_ramp_call (c : Call) : Prop :=
  ~ is_run_inventory c /\ ~ is_queue_or_event c.

#[global] Instance is_run_inventory_dec (c : Call) : Decision (is_run_inventory c).
Proof. destruct c; simpl; apply _. Defined.

(** The number of round starts among the calls. *)
Definition count_run_inventory (l : list Call) : nat :=
  length (filter is_run_inventory l).

(** The calls [start_inventory] may make when it is given the
    configurations [c] and [c2]: a round start carries exactly them. *)
Definition is_start_call (c : InventoryRoundControlFields)
    (c2 : InventoryRoundControl_2Fields) (s : bool) (call : Call) : Prop :=
  ~ is_queue_or_event call /\
  (is_run_inventory call -> call = run_inventory c c2 s).


(** *** Sequences of calls of the reader's interface

    The entry points the host and the interrupt thread call, and the world
    after a sequence of them. *)

Inductive ApiCall :=
  | api_init
  | api_continuous_inventory (antenna rf_mode tx_power_cdbm : Z)
      (inventory_config : option InventoryRoundControlFields)
      (inventory_config_2 : option InventoryRoundControl_2Fields)
      (send_selects : bool) (stop_conditions : option StopConditions)
      (dual_target remain_on : bool)
  | api_inventory (antenna rf_mode tx_power_cdbm : Z)
      (inventory_config : InventoryRoundControlFields)
      (inventory_config_2 : InventoryRoundControl_2Fields)
      (send_selects remain_on : bool)
  | api_fifo_data_handler (packets : list EventFifoPacket)
  | api_stop_transmitting.

Definition run_api (c : ApiCall) (w : World D) : World D :=
  match c with
  | api_init => snd (init w)
  | api_continuous_inventory a m p c1 c2 s sc dt ro =>
      snd (continuous_inventory a m p c1 c2 s sc dt ro w)
  | api_inventory a m p c1 c2 s ro => snd (inventory a m p c1 c2 s ro w)
  | api_fifo_data_handler packets => snd (fifo_data_handler packets w)
  | api_stop_transmitting => snd (stop_transmitting w)
  end.

Definition run_apis (cs : list ApiCall) (w : World D) : World D :=
  fold_left (fun w c => run_api c w) cs w.

(** The calls that belong to a session once it is started: every call but
    the two that reset the session state. *)
Definition within_session (c : ApiCall) : bool :=
  match c with
  | api_init | api_continuous_inventory _ _ _ _ _ _ _ _ _ => false
  | _ => true
  end.

End WithDriver.

End Reader.

(* ================================================================== *)
(** ** A simulated device

    An instance of the interface tables that the examples below run on: the
    results of the coming [run_inventory] and [cw_on] calls are scripted
    (success once the script is exhausted), [cw_on] and
    [stop_op_and_ramp_down] switch the carrier, and the free list of FIFO
    buffers holds [sim_free_nodes] nodes. *)

Module Sim.

Import EtsiLower Reader.

Record Device := {
  sim_op_running : bool;
  sim_cw_is_on : bool;
  sim_time : Z;
  sim_free_nodes : nat;
  sim_run_inventory_replies : list Ex10Result;
  sim_cw_on_replies : list Ex10Result;
}.

Definition ok : Reply := {| reply_result := make_ex10_success; reply_data := [] |}.

(** The device reports that op [id] failed with [e]. *)
Definition ops_error_result (id : OpId) (e : OpsStatusError) : Ex10Result :=
  {| error := true; customer := false; module := Ex10ModuleDevice;
     result_code := DeviceCode Ex10DeviceErrorOps;
     device_status := {| ops_status := {| op_id := id; ops_error := e |} |} |}.

Definition sim_perform (c : Call) (d : Device) : Reply * Device :=
  match c with
  | run_inventory _ _ _ =>
      ({| reply_result := hd make_ex10_success (sim_run_inventory_replies d);
          reply_data := [] |},
       {| sim_op_running := sim_op_running d;
          sim_cw_is_on := sim_cw_is_on d;
          sim_time := sim_time d;
          sim_free_nodes := sim_free_nodes d;
          sim_run_inventory_replies := tl (sim_run_inventory_replies d);
          sim_cw_on_replies := sim_cw_on_replies d |})
  | cw_on _ _ =>
      let r := hd make_ex10_success (sim_cw_on_replies d) in
      ({| reply_result := r; reply_data := [] |},
       {| sim_op_running := sim_op_running d;
          sim_cw_is_on := if error r then sim_cw_is_on d else true;
          sim_time := sim_time d;
          sim_free_nodes := sim_free_nodes d;
          sim_run_inventory_replies := sim_run_inventory_replies d;
          sim_cw_on_replies := tl (sim_cw_on_replies d) |})
  | stop_op_and_ramp_down =>
      (ok,
       {| sim_op_running := sim_op_running d;
          sim_cw_is_on := false;
          sim_time := sim_time d;
          sim_free_nodes := sim_free_nodes d;
          sim_run_inventory_replies := sim_run_inventory_replies d;
          sim_cw_on_replies := sim_cw_on_replies d |})
  | measure_and_read_adc_temperature =>
      ({| reply_result := make_ex10_success; reply_data := [500] |}, d)
  | read_rx_gain_control =>
      ({| reply_result := make_ex10_success;
          reply_data := [1; 2; 3; 4; 5; 6; 7; 8; 9; 10] |}, d)
  | _ => (ok, d)
  end.

Definition sim_free_list_get (d : Device) : bool * Device :=
  match sim_free_nodes d with
  | O => (false, d)
  | S n =>
      (true,
       {| sim_op_running := sim_op_running d;
          sim_cw_is_on := sim_cw_is_on d;
          sim_time := sim_time d;
          sim_free_nodes := n;
          sim_run_inventory_replies := sim_run_inventory_replies d;
          sim_cw_on_replies := sim_cw_on_replies d |})
  end.

Definition sim_stop_reason (r : Ex10Result) : StopReason :=
  if error r then
    match result_code r with
    | DeviceCode Ex10DeviceErrorOps => SROpError
    | DeviceCode Ex10DeviceErrorOpsTimeout => SRSdkTimeoutError
    | DeviceCode _ => SRDeviceCommandError
    | SdkCode Ex10SdkEventFifoFull => SROther 10
    | SdkCode Ex10InventoryInvalidParam => SROther 11
    | SdkCode Ex10SdkLmacOverload => SROther 12
    | SdkCode Ex10InventorySummaryReasonInvalid => SROther 13
    | SdkCode _ => SROther 14
    end
  else SRNone.

#[global] Instance sim_driver : Ex10Driver Device := {|
  perform := sim_perform;
  is_op_currently_running := sim_op_running;
  get_cw_is_on := sim_cw_is_on;
  get_device_time := sim_time;
  get_droop_compensation_defaults := fun _ => 0;
  retrieve_adc_temperature := fun _ => 0;
  get_next_channel_khz := fun _ => 865700;
  temperature_compensation_enabled := fun t => 0 <? t;
  rf_power_build_cw_configs := fun _ _ _ _ _ _ =>
    {| rf_settings := 0; timer := regulatory_timers region |};
  ex10_result_to_continuous_inventory_error := sim_stop_reason;
  free_list_get := sim_free_list_get;
|}.

(** A device with the carrier on, no op running and one free buffer. *)
Definition idle_device : Device := {|
  sim_op_running := false;
  sim_cw_is_on := true;
  sim_time := 0;
  sim_free_nodes := 1;
  sim_run_inventory_replies := [];
  sim_cw_on_replies := [];
|}.

Definition world_of (d : Device) : World Device := mkWorld reader_initial d [].

(** The round configuration of continuous_inventory_stops_example.c. *)
Definition example_config : InventoryRoundControlFields := {|
  initial_q := 2; max_q := 15; min_q := 0; num_min_q_cycles := 1;
  fixed_q_mode := false; q_increase_use_query := false;
  q_decrease_use_query := false; session := 0; select := 0; target := 0;
  halt_on_all_tags := false; tag_focus_enable := false;
  fast_id_enable := false;
|}.

Definition example_config_2 : InventoryRoundControl_2Fields := {|
  max_queries_since_valid_epc := 16;
  starting_min_q_count := 0;
  starting_max_queries_since_valid_epc_count := 0;
|}.

Definition no_stop_conditions : StopConditions :=
  {| max_number_of_rounds := 0; max_number_of_tags := 0; max_duration_us := 0 |}.

Definition round_summary_packet (us : Z) (reason : InventorySummaryReason)
    (final_q min_q_cnt queries_cnt : Z) : EventFifoPacket :=
  {| packet_type := InventoryRoundSummary;
     us_counter := us;
     static_data := inventory_round_summary
       {| irs_duration_us := 0; irs_total_slots := 0; irs_reason := reason;
          irs_final_q := final_q; irs_min_q_count := min_q_cnt;
          irs_queries_since_valid_epc_count := queries_cnt |};
     dynamic_data := [];
     is_valid := true |}.

(** The world after [continuous_inventory] with the example configuration,
    dual target, on device [d]. *)
Definition session_started (d : Device) (stop : StopConditions) : World Device :=
  snd (continuous_inventory 1 103 3000 (Some example_config)
         (Some example_config_2) false (Some stop) true false (world_of d)).

(** Stop conditions used below, and a device without a free FIFO buffer. *)
Definition stop_after_rounds (n : Z) : StopConditions :=
  {| max_number_of_rounds := n; max_number_of_tags := 0; max_duration_us := 0 |}.

Definition stop_after_us (us : Z) : StopConditions :=
  {| max_number_of_rounds := 0; max_number_of_tags := 0; max_duration_us := us |}.

Definition device_without_free_node : Device := {|
  sim_op_running := false;
  sim_cw_is_on := true;
  sim_time := 0;
  sim_free_nodes := 0;
  sim_run_inventory_replies := [];
  sim_cw_on_replies := [];
|}.

Definition is_result_node_push (c : Call) : Prop :=
  match c with
  | list_node_push_back (result_node _) => True
  | _ => False
  end.

End Sim.
(* ================================================================== *)
(** ** Sequences of transmissions on one channel *)

Module EtsiLowerRuns.

Import EtsiLower.

(** One transmission: the ramp up at [fst burst] and the ramp down at
    [snd burst]. *)
Definition transmit (channel : nat) (burst : Z * Z) (s : State) : option State :=
  s1 ← regulatory_timer_set_start channel (fst burst) s;
  regulatory_timer_set_end channel (snd burst) s1.

Fixpoint transmit_all (channel : nat) (bursts : list (Z * Z)) (s : State)
    : option State :=
  match bursts with
  | [] => Some s
  | burst :: rest =>
      s1 ← transmit channel burst s;
      transmit_all channel rest s1
  end.

(** Every pause, from the end [prev_end] of one transmission to the start of
    the next, is shorter than [off]. *)
Fixpoint pauses_below (off prev_end : Z) (bursts : list (Z * Z)) : Prop :=
  match bursts with
  | [] => True
  | burst :: rest =>
      wrap32 (fst burst - prev_end) < off /\ pauses_below off (snd burst) rest
  end.

End EtsiLowerRuns.

(* ================================================================== *)
(** ** Observations on the reader, for the statements further below *)

Module ReaderObservations.

Import EtsiLower Reader.

(** [keeps f m]: running [m] leaves the part [f] of the reader as it was. *)
Definition keeps {D A B} (f : Ex10ReaderPrivate -> A) (m : M D B) : Prop :=
  forall w, f (reader (snd (m w))) = f (reader w).

(** [stays Q m]: a reader that satisfies [Q] still does after [m] has run. *)
Definition stays {D B} (Q : Ex10ReaderPrivate -> Prop) (m : M D B) : Prop :=
  forall w, Q (reader w) -> Q (reader (snd (m w))).

(** [within Q P m]: from a reader that satisfies [Q], [m] leads to a reader
    that satisfies [Q] and makes only calls that satisfy [P]. *)
Definition within {D B} (Q : Ex10ReaderPrivate -> Prop)
    (P : Call -> Prop) (m : M D B) : Prop :=
  forall w, Q (reader w) ->
            Q (reader (snd (m w))) /\ extends P w (snd (m w)).

(** The Gen2 targets. *)
(** The reader of a session started with [remain_on]. *)
Definition remains_on (r : Ex10ReaderPrivate) : Prop :=
  remain_on (inventory_params r) = true.

Definition target_valid (t : Z) : Prop := t = target_A \/ t = target_B.

(** What the host sets when it starts a session: the saved parameters and
    the saved initial round configuration. *)
Definition host_settings (r : Ex10ReaderPrivate)
    : ReaderInventoryParams * InventoryRoundControlFields :=
  (inventory_params r, initial_inventory_config (inventory_state r)).

Definition session_target (r : Ex10ReaderPrivate) : Z :=
  inv_target (inventory_state r).

(** The two facts about the target that the handling of packets preserves. *)
Definition target_fact (t : option Z) (r : Ex10ReaderPrivate) : Prop :=
  match t with
  | Some t => session_target r = t /\ dual_target (inventory_params r) = false
  | None => target_valid (session_target r)
  end.

(** The insertions of a [ContinuousInventorySummary] among the calls. *)
Definition is_summary_insert (c : Call) : bool :=
  match c with
  | insert_fifo_event _ packet =>
      bool_decide (packet_type packet = ContinuousInventorySummary)
  | _ => false
  end.

Definition count_summaries (l : list Call) : nat :=
  length (List.filter is_summary_insert l).

(** What handling one packet does to a session: it runs on, with no summary
    published, or it ends, with exactly one. *)
Definition runs_or_ends {D} (w w' : World D) : Prop :=
  (state (inventory_state (reader w')) = state (inventory_state (reader w)) /\
   count_summaries (calls w') = count_summaries (calls w)) \/
  (state (inventory_state (reader w')) = InvIdle /\
   count_summaries (calls w') = S (count_summaries (calls w))).

(** What [start_inventory] writes into the reader. *)
Definition round_settings (r : Ex10ReaderPrivate) : Z * Z * Z :=
  (inv_target (inventory_state r), antenna (inventory_params r),
   rf_mode (inventory_params r)).

(** The calls of the interface that start a session, and the number of
    sessions that are running in a world: none or one. *)
Definition starts_session (c : ApiCall) : bool :=
  match c with
  | api_continuous_inventory _ _ _ _ _ _ _ _ _ => true
  | _ => false
  end.

Definition count_sessions (cs : list ApiCall) : nat :=
  length (List.filter starts_session cs).

Definition open_sessions {D} (w : World D) : nat :=
  if decide (state (inventory_state (reader w)) = InvIdle) then 0%nat else 1%nat.

(** A carrier ramp among the calls has its regulatory timers disabled. *)
Definition ramps_without_timers (c : Call) : Prop :=
  match c with
  | cw_on cw_config _ => timer cw_config = regulatory_timers_disabled
  | _ => True
  end.


End ReaderObservations.

(* ================================================================== *)
(** ** cw_test (ex10_reader.c) *)

Module ReaderCwTest.

Import EtsiLower Reader.

Section WithDriver.

Context {D : Type} `{Ex10Driver D}.

(** [temp_comp_enabled] is computed from the stored temperature, before the
    RF mode is set and before the temperature is measured. *)
Definition cw_test (antenna rf_mode tx_power_cdbm frequency_khz : Z)
    (remain_on : bool) : M D Ex10Result :=
  temperature_adc <- query retrieve_adc_temperature ;;
  let temp_comp_enabled := temperature_compensation_enabled temperature_adc in
  ex10_result <- op (set_rf_mode rf_mode) ;;
  if error ex10_result then ret ex10_result else
  cw <- query get_cw_is_on ;;
  if negb cw then
    rep <- call measure_and_read_adc_temperature ;;
    if error (reply_result rep) then ret (reply_result rep) else
    let temperature_adc := hd temperature_adc (reply_data rep) in
    call (store_adc_temperature temperature_adc) ;;
    (if decide (frequency_khz <> 0)
     then call (set_single_frequency frequency_khz) ;; ret tt
     else ret tt) ;;
    cw_config <- query (rf_power_build_cw_configs antenna rf_mode tx_power_cdbm
                          temperature_adc temp_comp_enabled) ;;
    let cw_config := if remain_on
                     then set_timer regulatory_timers_disabled cw_config
                     else cw_config in
    call (store_pre_ramp_variables antenna) ;;
    call (store_post_ramp_variables tx_power_cdbm frequency_khz) ;;
    droop_comp_defaults <- query get_droop_compensation_defaults ;;
    ex10_result <- op (cw_on cw_config droop_comp_defaults) ;;
    if error ex10_result then ret ex10_result else
    rep <- call read_rx_gain_control ;;
    put_stored_analog_rx_fields (reply_data rep) ;;
    ret (reply_result rep)
  else ret ex10_result.

End WithDriver.

End ReaderCwTest.

(* ================================================================== *)
(** ** The inventory sequence use case (ex10_inventory_sequence_use_case.c)

    The use case runs a sequence of inventory rounds handed over by the
    client: [run_inventory_sequence] starts the first round, and the
    [fifo_data_handler] of the use case, run on the interrupt thread, starts
    the following ones from the round summaries.  A pointer is an [option];
    a function whose C code dereferences [NULL], or reads outside the array
    of configurations, has no result ([None]). *)

Module InventorySequence.

Import Reader.

(** The [type_id] of a sequence: the code names only the basic type. *)
Inductive InventoryRoundConfigType :=
  | INVENTORY_ROUND_CONFIG_BASIC
  | InventoryRoundConfigOther (raw : Z).

#[global] Instance InventoryRoundConfigType_eq_dec : EqDecision InventoryRoundConfigType.
Proof. solve_decision. Defined.

Record InventoryRoundConfigBasic := {
  ircb_antenna : Z;
  ircb_rf_mode : Z;
  ircb_tx_power_cdbm : Z;
  ircb_inventory_config : InventoryRoundControlFields;
  ircb_inventory_config_2 : InventoryRoundControl_2Fields;
  ircb_send_selects : bool;
}.

(** [configs] is the array the client's pointer points to, and [count] the
    number of rounds the client says it has. *)
Record InventoryRoundSequence := {
  type_id : InventoryRoundConfigType;
  configs : option (list InventoryRoundConfigBasic);
  count : Z;
}.

(** [struct InventorySequenceState], without the subscriber callback, which
    only [publish_packets] uses. *)
Record InventorySequenceState := {
  inventory_sequence : option InventoryRoundSequence;
  inventory_round_iter : Z;
  inventory_round_packet_publisher : Z;
  publish_all_packets : bool;
}.

Definition set_inventory_round_iter v (st : InventorySequenceState)
    : InventorySequenceState :=
  {| inventory_sequence := inventory_sequence st;
     inventory_round_iter := v;
     inventory_round_packet_publisher := inventory_round_packet_publisher st;
     publish_all_packets := publish_all_packets st |}.

(** The calls the use case makes through the interface tables:
    [get_ex10_inventory()->start_inventory], [get_ex10_rf_power()->
    stop_op_and_ramp_down] and [get_ex10_event_fifo_queue()->
    list_node_push_back]. *)
Inductive UseCaseCall :=
  | inventory_start_inventory (antenna rf_mode tx_power_cdbm : Z)
      (inventory_config : InventoryRoundControlFields)
      (inventory_config_2 : InventoryRoundControl_2Fields)
      (send_selects : bool)
  | rf_power_stop_op_and_ramp_down
  | queue_list_node_push_back (node : FifoBufferNode).

(** The modules behind the tables, over the state [D] of the device, and
    [SIZE_MAX] of the platform. *)
Class UseCaseDriver (D : Type) := {
  use_case_perform : UseCaseCall -> D -> Ex10Result * D;
  use_case_free_list_get : D -> bool * D;
  SIZE_MAX : Z;
}.

Record UseCaseWorld (D : Type) := mkUseCaseWorld {
  sequence_state : InventorySequenceState;
  use_case_device : D;
  use_case_calls : list UseCaseCall;
}.

Arguments mkUseCaseWorld {D} _ _ _.
Arguments sequence_state {D} _.
Arguments use_case_device {D} _.
Arguments use_case_calls {D} _.

Section WithDriver.

Context {D : Type} `{UseCaseDriver D}.

(** Arithmetic of [size_t]. *)
Definition wrap_size (z : Z) : Z := z mod (SIZE_MAX + 1).

Definition use_case_call (c : UseCaseCall) (w : UseCaseWorld D)
    : Ex10Result * UseCaseWorld D :=
  let (r, d) := use_case_perform c (use_case_device w) in
  (r, mkUseCaseWorld (sequence_state w) d (use_case_calls w ++ [c])).

(** The pointer returned is [None] for [NULL] and [Some i] for
    [&configs[i]]; the function itself reads through
    [inventory_state.inventory_sequence]. *)
Definition get_basic_inventory_round_config (st : InventorySequenceState)
    (iteration : Z) : option (option Z) :=
  seq ← inventory_sequence st;
  if decide (type_id seq <> INVENTORY_ROUND_CONFIG_BASIC) then Some None
  else if iteration >=? count seq then Some None
  else Some (Some iteration).

(** Reading through a pointer returned by
    [get_basic_inventory_round_config]. *)
Definition round_at (st : InventorySequenceState) (pointer : option Z)
    : option InventoryRoundConfigBasic :=
  i ← pointer;
  seq ← inventory_sequence st;
  array ← configs seq;
  array !! Z.to_nat i.

Definition continue_inventory_sequence (round_summary : InventoryRoundSummaryFields)
    (w : UseCaseWorld D) : option (Ex10Result * UseCaseWorld D) :=
  let st := sequence_state w in
  inventory_round ← get_basic_inventory_round_config st (inventory_round_iter st);
  match irs_reason round_summary with
  | InventorySummaryRegulatory
  | InventorySummaryTxNotRampedUp =>
      round ← round_at st inventory_round;
      let inventory_config :=
        set_initial_q (irs_final_q round_summary) (ircb_inventory_config round) in
      let inventory_config_2 :=
        set_starting_counts (irs_min_q_count round_summary)
          (irs_queries_since_valid_epc_count round_summary)
          (ircb_inventory_config_2 round) in
      Some (use_case_call
              (inventory_start_inventory (ircb_antenna round) (ircb_rf_mode round)
                 (ircb_tx_power_cdbm round) inventory_config inventory_config_2
                 (ircb_send_selects round)) w)
  | InventorySummaryDone
  | InventorySummaryHost =>
      let st := set_inventory_round_iter
                  (wrap_size (inventory_round_iter st + 1)) st in
      let w := mkUseCaseWorld st (use_case_device w) (use_case_calls w) in
      inventory_round_next ←
        get_basic_inventory_round_config st (inventory_round_iter st);
      match inventory_round_next with
      | Some _ =>
          round_next ← round_at st inventory_round_next;
          let inventory_config := ircb_inventory_config round_next in
          let inventory_config_2 :=
            set_starting_counts 0 0 (ircb_inventory_config_2 round_next) in
          round ← round_at st inventory_round;
          let start w :=
            use_case_call
              (inventory_start_inventory (ircb_antenna round)
                 (ircb_rf_mode round_next) (ircb_tx_power_cdbm round_next)
                 inventory_config inventory_config_2
                 (ircb_send_selects round_next)) w in
          if decide (ircb_tx_power_cdbm round <> ircb_tx_power_cdbm round_next)
          then
            let (ex10_result, w) := use_case_call rf_power_stop_op_and_ramp_down w in
            if error ex10_result then Some (ex10_result, w)
            else Some (start w)
          else Some (start w)
      | None => Some (make_ex10_success, w)
      end
  | InventorySummaryEventFifoFull =>
      Some (make_ex10_sdk_error Ex10ModuleUseCase Ex10SdkEventFifoFull, w)
  | InventorySummaryLmacOverload =>
      Some (make_ex10_sdk_error Ex10ModuleUseCase Ex10SdkLmacOverload, w)
  | InventorySummaryInvalidParam =>
      Some (make_ex10_sdk_error Ex10ModuleUseCase Ex10InventoryInvalidParam, w)
  | _ =>
      Some (make_ex10_sdk_error Ex10ModuleUseCase Ex10InventorySummaryReasonInvalid, w)
  end.

(** As in the reader: a node from the free list, filled with the result
    packet, or [NULL]. *)
Definition use_case_result_fifo_packet (ex10_result : Ex10Result) (us : Z)
    (w : UseCaseWorld D) : option FifoBufferNode * UseCaseWorld D :=
  let (available, d) := use_case_free_list_get (use_case_device w) in
  (if available then Some (result_node (result_packet ex10_result us)) else None,
   mkUseCaseWorld (sequence_state w) d (use_case_calls w)).

(** The body of the [while] loop of the handler for one packet. *)
Definition handle_packet (packet : EventFifoPacket) (w : UseCaseWorld D)
    : option (UseCaseWorld D) :=
  if decide (packet_type packet = InventoryRoundSummary) then
    let round_summary := get_inventory_round_summary (static_data packet) in
    '(ex10_result, w) ← continue_inventory_sequence round_summary w;
    if error ex10_result then
      let (result_buffer_node, w) :=
        use_case_result_fifo_packet ex10_result (us_counter packet) w in
      match result_buffer_node with
      | Some node => Some (snd (use_case_call (queue_list_node_push_back node) w))
      | None => Some w
      end
    else Some w
  else Some w.

Fixpoint fifo_data_loop (packets : list EventFifoPacket) (w : UseCaseWorld D)
    : option (UseCaseWorld D) :=
  match packets with
  | [] => Some w
  | packet :: rest => w ← handle_packet packet w; fifo_data_loop rest w
  end.

Definition fifo_data_handler (packets : list EventFifoPacket) (w : UseCaseWorld D)
    : option (UseCaseWorld D) :=
  w ← fifo_data_loop packets w;
  Some (snd (use_case_call (queue_list_node_push_back (fifo_data packets)) w)).

End WithDriver.

End InventorySequence.

(* ================================================================== *)
(** ** Statements about the use case, and a simulated device for it *)

Module InventorySequenceObservations.

Import Reader InventorySequence.

(** The reasons on which the round is started again, and those on which the
    sequence moves on. *)
Definition restarts_round (reason : InventorySummaryReason) : Prop :=
  reason = InventorySummaryRegulatory \/ reason = InventorySummaryTxNotRampedUp.

Definition completes_round (reason : InventorySummaryReason) : Prop :=
  reason = InventorySummaryDone \/ reason = InventorySummaryHost.

(** The client's sequence is of the basic type, and its array has the
    [count] elements the client says it has. *)
Definition sequence_of (st : InventorySequenceState)
    (array : list InventoryRoundConfigBasic) : Prop :=
  exists seq,
    inventory_sequence st = Some seq /\
    type_id seq = INVENTORY_ROUND_CONFIG_BASIC /\
    configs seq = Some array /\
    count seq = Z.of_nat (length array).

(** The SDK error the use case turns a summary reason into, if any. *)
Definition reason_error_code (reason : InventorySummaryReason)
    : option Ex10SdkResultCode :=
  match reason with
  | InventorySummaryDone | InventorySummaryHost
  | InventorySummaryRegulatory | InventorySummaryTxNotRampedUp => None
  | InventorySummaryEventFifoFull => Some Ex10SdkEventFifoFull
  | InventorySummaryLmacOverload => Some Ex10SdkLmacOverload
  | InventorySummaryInvalidParam => Some Ex10InventoryInvalidParam
  | _ => Some Ex10InventorySummaryReasonInvalid
  end.

(** The calls between two rounds of a sequence: the ramp down, when they
    differ in power, and the start of the next round; and the calls of a
    whole sequence after its first round. *)
Definition transition (round round_next : InventoryRoundConfigBasic)
    : list UseCaseCall :=
  (if decide (ircb_tx_power_cdbm round <> ircb_tx_power_cdbm round_next)
   then [rf_power_stop_op_and_ramp_down] else [])
  ++ [inventory_start_inventory (ircb_antenna round) (ircb_rf_mode round_next)
        (ircb_tx_power_cdbm round_next) (ircb_inventory_config round_next)
        (set_starting_counts 0 0 (ircb_inventory_config_2 round_next))
        (ircb_send_selects round_next)].

Fixpoint transitions (array : list InventoryRoundConfigBasic) : list UseCaseCall :=
  match array with
  | round :: rest =>
      match rest with
      | round_next :: _ => transition round round_next ++ transitions rest
      | [] => []
      end
  | [] => []
  end.

(** The summary of a round that is done, or was stopped by the host. *)
Definition round_done (packet : EventFifoPacket) : Prop :=
  packet_type packet = InventoryRoundSummary /\
  completes_round (irs_reason (get_inventory_round_summary (static_data packet))).

End InventorySequenceObservations.

Module SimUseCase.

Import Reader InventorySequence.

(** A device on which every call succeeds, but the ramp down if
    [ramp_down_fails]; [free_nodes] buffers are free. *)
Record Device := {
  free_nodes : nat;
  ramp_down_fails : bool;
}.

Definition perform (c : UseCaseCall) (d : Device) : Ex10Result * Device :=
  match c with
  | rf_power_stop_op_and_ramp_down =>
      (if ramp_down_fails d
       then Sim.ops_error_result (OpIdRaw 0) ErrorUnknownError
       else make_ex10_success, d)
  | _ => (make_ex10_success, d)
  end.

Definition free_list_get (d : Device) : bool * Device :=
  match free_nodes d with
  | O => (false, d)
  | S n => (true, {| free_nodes := n; ramp_down_fails := ramp_down_fails d |})
  end.

#[global] Instance driver : UseCaseDriver Device := {|
  use_case_perform := perform;
  use_case_free_list_get := free_list_get;
  SIZE_MAX := 2 ^ 32 - 1;
|}.

(** A sequence of two rounds, on different antennas and at different
    powers. *)
Definition round_0 : InventoryRoundConfigBasic := {|
  ircb_antenna := 1; ircb_rf_mode := 103; ircb_tx_power_cdbm := 3000;
  ircb_inventory_config := Sim.example_config;
  ircb_inventory_config_2 := Sim.example_config_2;
  ircb_send_selects := false;
|}.

Definition round_1 : InventoryRoundConfigBasic := {|
  ircb_antenna := 2; ircb_rf_mode := 241; ircb_tx_power_cdbm := 2500;
  ircb_inventory_config := set_target 1 Sim.example_config;
  ircb_inventory_config_2 :=
    set_starting_counts 3 4 Sim.example_config_2;
  ircb_send_selects := true;
|}.

Definition two_rounds : InventoryRoundSequence := {|
  type_id := INVENTORY_ROUND_CONFIG_BASIC;
  configs := Some [round_0; round_1];
  count := 2;
|}.

Definition at_round (iter : Z) (d : Device) : UseCaseWorld Device :=
  mkUseCaseWorld
    {| inventory_sequence := Some two_rounds;
       inventory_round_iter := iter;
       inventory_round_packet_publisher := 0;
       publish_all_packets := false |}
    d [].

(** The same device, on which no call fails. *)
Definition reliable_driver : UseCaseDriver Device := {|
  use_case_perform := fun _ d => (make_ex10_success, d);
  use_case_free_list_get := free_list_get;
  SIZE_MAX := 2 ^ 32 - 1;
|}.

Definition working : Device := {| free_nodes := 1; ramp_down_fails := false |}.
Definition stuck : Device := {| free_nodes := 1; ramp_down_fails := true |}.

Definition summary (reason : InventorySummaryReason) (final_q min_q_cnt queries_cnt : Z)
    : InventoryRoundSummaryFields :=
  {| irs_duration_us := 0; irs_total_slots := 0; irs_reason := reason;
     irs_final_q := final_q; irs_min_q_count := min_q_cnt;
     irs_queries_since_valid_epc_count := queries_cnt |}.

End SimUseCase.

Lemma wrap32_range z : is_uint32 (wrap32 z).
Proof.
  unfold is_uint32, wrap32, UINT32_MAX.
  pose proof (Z.mod_pos_bound z (2 ^ 32) ltac:(lia)). lia.
Qed.

Lemma wrap32_small z : is_uint32 z -> wrap32 z = z.
Proof.
  unfold is_uint32, wrap32, UINT32_MAX. intros Hz.
  apply Z.mod_small. lia.
Qed.

Lemma wrap32_succ_neq z : is_uint32 z -> wrap32 (z + 1) <> z.
Proof.
  unfold is_uint32, wrap32, UINT32_MAX. intros Hz Heq.
  destruct (Z.eq_dec z 4294967295) as [-> | Hne].
  - vm_compute in Heq. discriminate.
  - rewrite Z.mod_small in Heq by lia. lia.
Qed.

(* ================================================================== *)
(** ** Properties of the OSAL memory helpers *)

Module OsalProofs.

Import Osal.

Lemma store_in_range (m : buffer) (index : nat) (value : byte) :
  (index < length m)%nat -> store m index value = Some (<[index := value]> m).
Proof. intros Hlt. unfold store. by rewrite decide_True. Qed.

(** The zeroing loop overwrites [count] bytes from [index] on and nothing
    else. *)
Lemma memzero_loop_spec (count : nat) : forall (dst : buffer) (index : nat),
  (index + count <= length dst)%nat ->
  memzero_loop dst index count =
    Some (take index dst ++ replicate count x00 ++ drop (index + count) dst).
Proof.
  induction count as [| count IH]; intros dst index Hlen; simpl.
  - by rewrite Nat.add_0_r, take_drop.
  - rewrite store_in_range by lia. simpl.
    rewrite IH by (rewrite length_insert; lia).
    f_equal.
    rewrite (take_S_r _ index x00) by (apply list_lookup_insert_eq; lia).
    rewrite take_insert_ge by lia.
    rewrite drop_insert_lt by lia.
    rewrite <- app_assoc. simpl.
    by rewrite Nat.add_succ_r.
Qed.

(** The copy loop overwrites [count] bytes from [index] on with the bytes of
    [src] at the same positions. *)
Lemma memcpy_loop_spec (src : buffer) (count : nat) : forall (dst : buffer) (index : nat),
  (index + count <= length dst)%nat ->
  (index + count <= length src)%nat ->
  memcpy_loop dst src index count =
    Some (take index dst ++ take count (drop index src) ++ drop (index + count) dst).
Proof.
  induction count as [| count IH]; intros dst index Hdst Hsrc; simpl.
  - by rewrite Nat.add_0_r, take_drop.
  - destruct (lookup_lt_is_Some_2 src index ltac:(lia)) as [value Hvalue].
    rewrite Hvalue. simpl.
    rewrite store_in_range by lia. simpl.
    rewrite IH by (rewrite ?length_insert; lia).
    f_equal.
    rewrite (take_S_r _ index value) by (apply list_lookup_insert_eq; lia).
    rewrite take_insert_ge by lia.
    rewrite drop_insert_lt by lia.
    rewrite (drop_S src value index Hvalue).
    rewrite <- app_assoc. simpl.
    by rewrite Nat.add_succ_r.
Qed.

Lemma ex10_memzero_spec (dst : buffer) (dst_size : nat) :
  (dst_size <= length dst)%nat ->
  ex10_memzero dst dst_size = Some (replicate dst_size x00 ++ drop dst_size dst).
Proof.
  intros Hlen. unfold ex10_memzero.
  rewrite memzero_loop_spec by lia. by rewrite take_0.
Qed.

(** C9.  [ex10_memcpy(dst, dst_size, src, src_size)], on a destination of at
    least [dst_size] bytes: when [src_size <= dst_size] (and the source has
    that many bytes) the first [src_size] bytes of the destination become
    those of the source, the rest of the destination is unchanged and 0 is
    returned; otherwise the first [dst_size] bytes of the destination are
    zeroed and [EINVAL] is returned. *)
Theorem ex10_memcpy_zero_then_fail (dst src : buffer) (dst_size src_size : nat) :
  (dst_size <= length dst)%nat ->
  ((src_size <= dst_size)%nat -> (src_size <= length src)%nat) ->
  ((src_size <= dst_size)%nat ->
     ex10_memcpy dst dst_size src src_size =
       Some (take src_size src ++ drop src_size dst, 0)) /\
  ((dst_size < src_size)%nat ->
     ex10_memcpy dst dst_size src src_size =
       Some (replicate dst_size x00 ++ drop dst_size dst, EINVAL)).
Proof.
  intros Hdst Hsrc. unfold ex10_memcpy. split; intros Hcmp.
  - rewrite decide_True by done.
    rewrite memcpy_loop_spec by (specialize (Hsrc Hcmp); lia).
    by rewrite take_0, drop_0.
  - rewrite decide_False by lia.
    by rewrite ex10_memzero_spec.
Qed.

Lemma ex10_memcpy_zero_then_fail_witness :
  ex10_memcpy [x11; x22; x33; x44] 4 [xaa; xbb] 2 = Some ([xaa; xbb; x33; x44], 0) /\
  ex10_memcpy [x11; x22; x33; x44] 3 [xaa; xbb; xcc; xdd] 4
    = Some ([x00; x00; x00; x44], EINVAL).
Proof.
  split.
  - apply (ex10_memcpy_zero_then_fail [x11; x22; x33; x44] [xaa; xbb] 4 2);
      simpl; lia.
  - apply (ex10_memcpy_zero_then_fail [x11; x22; x33; x44] [xaa; xbb; xcc; xdd] 3 4);
      simpl; lia.
Defined.

End OsalProofs.

(* ================================================================== *)
(** ** Properties of the regulatory timers *)

Module EtsiLowerProofs.

Import EtsiLower.

Lemma array_store_in_range (a : list Z) (index : nat) (value : Z) :
  (index < length a)%nat -> array_store a index value = Some (<[index := value]> a).
Proof. intros Hlt. unfold array_store. by rewrite decide_True. Qed.

(** What [regulatory_timer_set_start] computes on a channel of the arrays. *)
Lemma regulatory_timer_set_start_eq (channel : nat) (time_ms : Z) (s : State)
    (last_end total : Z) :
  well_sized s ->
  channel_last_end s !! channel = Some last_end ->
  channel_total_time s !! channel = Some total ->
  regulatory_timer_set_start channel time_ms s =
    Some {| region_ptr := region_ptr s;
            channel_last_start := <[channel := time_ms]> (channel_last_start s);
            channel_last_end := channel_last_end s;
            channel_total_time :=
              <[channel :=
                  if wrap32 (time_ms - last_end)
                     <? off_same_channel_ms (regulatory_timers (region_ptr s))
                  then wrap32 (total + wrap32 (time_ms - last_end))
                  else 0]> (channel_total_time s) |}.
Proof.
  intros (Hstart & Hend & Htotal) Hlast_end Htot.
  pose proof (lookup_lt_Some _ _ _ Hlast_end) as Hlt.
  unfold regulatory_timer_set_start.
  rewrite array_store_in_range by lia. simpl.
  rewrite Hlast_end. simpl. rewrite Htot. simpl.
  by rewrite array_store_in_range by lia.
Qed.

(** What [regulatory_timer_set_end] computes on a channel of the arrays. *)
Lemma regulatory_timer_set_end_eq (channel : nat) (time_ms : Z) (s : State)
    (last_start total : Z) :
  well_sized s ->
  channel_last_start s !! channel = Some last_start ->
  channel_total_time s !! channel = Some total ->
  regulatory_timer_set_end channel time_ms s =
    Some {| region_ptr := region_ptr s;
            channel_last_start := channel_last_start s;
            channel_last_end := <[channel := time_ms]> (channel_last_end s);
            channel_total_time :=
              <[channel := wrap32 (total + wrap32 (time_ms - last_start))]>
                (channel_total_time s) |}.
Proof.
  intros (Hstart & Hend & Htotal) Hlast_start Htot.
  pose proof (lookup_lt_Some _ _ _ Hlast_start) as Hlt.
  unfold regulatory_timer_set_end.
  rewrite array_store_in_range by lia. simpl.
  rewrite Hlast_start. simpl. rewrite Htot. simpl.
  by rewrite array_store_in_range by lia.
Qed.

Lemma well_sized_lookups (s : State) (channel : nat) :
  well_sized s -> (channel < ETSI_UPPER_CHANNELS)%nat ->
  exists last_start last_end total,
    channel_last_start s !! channel = Some last_start /\
    channel_last_end s !! channel = Some last_end /\
    channel_total_time s !! channel = Some total.
Proof.
  intros (Hstart & Hend & Htotal) Hlt.
  destruct (lookup_lt_is_Some_2 (channel_last_start s) channel ltac:(lia)) as [a Ha].
  destruct (lookup_lt_is_Some_2 (channel_last_end s) channel ltac:(lia)) as [b Hb].
  destruct (lookup_lt_is_Some_2 (channel_total_time s) channel ltac:(lia)) as [c Hc].
  eauto 10.
Qed.

Lemma channel_timers_start (channel : nat) (time_ms : Z) (s s' : State)
    (last_start last_end total : Z) :
  well_sized s ->
  channel_timers s channel = Some (last_start, last_end, total) ->
  regulatory_timer_set_start channel time_ms s = Some s' ->
  well_sized s' /\
  region_ptr s' = region_ptr s /\
  channel_timers s' channel =
    Some (time_ms, last_end,
          if wrap32 (time_ms - last_end)
             <? off_same_channel_ms (regulatory_timers (region_ptr s))
          then wrap32 (total + wrap32 (time_ms - last_end))
          else 0).
Proof.
  intros Hws Htimers Hrun. unfold channel_timers in Htimers.
  destruct (channel_last_start s !! channel) as [a|] eqn:Ha; [|done].
  destruct (channel_last_end s !! channel) as [b|] eqn:Hb; [|done].
  destruct (channel_total_time s !! channel) as [c|] eqn:Hc; [|done].
  simpl in Htimers. injection Htimers as -> -> ->.
  rewrite (regulatory_timer_set_start_eq _ _ _ _ _ Hws Hb Hc) in Hrun.
  injection Hrun as <-.
  destruct Hws as (Hstart & Hend & Htotal).
  pose proof (lookup_lt_Some _ _ _ Ha) as Hlt.
  split; [|split; [done|]].
  - unfold well_sized; simpl. by rewrite !length_insert.
  - unfold channel_timers; simpl.
    rewrite list_lookup_insert_eq by lia. simpl. rewrite Hb. simpl.
    by rewrite list_lookup_insert_eq by lia.
Qed.

Lemma channel_timers_end (channel : nat) (time_ms : Z) (s s' : State)
    (last_start last_end total : Z) :
  well_sized s ->
  channel_timers s channel = Some (last_start, last_end, total) ->
  regulatory_timer_set_end channel time_ms s = Some s' ->
  well_sized s' /\
  region_ptr s' = region_ptr s /\
  channel_timers s' channel =
    Some (last_start, time_ms, wrap32 (total + wrap32 (time_ms - last_start))).
Proof.
  intros Hws Htimers Hrun. unfold channel_timers in Htimers.
  destruct (channel_last_start s !! channel) as [a|] eqn:Ha; [|done].
  destruct (channel_last_end s !! channel) as [b|] eqn:Hb; [|done].
  destruct (channel_total_time s !! channel) as [c|] eqn:Hc; [|done].
  simpl in Htimers. injection Htimers as -> -> ->.
  rewrite (regulatory_timer_set_end_eq _ _ _ _ _ Hws Ha Hc) in Hrun.
  injection Hrun as <-.
  destruct Hws as (Hstart & Hend & Htotal).
  pose proof (lookup_lt_Some _ _ _ Ha) as Hlt.
  split; [|split; [done|]].
  - unfold well_sized; simpl. by rewrite !length_insert.
  - unfold channel_timers; simpl. rewrite Ha. simpl.
    rewrite list_lookup_insert_eq by lia. simpl.
    by rewrite list_lookup_insert_eq by lia.
Qed.

Lemma set_start_runs (channel : nat) (time_ms : Z) (s : State) :
  well_sized s -> (channel < ETSI_UPPER_CHANNELS)%nat ->
  exists s', regulatory_timer_set_start channel time_ms s = Some s'.
Proof.
  intros Hws Hlt.
  destruct (well_sized_lookups s channel Hws Hlt) as (a & b & c & Ha & Hb & Hc).
  rewrite (regulatory_timer_set_start_eq _ _ _ _ _ Hws Hb Hc). eauto.
Qed.

Lemma set_end_runs (channel : nat) (time_ms : Z) (s : State) :
  well_sized s -> (channel < ETSI_UPPER_CHANNELS)%nat ->
  exists s', regulatory_timer_set_end channel time_ms s = Some s'.
Proof.
  intros Hws Hlt.
  destruct (well_sized_lookups s channel Hws Hlt) as (a & b & c & Ha & Hb & Hc).
  rewrite (regulatory_timer_set_end_eq _ _ _ _ _ Hws Ha Hc). eauto.
Qed.

(** C8.  On every channel of the per-channel arrays,
    [regulatory_timer_set_start] records the start time and, when the time
    since the last end (in [uint32_t] arithmetic) is strictly below the
    region's [off_same_channel_ms], adds that gap to the accumulated
    on-time, and otherwise resets the accumulated on-time to zero;
    [regulatory_timer_set_end] records the end time and adds the time since
    the last start.  In particular after a start at 1000 and an end at 1040,
    a start at [1040 + off_same_channel_ms - 1] adds the whole gap of
    [off_same_channel_ms - 1] to the accumulated on-time. *)
Theorem regulatory_timer_start_end (s : State) (channel : nat) (now_ms : Z)
    (last_start last_end total : Z) :
  well_sized s ->
  (channel < ETSI_UPPER_CHANNELS)%nat ->
  channel_timers s channel = Some (last_start, last_end, total) ->
  let off_time_required := off_same_channel_ms (regulatory_timers (region_ptr s)) in
  (exists s',
     regulatory_timer_set_start channel now_ms s = Some s' /\
     channel_timers s' channel =
       Some (now_ms, last_end,
             if wrap32 (now_ms - last_end) <? off_time_required
             then wrap32 (total + wrap32 (now_ms - last_end))
             else 0)) /\
  (exists s',
     regulatory_timer_set_end channel now_ms s = Some s' /\
     channel_timers s' channel =
       Some (last_start, now_ms, wrap32 (total + wrap32 (now_ms - last_start)))) /\
  (0 < off_time_required <= 65535 ->
   exists s1 s2 s3 on_time,
     regulatory_timer_set_start channel 1000 s = Some s1 /\
     regulatory_timer_set_end channel 1040 s1 = Some s2 /\
     channel_timers s2 channel = Some (1000, 1040, on_time) /\
     regulatory_timer_set_start channel (1040 + off_time_required - 1) s2 = Some s3 /\
     channel_timers s3 channel =
       Some (1040 + off_time_required - 1, 1040,
             wrap32 (on_time + (off_time_required - 1)))).
Proof.
  intros Hws Hlt Htimers off_time_required.
  split; [|split].
  - destruct (set_start_runs channel now_ms s Hws Hlt) as [s' Hs'].
    exists s'. split; [done|].
    by destruct (channel_timers_start _ _ _ _ _ _ _ Hws Htimers Hs') as (_ & _ & ?).
  - destruct (set_end_runs channel now_ms s Hws Hlt) as [s' Hs'].
    exists s'. split; [done|].
    by destruct (channel_timers_end _ _ _ _ _ _ _ Hws Htimers Hs') as (_ & _ & ?).
  - intros Hoff.
    destruct (set_start_runs channel 1000 s Hws Hlt) as [s1 Hs1].
    destruct (channel_timers_start _ _ _ _ _ _ _ Hws Htimers Hs1)
      as (Hws1 & Hreg1 & Ht1).
    destruct (set_end_runs channel 1040 s1 Hws1 Hlt) as [s2 Hs2].
    destruct (channel_timers_end _ _ _ _ _ _ _ Hws1 Ht1 Hs2)
      as (Hws2 & Hreg2 & Ht2).
    destruct (set_start_runs channel (1040 + off_time_required - 1) s2 Hws2 Hlt)
      as [s3 Hs3].
    destruct (channel_timers_start _ _ _ _ _ _ _ Hws2 Ht2 Hs3)
      as (Hws3 & Hreg3 & Ht3).
    eexists s1, s2, s3, _. repeat (split; [eassumption|]).
    rewrite Ht3. rewrite Hreg2, Hreg1. fold off_time_required.
    replace (1040 + off_time_required - 1 - 1040) with (off_time_required - 1) by lia.
    rewrite (wrap32_small (off_time_required - 1))
      by (unfold is_uint32, UINT32_MAX; lia).
    by rewrite (proj2 (Z.ltb_lt _ _)) by lia.
Qed.

Lemma regulatory_timer_start_end_witness :
  (exists s1 s2 s3 on_time,
     regulatory_timer_set_start 2 1000 initial = Some s1 /\
     regulatory_timer_set_end 2 1040 s1 = Some s2 /\
     channel_timers s2 2 = Some (1000, 1040, on_time) /\
     regulatory_timer_set_start 2 (1040 + 100 - 1) s2 = Some s3 /\
     channel_timers s3 2 = Some (1040 + 100 - 1, 1040, wrap32 (on_time + (100 - 1)))).
Proof.
  refine (proj2 (proj2 (regulatory_timer_start_end initial 2 0 0 0 0 _ _ _)) _).
  - repeat split.
  - unfold ETSI_UPPER_CHANNELS; lia.
  - reflexivity.
  - simpl; lia.
Defined.

(** Scenario E on the zero-initialised arrays of the ETSI lower region
    (off time 100 ms): the on-time of 40 ms and the gap of 99 ms add up. *)
Example scenario_E_etsi_lower :
  (s1 ← regulatory_timer_set_start 2 1000 initial;
   s2 ← regulatory_timer_set_end 2 1040 s1;
   s3 ← regulatory_timer_set_start 2 1139 s2;
   channel_timers s3 2) = Some (1139, 1040, 139).
Proof. reflexivity. Qed.

(** Once the channel has rested for the whole off time the on-time restarts
    from zero. *)
Example scenario_E_rested :
  (s1 ← regulatory_timer_set_start 2 1000 initial;
   s2 ← regulatory_timer_set_end 2 1040 s1;
   s3 ← regulatory_timer_set_start 2 1140 s2;
   channel_timers s3 2) = Some (1140, 1040, 0).
Proof. reflexivity. Qed.

End EtsiLowerProofs.

(* ================================================================== *)
(** ** Properties of the reader *)

Module ReaderProofs.

Import EtsiLower Reader.

Section WithDriver.

Context {D : Type} `{Ex10Driver D}.

(** *** What every run of a reader function keeps *)

Lemma session_kept_refl r : session_kept r r.
Proof. by split. Qed.

Lemma session_kept_trans r1 r2 r3 :
  session_kept r1 r2 -> session_kept r2 r3 -> session_kept r1 r3.
Proof. intros [? ?] [? ?]. split; congruence. Qed.

Lemma step_refl P (w : World D) : step P w w.
Proof.
  split; [apply session_kept_refl|]. exists []. by rewrite app_nil_r.
Qed.

Lemma step_trans P (w1 w2 w3 : World D) : step P w1 w2 -> step P w2 w3 -> step P w1 w3.
Proof.
  intros [Hk1 (d1 & Hc1 & Hf1)] [Hk2 (d2 & Hc2 & Hf2)].
  split; [by eapply session_kept_trans|].
  exists (d1 ++ d2). split.
  - by rewrite Hc2, Hc1, app_assoc.
  - by apply Forall_app.
Qed.

Lemma step_weaken (P Q : Call -> Prop) (w w' : World D) :
  (forall c, P c -> Q c) -> step P w w' -> step Q w w'.
Proof.
  intros HPQ [Hk (d & Hc & Hf)]. split; [done|].
  exists d. split; [done|]. eapply Forall_impl; eauto.
Qed.

Lemma steps_weaken {A} (P Q : Call -> Prop) (m : M D A) :
  (forall c, P c -> Q c) -> steps P m -> steps Q m.
Proof. intros HPQ Hm w. eapply step_weaken; eauto. Qed.

Lemma steps_ret {A} P (a : A) : steps (D:=D) P (ret a).
Proof. intros w. apply step_refl. Qed.

Lemma steps_bind {A B} P (m : M D A) (k : A -> M D B) :
  steps P m -> (forall a, steps P (k a)) -> steps P (bind m k).
Proof.
  intros Hm Hk w. unfold bind.
  specialize (Hm w). destruct (m w) as [a w1]. simpl in Hm.
  eapply step_trans; [exact Hm | apply Hk].
Qed.

Lemma steps_query {A} P (f : D -> A) : steps P (query f).
Proof. intros w. apply step_refl. Qed.

Lemma steps_get_reader P : steps (D:=D) P get_reader.
Proof. intros w. apply step_refl. Qed.

Lemma steps_get_state P : steps (D:=D) P get_state.
Proof. intros w. apply step_refl. Qed.

Lemma steps_get_params P : steps (D:=D) P get_params.
Proof. intros w. apply step_refl. Qed.

Lemma steps_call (P : Call -> Prop) c : P c -> steps P (call c).
Proof.
  intros HP w. unfold call. destruct (perform c (device w)) as [rep d]. simpl.
  split; [apply session_kept_refl|]. exists [c]. split; [done|].
  by apply Forall_singleton.
Qed.

Lemma steps_op (P : Call -> Prop) c : P c -> steps P (op c).
Proof.
  intros HP. unfold op. apply steps_bind; [by apply steps_call|].
  intros rep. apply steps_ret.
Qed.

Lemma steps_modify_state P f :
  (forall s, set_inv_target 0 (f s) = set_inv_target 0 s) ->
  steps (D:=D) P (modify_state f).
Proof.
  intros Hf w. split; simpl.
  - split; simpl; [by rewrite Hf | done].
  - exists []. by rewrite app_nil_r.
Qed.

Lemma steps_modify_params P f :
  (forall p, set_antenna_rf_mode 0 0 (f p) = set_antenna_rf_mode 0 0 p) ->
  steps (D:=D) P (modify_params f).
Proof.
  intros Hf w. split; simpl.
  - split; simpl; [done | by rewrite Hf].
  - exists []. by rewrite app_nil_r.
Qed.

Lemma steps_put_stored_analog_rx_fields P v :
  steps (D:=D) P (put_stored_analog_rx_fields v).
Proof.
  intros w. split; simpl.
  - by split.
  - exists []. by rewrite app_nil_r.
Qed.

(** One structural step of a [steps] proof. *)
Ltac steps_step :=
  first
    [ apply steps_ret
    | apply steps_query
    | apply steps_get_reader
    | apply steps_get_state
    | apply steps_get_params
    | apply steps_put_stored_analog_rx_fields
    | apply steps_modify_state; intros []; reflexivity
    | apply steps_modify_params; intros []; reflexivity
    | apply steps_op; simpl; solve [auto]
    | apply steps_call; simpl; solve [auto]
    | apply steps_bind; [| intros ?]
    | match goal with
      | |- steps _ (if ?b then _ else _) => destruct b
      | |- steps _ (match ?x with _ => _ end) => destruct x
      end ].

Lemma build_cw_configs_steps antenna rf_mode tx_power_cdbm frequency_khz remain_on :
  steps is_ramp_call
    (build_cw_configs antenna rf_mode tx_power_cdbm frequency_khz remain_on).
Proof.
  unfold build_cw_configs, is_ramp_call. repeat steps_step.
Qed.

Lemma reader_ramp_for_inventory_steps antenna rf_mode tx_power_cdbm remain_on droop :
  steps is_ramp_call
    (reader_ramp_for_inventory antenna rf_mode tx_power_cdbm remain_on droop).
Proof.
  unfold reader_ramp_for_inventory.
  repeat first [ apply build_cw_configs_steps
               | unfold is_ramp_call; steps_step ].
Qed.

Lemma is_ramp_call_start c c2 s call : is_ramp_call call -> is_start_call c c2 s call.
Proof. intros [Hrun Hq]. split; [done|]. intros Hr. by destruct Hrun. Qed.

Lemma run_inventory_rerun_steps a m p c c2 s ro droop :
  steps (is_start_call c c2 s) (run_inventory_rerun a m p c c2 s ro droop).
Proof.
  unfold run_inventory_rerun.
  repeat first
    [ eapply steps_weaken;
        [apply is_ramp_call_start | apply reader_ramp_for_inventory_steps]
    | apply steps_op; split; simpl; solve [auto]
    | steps_step ].
Qed.

Lemma start_inventory_steps a m p c c2 s ro :
  steps (is_start_call c c2 s) (start_inventory a m p c c2 s ro).
Proof.
  unfold start_inventory.
  repeat first
    [ apply run_inventory_rerun_steps
    | eapply steps_weaken;
        [apply is_ramp_call_start | apply reader_ramp_for_inventory_steps]
    | apply steps_op; split; simpl; solve [auto | intros []]
    | steps_step ].
Qed.

(** *** Counting round starts *)

Lemma count_run_inventory_app l1 l2 :
  count_run_inventory (l1 ++ l2)
  = (count_run_inventory l1 + count_run_inventory l2)%nat.
Proof. unfold count_run_inventory. by rewrite filter_app, length_app. Qed.

Lemma count_run_inventory_ramp delta :
  Forall is_ramp_call delta -> count_run_inventory delta = 0%nat.
Proof.
  unfold count_run_inventory.
  induction 1 as [| call delta [Hrun _] _ IH]; [done|].
  by rewrite filter_cons_False.
Qed.

(** *** start_inventory while an op is running *)

(** C10.  When the protocol reports that an op is running, [start_inventory]
    (and so the public [inventory]) returns success and changes nothing: no
    call is made and the reader's state is untouched; [continuous_inventory]
    then returns success and leaves the session [InvOngoing] although no
    round was started. *)
Theorem start_inventory_op_running (w : World D) (a m p : Z)
    (c : InventoryRoundControlFields) (c2 : InventoryRoundControl_2Fields)
    (s ro dt : bool) (sc : StopConditions) :
  is_op_currently_running (device w) = true ->
  start_inventory a m p c c2 s ro w = (make_ex10_success, w) /\
  inventory a m p c c2 s ro w = (make_ex10_success, w) /\
  let after := continuous_inventory a m p (Some c) (Some c2) s (Some sc) dt ro w in
  fst after = make_ex10_success /\
  error (fst after) = false /\
  state (inventory_state (reader (snd after))) = InvOngoing /\
  calls (snd after) = calls w /\
  device (snd after) = device w.
Proof.
  intros Hrunning.
  assert (Hstart : forall w' : World D, device w' = device w ->
            start_inventory a m p c c2 s ro w' = (make_ex10_success, w')).
  { intros w' Hdev. unfold start_inventory, bind, query, ret.
    by rewrite Hdev, Hrunning. }
  split; [by apply Hstart|]. split; [by apply Hstart|].
  unfold continuous_inventory, bind, modify_state, modify_params, query, ret.
  simpl. rewrite Hstart by done. by simpl.
Qed.

(** *** The race between the carrier check and the select *)

Lemma op_calls (c : Call) (w : World D) :
  calls (snd (op c w)) = calls w ++ [c] /\
  reader (snd (op c w)) = reader w.
Proof.
  unfold op, bind, call, ret. by destruct (perform c (device w)).
Qed.

Lemma ramp_calls a m p ro droop (w : World D) :
  exists delta,
    calls (snd (reader_ramp_for_inventory a m p ro droop w)) = calls w ++ delta /\
    count_run_inventory delta = 0%nat.
Proof.
  destruct (reader_ramp_for_inventory_steps a m p ro droop w)
    as [_ (delta & Hcalls & Hall)].
  exists delta. split; [done|]. by apply count_run_inventory_ramp.
Qed.

(** The calls of [run_inventory_rerun]: one round start, and after the race
    the calls of the ramp and, when the ramp succeeds, one more round
    start. *)
Lemma run_inventory_rerun_calls a m p c c2 s ro droop (w : World D) :
  let first := op (run_inventory c c2 s) w in
  let ramp := reader_ramp_for_inventory a m p ro droop (snd first) in
  exists delta,
    calls (snd (run_inventory_rerun a m p c c2 s ro droop w))
      = calls w ++ run_inventory c c2 s :: delta /\
    count_run_inventory delta =
      (if select_sent_while_tx_down (fst first)
       then if error (fst ramp) then 0 else 1
       else 0)%nat.
Proof.
  intros first ramp.
  destruct (op_calls (run_inventory c c2 s) w) as [Hfirst _].
  fold first in Hfirst.
  destruct (ramp_calls a m p ro droop (snd first)) as (d & Hramp & Hcount).
  fold ramp in Hramp.
  destruct (op_calls (run_inventory c c2 s) (snd ramp)) as [Hsecond _].
  unfold run_inventory_rerun, bind. fold first.
  destruct first as [r1 w1] eqn:Efirst. simpl in *.
  destruct (select_sent_while_tx_down r1).
  - fold ramp. destruct ramp as [rr w2] eqn:Eramp. simpl in *.
    destruct (error rr).
    + exists d. split; [|done]. simpl.
      by rewrite Hramp, Hfirst, <- app_assoc.
    + exists (d ++ [run_inventory c c2 s]). split.
      * rewrite Hsecond, Hramp, Hfirst. by rewrite <- !app_assoc.
      * rewrite count_run_inventory_app, Hcount. reflexivity.
  - exists []. split; [|done]. simpl. by rewrite Hfirst.
Qed.

(** The calls of the ramp: the channel time tracking comes first, and a
    ramp that returns no error has stored the ramp variables, switched the
    carrier on, waited for the op and read the receiver gains, after the
    temperature measurement that a carrier found off asks for. *)
Lemma reader_ramp_for_inventory_calls a m p ro droop (w : World D) :
  let ramp := reader_ramp_for_inventory a m p ro droop w in
  exists rest,
    calls (snd ramp) = calls w ++ update_channel_time_tracking :: rest /\
    (error (fst ramp) = false ->
     exists pre cw_config khz,
       rest = pre ++ [store_pre_ramp_variables a;
                      store_post_ramp_variables p khz;
                      cw_on cw_config droop; wait_op_completion;
                      read_rx_gain_control] /\
       (pre = [] \/
        exists t, pre = [measure_and_read_adc_temperature;
                         store_adc_temperature t])).
Proof.
  cbv zeta.
  unfold reader_ramp_for_inventory, build_cw_configs, bind, op, bind, call,
    query, ret, put_stored_analog_rx_fields. simpl.
  repeat (match goal with
          | |- context [perform ?c ?d] =>
              lazymatch d with
              | context [perform] => fail
              | _ => destruct (perform c d) as [? ?] eqn:?
              end
          | |- context [if ?b then _ else _] => destruct b eqn:?
          end; simpl);
    try done;
    (eexists; split; [rewrite <- ?app_assoc; simpl; reflexivity|]);
    intros Hok; try congruence.
  all: first
    [ exists []; do 2 eexists; split; [reflexivity | by left]
    | eexists [_; _]; do 2 eexists; split; [reflexivity | right; eauto] ].
Qed.

(** [start_inventory], when no op is running: either it returns an error
    before any round start, or its result is that of [run_inventory_rerun]
    in the world reached by calls without a round start. *)
Lemma start_inventory_cases a m p c c2 s ro (w : World D) :
  is_op_currently_running (device w) = false ->
  let after := start_inventory a m p c c2 s ro w in
  (exists pre,
     calls (snd after) = calls w ++ pre /\
     count_run_inventory pre = 0%nat /\
     error (fst after) = true) \/
  (exists pre w1 droop,
     calls w1 = calls w ++ pre /\
     count_run_inventory pre = 0%nat /\
     after = run_inventory_rerun a m p c c2 s ro droop w1).
Proof.
  intros Hrun. cbv zeta.
  unfold start_inventory, bind, query, ret, modify_state, modify_params.
  rewrite Hrun. simpl.
  match goal with
  | |- context [op (set_rf_mode m) ?w0] =>
      destruct (op_calls (set_rf_mode m) w0) as [Hset _];
      destruct (op (set_rf_mode m) w0) as [r0 w0'] eqn:Eset
  end.
  simpl in Hset.
  destruct (error r0) eqn:Herror.
  { left. exists [set_rf_mode m]. by repeat split. }
  destruct (get_cw_is_on (device w0')); simpl.
  { right. exists [set_rf_mode m], w0'. eexists. by repeat split. }
  match goal with
  | |- context [reader_ramp_for_inventory a m p ro ?d0 w0'] =>
      destruct (ramp_calls a m p ro d0 w0') as (dr & Hr & Hcr);
      destruct (reader_ramp_for_inventory a m p ro d0 w0') as [rr w2] eqn:Er
  end.
  simpl in Hr.
  assert (Hcount : count_run_inventory (set_rf_mode m :: dr) = 0%nat).
  { change (set_rf_mode m :: dr) with ([set_rf_mode m] ++ dr).
    by rewrite count_run_inventory_app, Hcr. }
  destruct (error rr) eqn:Hramp.
  - left. exists (set_rf_mode m :: dr). split; [| by split].
    simpl. by rewrite Hr, Hset, <- app_assoc.
  - right. exists (set_rf_mode m :: dr), w2. eexists.
    split; [| by split]. by rewrite Hr, Hset, <- app_assoc.
Qed.

(** C7.  When the first [run_inventory] of [start_inventory] fails with
    [ErrorInvalidTxState] on [SendSelectOp], the carrier is ramped again:
    the channel time tracking is updated and, unless the ramp returns an
    error, the ramp variables are stored, [cw_on] is called, the op is
    waited for and the receiver gains are read, without a round start.  If
    the ramp succeeds [run_inventory] is called a second time with the same
    arguments; what is returned is the error of the ramp or else the result
    of the second [run_inventory], whatever it is, and never the first
    error.  The calls made hold exactly one round start when the ramp fails
    and exactly two otherwise.  [start_inventory] itself, when no op is
    running, either returns an error before any round start or ends with
    exactly this: its result and its world are those of
    [run_inventory_rerun]; as a whole it never makes more than two round
    starts. *)
Theorem run_inventory_rerun_exactly_once (a m p : Z)
    (c : InventoryRoundControlFields) (c2 : InventoryRoundControl_2Fields)
    (s ro : bool) (droop : Z) (w : World D) :
  let first := op (run_inventory c c2 s) w in
  let ramp := reader_ramp_for_inventory a m p ro droop (snd first) in
  let second := op (run_inventory c c2 s) (snd ramp) in
  let final := run_inventory_rerun a m p c c2 s ro droop w in
  select_sent_while_tx_down (fst first) = true ->
  step is_ramp_call (snd first) (snd ramp) /\
  (exists rest,
     calls (snd ramp)
       = calls (snd first) ++ update_channel_time_tracking :: rest /\
     count_run_inventory rest = 0%nat /\
     (error (fst ramp) = false ->
      exists pre cw_config khz,
        rest = pre ++ [store_pre_ramp_variables a;
                       store_post_ramp_variables p khz;
                       cw_on cw_config droop; wait_op_completion;
                       read_rx_gain_control] /\
        (pre = [] \/
         exists t, pre = [measure_and_read_adc_temperature;
                          store_adc_temperature t]))) /\
  final = (if error (fst ramp) then ramp else second) /\
  (exists delta,
     calls (snd final) = calls w ++ run_inventory c c2 s :: delta /\
     count_run_inventory (run_inventory c c2 s :: delta)
       = (if error (fst ramp) then 1 else 2)%nat) /\
  (forall w' : World D,
     is_op_currently_running (device w') = false ->
     let after := start_inventory a m p c c2 s ro w' in
     (exists pre,
        calls (snd after) = calls w' ++ pre /\
        count_run_inventory pre = 0%nat /\
        error (fst after) = true) \/
     (exists pre w1 droop',
        calls w1 = calls w' ++ pre /\
        count_run_inventory pre = 0%nat /\
        after = run_inventory_rerun a m p c c2 s ro droop' w1)) /\
  (forall w' : World D, exists delta,
     calls (snd (start_inventory a m p c c2 s ro w')) = calls w' ++ delta /\
     (count_run_inventory delta <= 2)%nat).
Proof.
  intros first ramp second final Hrace.
  split; [apply reader_ramp_for_inventory_steps|].
  split.
  { destruct (reader_ramp_for_inventory_calls a m p ro droop (snd first))
      as (rest & Hcalls & Hdone).
    destruct (ramp_calls a m p ro droop (snd first)) as (d & Hd & Hcount).
    fold ramp in Hcalls, Hdone, Hd.
    exists rest. split; [done|]. split; [| done].
    rewrite Hcalls in Hd. apply app_inv_head in Hd. by subst d. }
  split; [|split; [|split; [by intros w' Hrun; apply start_inventory_cases|]]].
  - unfold final, run_inventory_rerun, bind. fold first.
    destruct first as [r1 w1] eqn:Efirst. simpl in Hrace. rewrite Hrace.
    simpl in ramp. fold ramp.
    destruct ramp as [rr w2] eqn:Eramp. simpl in *.
    by destruct (error rr).
  - destruct (run_inventory_rerun_calls a m p c c2 s ro droop w)
      as (delta & Hcalls & Hcount).
    fold first ramp in Hcount. rewrite Hrace in Hcount.
    exists delta. split; [done|].
    change (run_inventory c c2 s :: delta)
      with ([run_inventory c c2 s] ++ delta).
    rewrite count_run_inventory_app, Hcount.
    by destruct (error (fst ramp)).
  - intros w'.
    assert (Hrerun : forall (d0 : Z) (w0 : World D) (pre : list Call),
              calls w0 = calls w' ++ pre -> count_run_inventory pre = 0%nat ->
              exists delta,
                calls (snd (run_inventory_rerun a m p c c2 s ro d0 w0))
                  = calls w' ++ delta /\
                (count_run_inventory delta <= 2)%nat).
    { intros d0 w0 pre Hpre Hcount.
      destruct (run_inventory_rerun_calls a m p c c2 s ro d0 w0)
        as (delta & Hcalls & Hdelta).
      exists (pre ++ run_inventory c c2 s :: delta). split.
      - by rewrite Hcalls, Hpre, <- app_assoc.
      - change (run_inventory c c2 s :: delta)
          with ([run_inventory c c2 s] ++ delta).
        rewrite !count_run_inventory_app, Hcount, Hdelta.
        change (count_run_inventory [run_inventory c c2 s]) with 1%nat.
        repeat case_match; lia. }
    unfold start_inventory, bind, query, ret, modify_state, modify_params.
    destruct (is_op_currently_running (device w')); simpl.
    { exists []. rewrite app_nil_r. split; [done | compute; lia]. }
    match goal with
    | |- context [op (set_rf_mode m) ?w0] =>
        destruct (op_calls (set_rf_mode m) w0) as [Hset _];
        destruct (op (set_rf_mode m) w0) as [r0 w0'] eqn:Eset
    end.
    simpl in Hset.
    destruct (error r0).
    { exists [set_rf_mode m]. split; [done | compute; lia]. }
    destruct (get_cw_is_on (device w0')); simpl.
    + by apply (Hrerun _ _ [set_rf_mode m]).
    + match goal with
      | |- context [reader_ramp_for_inventory a m p ro ?d0 w0'] =>
          destruct (ramp_calls a m p ro d0 w0') as (dr & Hr & Hcr);
          destruct (reader_ramp_for_inventory a m p ro d0 w0') as [rr w2] eqn:Er
      end.
      simpl in Hr.
      destruct (error rr).
      * exists (set_rf_mode m :: dr). split.
        { simpl. by rewrite Hr, Hset, <- app_assoc. }
        change (set_rf_mode m :: dr) with ([set_rf_mode m] ++ dr).
        rewrite count_run_inventory_app, Hcr. simpl.
        change (count_run_inventory [set_rf_mode m]) with 0%nat. lia.
      * apply (Hrerun _ _ (set_rf_mode m :: dr)).
        { by rewrite Hr, Hset, <- app_assoc. }
        change (set_rf_mode m :: dr) with ([set_rf_mode m] ++ dr).
        by rewrite count_run_inventory_app, Hcr.
Qed.

(** *** The packet handler, step by step *)

Lemma continue_continuous_inventory_steps :
  steps (fun call => ~ is_queue_or_event call) continue_continuous_inventory.
Proof.
  unfold continue_continuous_inventory.
  repeat first
    [ eapply steps_weaken; [| apply start_inventory_steps]; by intros ? [? _]
    | steps_step ].
Qed.

Lemma session_kept_fields r r' :
  session_kept r r' ->
  state (inventory_state r') = state (inventory_state r) /\
  stop_reason (inventory_state r') = stop_reason (inventory_state r) /\
  round_count (inventory_state r') = round_count (inventory_state r) /\
  tag_count (inventory_state r') = tag_count (inventory_state r) /\
  stop_conditions (inventory_params r') = stop_conditions (inventory_params r) /\
  start_time_us (inventory_params r') = start_time_us (inventory_params r).
Proof.
  intros [Hst Hp].
  pose proof (f_equal state Hst). pose proof (f_equal stop_reason Hst).
  pose proof (f_equal round_count Hst). pose proof (f_equal tag_count Hst).
  pose proof (f_equal stop_conditions Hp). pose proof (f_equal start_time_us Hp).
  simpl in *. by repeat split.
Qed.

Lemma push_summary_spec packet r (w : World D) :
  let w' := snd (push_continuous_inventory_summary_packet packet r w) in
  reader w' = reader w /\
  calls w' = calls w
             ++ [insert_fifo_event true (make_summary_packet (reader w) packet r)].
Proof.
  unfold push_continuous_inventory_summary_packet, bind, get_reader, call, ret.
  simpl. by destruct (perform _ (device w)).
Qed.

Lemma handle_continuous_inventory_error_spec r packet (w : World D) :
  let w' := snd (handle_continuous_inventory_error r packet w) in
  reader w' = ended_by_error r (reader w) /\
  calls w' =
    calls w
    ++ (if fst (free_list_get (device w))
        then [list_node_push_back (result_node (result_packet r (us_counter packet)))]
        else [])
    ++ [insert_fifo_event true
          (make_summary_packet (ended_by_error r (reader w)) packet r)].
Proof.
  unfold handle_continuous_inventory_error, make_ex10_result_fifo_packet,
    push_continuous_inventory_summary_packet, bind, get_reader, call, ret,
    modify_state.
  destruct (free_list_get (device w)) as [[|] d1]; simpl;
    repeat match goal with
           | |- context [perform ?c ?d] => destruct (perform c d)
           end; simpl; split; try done.
  by rewrite <- app_assoc.
Qed.

Lemma check_stop_conditions_spec ts (w : World D) :
  check_stop_conditions ts w =
    if decide (stop_reason (inventory_state (reader w)) <> SRNone) then (true, w)
    else match first_stop_condition (reader w) ts with
         | Some sr =>
             (true, mkWorld (map_inventory_state (set_stop_reason sr) (reader w))
                      (device w) (calls w))
         | None => (false, w)
         end.
Proof.
  unfold check_stop_conditions, first_stop_condition, bind, get_reader, ret,
    modify_state. simpl.
  repeat case_match; done.
Qed.

Lemma record_round_summary_spec packet summary (w : World D) :
  static_data packet = inventory_round_summary summary ->
  let res := record_round_summary packet w in
  let st := inventory_state (reader w) in
  let st' := inventory_state (reader (snd res)) in
  device (snd res) = device w /\
  calls (snd res) = calls w /\
  inventory_params (reader (snd res)) = inventory_params (reader w) /\
  fst res = match reason_error (irs_reason summary) with
            | Some code => make_ex10_sdk_error Ex10ModuleReader code
            | None => make_ex10_success
            end /\
  round_count st' = (if completes_round (irs_reason summary)
                     then wrap32 (round_count st + 1) else round_count st) /\
  previous_q st' = (if decide (irs_reason summary = InventorySummaryRegulatory)
                    then irs_final_q summary else previous_q st) /\
  done_reason st' = irs_reason summary /\
  min_q_count st' = irs_min_q_count summary /\
  queries_since_valid_epc_count st' = irs_queries_since_valid_epc_count summary /\
  state st' = state st /\
  stop_reason st' = stop_reason st /\
  tag_count st' = tag_count st /\
  inv_target st' = inv_target st /\
  initial_inventory_config st' = initial_inventory_config st.
Proof.
  intros Hdata.
  unfold record_round_summary, classify_reason, bind, modify_state, get_state, ret.
  rewrite Hdata. simpl.
  destruct (irs_reason summary); simpl; repeat split.
Qed.

(** Ending or continuing the session leaves the two counters alone. *)
Lemma stop_or_continue_counts packet r (w : World D) :
  let w' := snd (stop_or_continue packet r w) in
  round_count (inventory_state (reader w')) = round_count (inventory_state (reader w)) /\
  tag_count (inventory_state (reader w')) = tag_count (inventory_state (reader w)).
Proof.
  unfold stop_or_continue.
  destruct (error r).
  { destruct (handle_continuous_inventory_error_spec r packet w) as [-> _]. done. }
  unfold bind. rewrite check_stop_conditions_spec.
  destruct (decide _).
  { simpl. match goal with
    | |- context [push_continuous_inventory_summary_packet packet r ?w0] =>
        destruct (push_summary_spec packet r w0) as [-> _]
    end. done. }
  destruct (first_stop_condition _ _).
  { simpl. match goal with
    | |- context [push_continuous_inventory_summary_packet packet r ?w0] =>
        destruct (push_summary_spec packet r w0) as [-> _]
    end. done. }
  destruct (continue_continuous_inventory_steps w) as [Hkept _].
  apply session_kept_fields in Hkept.
  destruct Hkept as (_ & _ & Hrounds & Htags & _).
  destruct (continue_continuous_inventory w) as [r' w2]. simpl in *.
  destruct (error r').
  - destruct (handle_continuous_inventory_error_spec r' packet w2) as [-> _].
    simpl. by rewrite Hrounds, Htags.
  - simpl. by rewrite Hrounds, Htags.
Qed.

Lemma handle_packet_round_summary packet (w : World D) :
  state (inventory_state (reader w)) <> InvIdle ->
  packet_type packet = InventoryRoundSummary ->
  handle_packet packet w
  = stop_or_continue packet (fst (record_round_summary packet w))
      (snd (record_round_summary packet w)).
Proof.
  intros Hstate Htype.
  unfold handle_packet, handle_inventory_round_summary, bind, get_state.
  rewrite decide_True by done. rewrite Htype. simpl.
  by destruct (record_round_summary packet w).
Qed.

(** C6.  While a session is not idle, handling an [InventoryRoundSummary]
    packet adds one to [round_count] when the reason is
    [InventorySummaryDone] or [InventorySummaryHost] and leaves it unchanged
    for every other reason, [InventorySummaryRegulatory],
    [InventorySummaryUnsupported] and [InventorySummaryTxNotRampedUp]
    included: it changes if and only if the reason is one of the two. *)
Theorem round_count_incremented_iff_done_or_host packet summary (w : World D) :
  state (inventory_state (reader w)) <> InvIdle ->
  packet_type packet = InventoryRoundSummary ->
  static_data packet = inventory_round_summary summary ->
  is_uint32 (round_count (inventory_state (reader w))) ->
  let before := round_count (inventory_state (reader w)) in
  let after := round_count (inventory_state (reader (snd (handle_packet packet w)))) in
  after = (if completes_round (irs_reason summary)
           then wrap32 (before + 1) else before) /\
  (after <> before <->
   irs_reason summary = InventorySummaryDone \/
   irs_reason summary = InventorySummaryHost) /\
  (irs_reason summary = InventorySummaryRegulatory \/
   irs_reason summary = InventorySummaryUnsupported \/
   irs_reason summary = InventorySummaryTxNotRampedUp -> after = before).
Proof.
  intros Hstate Htype Hdata Hrange before after.
  assert (Hafter : after = (if completes_round (irs_reason summary)
                            then wrap32 (before + 1) else before)).
  { unfold after. rewrite handle_packet_round_summary by done.
    destruct (stop_or_continue_counts packet
                (fst (record_round_summary packet w))
                (snd (record_round_summary packet w))) as [-> _].
    by destruct (record_round_summary_spec packet summary w Hdata)
      as (_ & _ & _ & _ & -> & _). }
  split; [done|]. rewrite Hafter. split; [split|].
  - destruct (irs_reason summary); simpl; intros Hne; auto; by destruct Hne.
  - intros [-> | ->]; simpl; by apply wrap32_succ_neq.
  - by intros [-> | [-> | ->]].
Qed.

(** *** The stop reason of a session *)

Lemma handle_packet_idle packet (w : World D) :
  state (inventory_state (reader w)) = InvIdle ->
  handle_packet packet w = (tt, w).
Proof.
  intros Hidle. unfold handle_packet, bind, get_state. simpl.
  by rewrite decide_False by (by rewrite Hidle; intros []).
Qed.

Lemma fifo_data_loop_idle packets (w : World D) :
  state (inventory_state (reader w)) = InvIdle ->
  fifo_data_loop packets w = (tt, w).
Proof.
  intros Hidle. induction packets as [| packet rest IH]; simpl; [done|].
  destruct (negb _); [done|].
  unfold bind. by rewrite handle_packet_idle.
Qed.

Lemma stop_or_continue_invariant packet r (w : World D) :
  session_invariant (reader w) ->
  session_invariant (reader (snd (stop_or_continue packet r w))).
Proof.
  intros Hinv. unfold stop_or_continue.
  destruct (error r).
  { destruct (handle_continuous_inventory_error_spec r packet w) as [-> _].
    by intros []. }
  unfold bind. rewrite check_stop_conditions_spec.
  destruct (decide _) as [Hset | Hnone].
  { simpl. match goal with
    | |- context [push_continuous_inventory_summary_packet packet r ?w0] =>
        destruct (push_summary_spec packet r w0) as [-> _]
    end. by intros []. }
  destruct (first_stop_condition _ _).
  { simpl. match goal with
    | |- context [push_continuous_inventory_summary_packet packet r ?w0] =>
        destruct (push_summary_spec packet r w0) as [-> _]
    end. by intros []. }
  destruct (continue_continuous_inventory_steps w) as [Hkept _].
  apply session_kept_fields in Hkept.
  destruct Hkept as (Hstate & Hstop & _).
  destruct (continue_continuous_inventory w) as [r' w2]. simpl in *.
  destruct (error r').
  - destruct (handle_continuous_inventory_error_spec r' packet w2) as [-> _].
    by intros [].
  - simpl. intros _. rewrite Hstop.
    by destruct (decide (stop_reason (inventory_state (reader w)) = SRNone)).
Qed.

Lemma handle_packet_invariant packet (w : World D) :
  session_invariant (reader w) ->
  session_invariant (reader (snd (handle_packet packet w))).
Proof.
  intros Hinv.
  destruct (decide (state (inventory_state (reader w)) = InvIdle)) as [Hidle | Hbusy].
  { by rewrite handle_packet_idle. }
  destruct (decide (packet_type packet = InventoryRoundSummary)) as [Htype | Hother].
  - rewrite handle_packet_round_summary by done.
    apply stop_or_continue_invariant.
    unfold record_round_summary, classify_reason, bind, modify_state, get_state, ret.
    unfold session_invariant in *.
    destruct (irs_reason _); simpl; exact Hinv.
  - unfold handle_packet, bind, get_state. simpl.
    rewrite decide_True by done.
    destruct (decide (packet_type packet = TagRead)); simpl; [exact Hinv|].
    by rewrite decide_False by done.
Qed.

Lemma fifo_data_loop_invariant packets : forall w : World D,
  session_invariant (reader w) ->
  session_invariant (reader (snd (fifo_data_loop packets w))).
Proof.
  induction packets as [| packet rest IH]; intros w Hinv; simpl; [done|].
  destruct (negb _); [done|].
  unfold bind.
  pose proof (handle_packet_invariant packet w Hinv) as Hstep.
  destruct (handle_packet packet w) as [[] w1]. by apply IH.
Qed.

Lemma call_reader c (w : World D) : reader (snd (call c w)) = reader w.
Proof. unfold call. by destruct (perform c (device w)). Qed.

Lemma fifo_data_handler_reader packets (w : World D) :
  reader (snd (fifo_data_handler packets w))
  = reader (snd (fifo_data_loop packets w)).
Proof.
  unfold fifo_data_handler, bind, ret.
  destruct (fifo_data_loop packets w) as [[] w1]. simpl.
  pose proof (call_reader (list_node_push_back (fifo_data packets)) w1) as Hc.
  by destruct (call _ w1).
Qed.

Lemma stop_transmitting_reader (w : World D) :
  reader (snd (stop_transmitting w))
  = if decide (state (inventory_state (reader w)) <> InvIdle)
    then map_inventory_state (set_state InvStopRequested) (reader w)
    else reader w.
Proof.
  unfold stop_transmitting, bind, get_state, modify_state, ret. simpl.
  destruct (decide _); simpl;
    match goal with
    | |- context [op stop_op_and_ramp_down ?w0] =>
        by destruct (op_calls stop_op_and_ramp_down w0) as [_ ->]
    end.
Qed.

Lemma start_inventory_kept a m p c c2 s ro (w : World D) :
  session_kept (reader w) (reader (snd (start_inventory a m p c c2 s ro w))).
Proof. by destruct (start_inventory_steps a m p c c2 s ro w). Qed.

Lemma run_api_invariant c (w : World D) :
  session_invariant (reader w) -> session_invariant (reader (run_api c w)).
Proof.
  intros Hinv.
  destruct c as [| a m p c1 c2 s sc dt ro | a m p c1 c2 s ro | packets |]; simpl.
  - unfold init, bind, modify_state. destruct (call _ w). simpl. by intros [].
  - unfold continuous_inventory.
    destruct sc, c1, c2; try exact Hinv.
    unfold bind, modify_state, modify_params, query, ret. simpl.
    match goal with
    | |- context [start_inventory ?a' ?m' ?p' ?c1' ?c2' ?s' ?ro' ?w0] =>
        pose proof (session_kept_fields _ _
                      (start_inventory_kept a' m' p' c1' c2' s' ro' w0))
          as (Hstate & Hstop & _);
        destruct (start_inventory a' m' p' c1' c2' s' ro' w0) as [r w1]
    end.
    simpl in *. destruct (error r); simpl.
    + by intros [].
    + by intros _.
  - unfold inventory.
    pose proof (session_kept_fields _ _ (start_inventory_kept a m p c1 c2 s ro w))
      as (Hstate & Hstop & _).
    unfold session_invariant in *. by rewrite Hstate, Hstop.
  - rewrite fifo_data_handler_reader. by apply fifo_data_loop_invariant.
  - rewrite stop_transmitting_reader.
    destruct (decide _) as [Hbusy |]; [|done].
    intros _. simpl. by apply Hinv.
Qed.

Lemma run_apis_invariant cs : forall w : World D,
  session_invariant (reader w) -> session_invariant (reader (run_apis cs w)).
Proof.
  induction cs as [| c cs IH]; intros w Hinv; simpl; [done|].
  apply IH. by apply run_api_invariant.
Qed.

Lemma run_api_stop_reason_fixed c (w : World D) :
  within_session c = true ->
  session_invariant (reader w) ->
  stop_reason (inventory_state (reader w)) <> SRNone ->
  stop_reason (inventory_state (reader (run_api c w)))
  = stop_reason (inventory_state (reader w)).
Proof.
  intros Hin Hinv Hset.
  assert (Hidle : state (inventory_state (reader w)) = InvIdle).
  { destruct (decide (state (inventory_state (reader w)) = InvIdle)); [done|].
    by destruct Hset; apply Hinv. }
  destruct c as [| a m p c1 c2 s sc dt ro | a m p c1 c2 s ro | packets |];
    simpl in *; try discriminate.
  - unfold inventory.
    by pose proof (session_kept_fields _ _ (start_inventory_kept a m p c1 c2 s ro w))
      as (_ & -> & _).
  - by rewrite fifo_data_handler_reader, fifo_data_loop_idle.
  - rewrite stop_transmitting_reader.
    by rewrite decide_False by (by rewrite Hidle; intros []).
Qed.

Lemma run_apis_stop_reason_fixed cs : forall w : World D,
  forallb within_session cs = true ->
  session_invariant (reader w) ->
  stop_reason (inventory_state (reader w)) <> SRNone ->
  stop_reason (inventory_state (reader (run_apis cs w)))
  = stop_reason (inventory_state (reader w)).
Proof.
  induction cs as [| c cs IH]; intros w Hin Hinv Hset; simpl; [done|].
  simpl in Hin. apply andb_true_iff in Hin as [Hc Hcs].
  pose proof (run_api_stop_reason_fixed c w Hc Hinv Hset) as Hfix.
  rewrite IH; [done | done | by apply run_api_invariant | by rewrite Hfix].
Qed.

(** C5.  From the reader's initial state and whatever calls came before,
    once the stop reason is not [SRNone] it stays the same through every
    later call of the session (packet handling, [stop_transmitting],
    [inventory]).  [check_stop_conditions] returns at once, without writing,
    when a reason is already set; otherwise it records the first condition
    that holds in the order rounds, tags, duration, host stop request, so
    that of several conditions true together the first one wins. *)
Theorem stop_reason_first_set_wins (d : D) (before after : list ApiCall) :
  let w1 := run_apis before (mkWorld reader_initial d []) in
  let w2 := run_apis after w1 in
  forallb within_session after = true ->
  stop_reason (inventory_state (reader w1)) <> SRNone ->
  stop_reason (inventory_state (reader w2))
    = stop_reason (inventory_state (reader w1)) /\
  (forall (w : World D) (ts : Z),
     stop_reason (inventory_state (reader w)) <> SRNone ->
     check_stop_conditions ts w = (true, w)) /\
  (forall (w : World D) (ts : Z),
     stop_reason (inventory_state (reader w)) = SRNone ->
     let after_check := check_stop_conditions ts w in
     let recorded := stop_reason (inventory_state (reader (snd after_check))) in
     (rounds_reached (reader w) = true ->
        after_check = (true, snd after_check) /\ recorded = SRMaxNumberOfRounds) /\
     (rounds_reached (reader w) = false -> tags_reached (reader w) = true ->
        after_check = (true, snd after_check) /\ recorded = SRMaxNumberOfTags) /\
     (rounds_reached (reader w) = false -> tags_reached (reader w) = false ->
      duration_reached (reader w) ts = true ->
        after_check = (true, snd after_check) /\ recorded = SRMaxDuration) /\
     (rounds_reached (reader w) = false -> tags_reached (reader w) = false ->
      duration_reached (reader w) ts = false -> stop_requested (reader w) = true ->
        after_check = (true, snd after_check) /\ recorded = SRHost) /\
     (rounds_reached (reader w) = false -> tags_reached (reader w) = false ->
      duration_reached (reader w) ts = false -> stop_requested (reader w) = false ->
        after_check = (false, w))).
Proof.
  intros w1 w2 Hafter Hset. split; [|split].
  - apply run_apis_stop_reason_fixed; [done | | done].
    apply run_apis_invariant. by intros [].
  - intros w ts Hw. rewrite check_stop_conditions_spec.
    by rewrite decide_True by done.
  - intros w ts Hw after_check recorded. unfold recorded, after_check.
    rewrite check_stop_conditions_spec.
    rewrite decide_False by (by rewrite Hw; intros []).
    unfold first_stop_condition.
    repeat split; intros; repeat (match goal with
                                  | Hb : _ = _ :> bool |- _ => rewrite Hb; clear Hb
                                  end); done.
Qed.

(** *** Errors while a session is running *)

Lemma make_summary_error_reason r packet (rd : Ex10ReaderPrivate) :
  error r = true ->
  reason (make_summary (ended_by_error r rd) packet r) = error_stop_reason r.
Proof.
  intros Herr. unfold make_summary, summary_with_error, error_stop_reason.
  rewrite Herr. simpl.
  destruct (decide _); destruct (result_code r) as [[] | []]; reflexivity.
Qed.

Lemma make_summary_fields r packet (rd : Ex10ReaderPrivate) :
  duration_us (make_summary rd packet r)
    = wrap32 (us_counter packet - start_time_us (inventory_params rd)) /\
  number_of_inventory_rounds (make_summary rd packet r)
    = round_count (inventory_state rd) /\
  number_of_tags (make_summary rd packet r) = tag_count (inventory_state rd).
Proof.
  unfold make_summary, summary_with_error.
  destruct (error r); [|done].
  destruct (decide _); destruct (result_code r) as [[] | []]; done.
Qed.

(** C4, as the code has it.  When the handling of an [InventoryRoundSummary]
    packet of a running session raises an error [r] (the reasons
    [InventorySummaryEventFifoFull], [InventorySummaryInvalidParam],
    [InventorySummaryLmacOverload], [InventorySummaryNone] and any unknown
    reason raise an SDK error of the reader module, and so does a failure to
    start the next round), the handler ends the session: the state becomes
    [InvIdle], the stop reason becomes that of the error, and the calls made
    from then on are the push of a result packet that carries [r] under the
    timestamp of the summary, provided a FIFO buffer node was free, followed
    by the insertion of a [ContinuousInventorySummary] packet whose reason
    reflects the error (with the op id and op error for op errors and op
    timeouts).  Without a free node only the summary is published. *)
Theorem session_error_published packet (w we : World D) (r : Ex10Result) :
  state (inventory_state (reader w)) <> InvIdle ->
  packet_type packet = InventoryRoundSummary ->
  round_summary_error packet w = Some (r, we) ->
  let w' := snd (handle_packet packet w) in
  error r = true /\
  state (inventory_state (reader w')) = InvIdle /\
  stop_reason (inventory_state (reader w'))
    = ex10_result_to_continuous_inventory_error r /\
  (exists summary,
     calls w' =
       calls we
       ++ (if fst (free_list_get (device we))
           then [list_node_push_back
                   (result_node (result_packet r (us_counter packet)))]
           else [])
       ++ [insert_fifo_event true
             {| packet_type := ContinuousInventorySummary;
                us_counter := us_counter packet;
                static_data := continuous_inventory_summary summary;
                dynamic_data := [];
                is_valid := true |}] /\
     reason summary = error_stop_reason r /\
     (module r = Ex10ModuleDevice ->
      result_code r = DeviceCode Ex10DeviceErrorOps \/
      result_code r = DeviceCode Ex10DeviceErrorOpsTimeout ->
      last_op_id summary = op_id (ops_status (device_status r)) /\
      last_op_error summary = ops_error (ops_status (device_status r)))) /\
  (forall summary code,
     static_data packet = inventory_round_summary summary ->
     reason_error (irs_reason summary) = Some code ->
     r = make_ex10_sdk_error Ex10ModuleReader code /\
     we = snd (record_round_summary packet w)).
Proof.
  intros Hstate Htype Hraised w'.
  assert (Hhandled : error r = true /\
            handle_packet packet w = handle_continuous_inventory_error r packet we).
  { rewrite handle_packet_round_summary by done.
    unfold round_summary_error in Hraised. unfold stop_or_continue, bind.
    destruct (record_round_summary packet w) as [r1 w1]. simpl.
    destruct (error r1) eqn:Herr1.
    { injection Hraised as <- <-. done. }
    destruct (check_stop_conditions (us_counter packet) w1) as [[|] w2];
      [discriminate|].
    destruct (continue_continuous_inventory w2) as [r3 w3].
    destruct (error r3) eqn:Herr3; [|discriminate].
    injection Hraised as <- <-. by rewrite Herr3. }
  destruct Hhandled as [Herr Hhandled].
  unfold w'. rewrite Hhandled.
  destruct (handle_continuous_inventory_error_spec r packet we) as [Hreader Hcalls].
  split; [done|]. rewrite Hreader. split; [done|]. split; [done|]. split.
  - exists (make_summary (ended_by_error r (reader we)) packet r).
    split; [exact Hcalls|]. split; [by apply make_summary_error_reason|].
    intros Hmod Hcode. unfold make_summary, summary_with_error.
    rewrite Herr, decide_True by done.
    by destruct Hcode as [-> | ->].
  - intros summary code Hdata Hcode.
    unfold round_summary_error in Hraised.
    destruct (record_round_summary_spec packet summary w Hdata)
      as (_ & _ & _ & Hres & _).
    rewrite Hcode in Hres.
    destruct (record_round_summary packet w) as [r1 w1]. simpl in *.
    subst r1. simpl in Hraised. by injection Hraised as <- <-.
Qed.

(** *** Stopping on the duration *)

Lemma elapsed_us_wrap (start_time timestamp_us : Z) :
  is_uint32 start_time -> is_uint32 timestamp_us ->
  elapsed_us start_time timestamp_us = wrap32 (timestamp_us - start_time).
Proof.
  unfold elapsed_us, is_uint32, wrap32, UINT32_MAX. intros Hs Ht.
  destruct (start_time >? timestamp_us) eqn:Hcmp; [|done].
  apply Z.gtb_lt in Hcmp.
  rewrite (Z.mod_small (4294967295 - start_time)) by lia.
  rewrite Zplus_mod_idemp_l.
  replace (4294967295 - start_time + timestamp_us + 1)
    with (timestamp_us - start_time + 1 * 2 ^ 32) by lia.
  by rewrite Z_mod_plus_full.
Qed.

(** C2, as the code has it.  When the handling of a round summary ends the
    session on the duration (no error, no reason recorded before, and the
    duration the first stop condition that holds), the state becomes
    [InvIdle], the stop reason [SRMaxDuration], and the one call made is the
    insertion of a [ContinuousInventorySummary] packet with that reason
    whose [duration_us] is the timestamp of the packet being handled minus
    the start time of the session, in [uint32_t] arithmetic: the time that
    had elapsed when the check ran, which is at least [max_duration_us]. *)
Theorem max_duration_summary packet (w : World D) :
  let recorded := record_round_summary packet w in
  let w1 := snd recorded in
  let w' := snd (handle_packet packet w) in
  let p := inventory_params (reader w) in
  state (inventory_state (reader w)) <> InvIdle ->
  packet_type packet = InventoryRoundSummary ->
  error (fst recorded) = false ->
  stop_reason (inventory_state (reader w)) = SRNone ->
  first_stop_condition (reader w1) (us_counter packet) = Some SRMaxDuration ->
  is_uint32 (start_time_us p) ->
  is_uint32 (us_counter packet) ->
  state (inventory_state (reader w')) = InvIdle /\
  stop_reason (inventory_state (reader w')) = SRMaxDuration /\
  exists summary,
    calls w' =
      calls w
      ++ [insert_fifo_event true
            {| packet_type := ContinuousInventorySummary;
               us_counter := us_counter packet;
               static_data := continuous_inventory_summary summary;
               dynamic_data := [];
               is_valid := true |}] /\
    reason summary = SRMaxDuration /\
    duration_us summary = wrap32 (us_counter packet - start_time_us p) /\
    0 < max_duration_us (stop_conditions p) <= duration_us summary.
Proof.
  intros recorded w1 w' p Hstate Htype Hok Hnone Hfirst Hstart Hts.
  assert (Hrec : calls w1 = calls w /\
                 inventory_params (reader w1) = p /\
                 stop_reason (inventory_state (reader w1)) = SRNone).
  { unfold w1, recorded, record_round_summary, classify_reason, bind,
      modify_state, get_state, ret.
    destruct (irs_reason _); simpl; by repeat split. }
  destruct Hrec as (Hcalls1 & Hparams1 & Hnone1).
  unfold w'. rewrite handle_packet_round_summary by done.
  fold recorded. fold w1. unfold stop_or_continue. rewrite Hok.
  unfold bind. rewrite check_stop_conditions_spec.
  rewrite decide_False by (by rewrite Hnone1; intros []).
  rewrite Hfirst. simpl.
  match goal with
  | |- context [push_continuous_inventory_summary_packet packet ?r0 ?w0] =>
      destruct (push_summary_spec packet r0 w0) as [Hreader Hcalls];
      set (w2 := w0) in *
  end.
  rewrite Hreader, Hcalls. simpl. split; [done|]. split; [done|].
  eexists. split; [by rewrite Hcalls1|].
  assert (Herr : error (fst recorded) = false) by done.
  unfold make_summary, summary_with_error. rewrite Herr. simpl.
  split; [done|]. rewrite Hparams1. split; [done|].
  unfold first_stop_condition in Hfirst.
  destruct (rounds_reached _); [discriminate|].
  destruct (tags_reached _); [discriminate|].
  destruct (duration_reached (reader w1) (us_counter packet)) eqn:Hdur;
    [| by destruct (stop_requested _)].
  unfold duration_reached in Hdur. rewrite Hparams1 in Hdur.
  apply andb_true_iff in Hdur as [Hpos Hreached].
  rewrite elapsed_us_wrap in Hreached by done.
  apply Z.gtb_lt in Hpos. apply Z.geb_le in Hreached. lia.
Qed.

(** *** The Q state of the next round *)

Lemma extends_refl P (w : World D) : extends P w w.
Proof. exists []. by rewrite app_nil_r. Qed.

Lemma extends_trans P (w1 w2 w3 : World D) :
  extends P w1 w2 -> extends P w2 w3 -> extends P w1 w3.
Proof.
  intros (d1 & Hc1 & Hf1) (d2 & Hc2 & Hf2).
  exists (d1 ++ d2). split.
  - by rewrite Hc2, Hc1, app_assoc.
  - by apply Forall_app.
Qed.


Lemma handle_continuous_inventory_error_extends r packet (w : World D) :
  extends is_queue_or_event w (snd (handle_continuous_inventory_error r packet w)).
Proof.
  destruct (handle_continuous_inventory_error_spec r packet w) as [_ Hcalls].
  eexists. split; [exact Hcalls|].
  apply Forall_app. split; [by destruct (fst _); repeat constructor|].
  by repeat constructor.
Qed.

Lemma push_summary_extends r packet (w : World D) :
  extends is_queue_or_event w
    (snd (push_continuous_inventory_summary_packet packet r w)).
Proof.
  destruct (push_summary_spec packet r w) as [_ Hcalls].
  eexists. split; [exact Hcalls|]. by repeat constructor.
Qed.






(** *** The parameters of continuous_inventory *)

(** C1, as the code has it.  [continuous_inventory] returns the null-pointer
    parameter error and changes nothing when [stop_conditions],
    [inventory_config] or [inventory_config_2] is [NULL].  With the three
    pointers set it does not look at the bounds: whatever they are, all zero
    included, the session state is reset (no stop reason, both counters
    zero, the configuration and the stop conditions saved) and the state is
    [InvOngoing] unless starting the first round fails, which leaves it
    [InvIdle].  It is the helper [continuous_inventory_lbt] that rejects
    stop conditions with all three bounds zero: it returns
    [InvHelperStopConditions] without any call and without calling the
    reader. *)
Theorem continuous_inventory_parameter_check (w : World D) (a m p : Z)
    (c1 : option InventoryRoundControlFields)
    (c2 : option InventoryRoundControl_2Fields)
    (s dt ro : bool) (sc : option StopConditions) :
  let after := continuous_inventory a m p c1 c2 s sc dt ro w in
  (sc = None \/ c1 = None \/ c2 = None ->
     after = (make_ex10_sdk_error Ex10ModuleReader Ex10SdkErrorNullPointer, w)) /\
  (forall cfg cfg2 stop,
     c1 = Some cfg -> c2 = Some cfg2 -> sc = Some stop ->
     let st := inventory_state (reader (snd after)) in
     let params := inventory_params (reader (snd after)) in
     state st = (if error (fst after) then InvIdle else InvOngoing) /\
     stop_reason st = SRNone /\
     round_count st = 0 /\
     tag_count st = 0 /\
     initial_inventory_config st = cfg /\
     stop_conditions params = stop /\
     start_time_us params = get_device_time (device w)) /\
  (forall cihp : ContInventoryHelperParams,
     max_number_of_rounds (cihp_stop_conditions cihp) = 0 ->
     max_number_of_tags (cihp_stop_conditions cihp) = 0 ->
     max_duration_us (cihp_stop_conditions cihp) = 0 ->
     continuous_inventory_lbt cihp w = (InvHelperStopConditions, w)).
Proof.
  intros after. subst after. split; [|split].
  - unfold continuous_inventory.
    intros [-> | [-> | ->]]; by repeat case_match.
  - intros cfg cfg2 stop -> -> ->. cbv zeta.
    unfold continuous_inventory, bind, modify_state, modify_params,
      query, ret. simpl.
    match goal with
    | |- context [start_inventory ?a' ?m' ?p' ?c1' ?c2' ?s' ?ro' ?w0] =>
        pose proof (start_inventory_kept a' m' p' c1' c2' s' ro' w0)
          as [Hst Hp];
        destruct (start_inventory a' m' p' c1' c2' s' ro' w0) as [r w1]
    end.
    simpl in Hst, Hp.
    pose proof (f_equal stop_reason Hst) as Hstop.
    pose proof (f_equal round_count Hst) as Hrounds.
    pose proof (f_equal tag_count Hst) as Htags.
    pose proof (f_equal initial_inventory_config Hst) as Hinit.
    pose proof (f_equal state Hst) as Hstate.
    pose proof (f_equal stop_conditions Hp) as Hsc.
    pose proof (f_equal start_time_us Hp) as Htime.
    simpl in *.
    destruct (error r) eqn:Herr; simpl; rewrite ?Herr; repeat split; congruence.
  - intros cihp Hr Ht Hd. unfold continuous_inventory_lbt.
    by rewrite Hr, Ht, Hd.
Qed.

End WithDriver.

Lemma start_inventory_op_running_witness :
  let w := Sim.world_of
             {| Sim.sim_op_running := true; Sim.sim_cw_is_on := false;
                Sim.sim_time := 0; Sim.sim_free_nodes := 1;
                Sim.sim_run_inventory_replies := [];
                Sim.sim_cw_on_replies := [] |} in
  let after := continuous_inventory 1 103 3000 (Some Sim.example_config)
                 (Some Sim.example_config_2) false
                 (Some {| max_number_of_rounds := 7; max_number_of_tags := 0;
                          max_duration_us := 4000000 |}) true false w in
  error (fst after) = false /\
  state (inventory_state (reader (snd after))) = InvOngoing /\
  calls (snd after) = [].
Proof.
  intros w after.
  destruct (@start_inventory_op_running _ Sim.sim_driver w 1 103 3000 Sim.example_config
              Sim.example_config_2 false false true
              {| max_number_of_rounds := 7; max_number_of_tags := 0;
                 max_duration_us := 4000000 |} ltac:(reflexivity))
    as (_ & _ & _ & Herr & Hstate & Hcalls & _).
  exact (conj Herr (conj Hstate Hcalls)).
Defined.


(** On the simulated device with the carrier on, the race on the first and
    on the second attempt: the second error is returned after exactly two
    round starts. *)
Lemma run_inventory_rerun_exactly_once_witness :
  let race := Sim.ops_error_result SendSelectOp ErrorInvalidTxState in
  let w := Sim.world_of
             {| Sim.sim_op_running := false; Sim.sim_cw_is_on := true;
                Sim.sim_time := 0; Sim.sim_free_nodes := 1;
                Sim.sim_run_inventory_replies := [race; race; race];
                Sim.sim_cw_on_replies := [] |} in
  let final := run_inventory_rerun 1 103 3000 Sim.example_config
                 Sim.example_config_2 false false 0 w in
  let round := run_inventory Sim.example_config Sim.example_config_2 false in
  fst final = race /\
  count_run_inventory (calls (snd final)) = 2%nat /\
  Sim.sim_run_inventory_replies (device (snd final)) = [race] /\
  calls (snd final)
    = [round; update_channel_time_tracking; store_pre_ramp_variables 1;
       store_post_ramp_variables 3000 865700;
       cw_on {| rf_settings := 0; timer := regulatory_timers EtsiLower.region |} 0;
       wait_op_completion; read_rx_gain_control; round].
Proof.
  intros race w final round.
  destruct (@run_inventory_rerun_exactly_once _ Sim.sim_driver 1 103 3000
              Sim.example_config Sim.example_config_2 false false 0 w
              ltac:(reflexivity))
    as (_ & _ & Hfinal & _ & _).
  unfold final. rewrite Hfinal. by vm_compute.
Defined.


(** C1 fails on the code: with the three bounds zero the call succeeds, the
    session is [InvOngoing] and the first round has been started. *)
Lemma continuous_inventory_accepts_zero_bounds :
  let after := continuous_inventory 1 103 3000 (Some Sim.example_config)
                 (Some Sim.example_config_2) false
                 (Some Sim.no_stop_conditions) true false
                 (Sim.world_of Sim.idle_device) in
  error (fst after) = false /\
  state (inventory_state (reader (snd after))) = InvOngoing /\
  reader (snd after) <> reader (Sim.world_of Sim.idle_device) /\
  calls (snd after)
    = [set_rf_mode 103;
       run_inventory Sim.example_config Sim.example_config_2 false].
Proof. by vm_compute. Qed.

(** C2 fails on the code: a session limited to 2 s whose round summary
    carries the timestamp 2.5 s reports a duration of 2.5 s. *)
Lemma max_duration_summary_reports_packet_time :
  let w := Sim.session_started Sim.idle_device (Sim.stop_after_us 2000000) in
  let packet := Sim.round_summary_packet 2500000 InventorySummaryDone 3 0 0 in
  In (insert_fifo_event true
        {| packet_type := ContinuousInventorySummary;
           us_counter := 2500000;
           static_data := continuous_inventory_summary
             {| duration_us := 2500000;
                number_of_inventory_rounds := 1;
                number_of_tags := 0;
                reason := SRMaxDuration;
                last_op_id := OpIdRaw 0;
                last_op_error := ErrorNone;
                packet_rfu_1 := 0 |};
           dynamic_data := [];
           is_valid := true |})
     (calls (snd (fifo_data_handler [packet] w))) /\
  ~ (2500000 <= max_duration_us (Sim.stop_after_us 2000000)).
Proof. split; [vm_compute; tauto | by vm_compute]. Qed.

Lemma max_duration_summary_witness :
  let w := Sim.session_started Sim.idle_device (Sim.stop_after_us 2000000) in
  let packet := Sim.round_summary_packet 2000100 InventorySummaryRegulatory 3 0 0 in
  let w' := snd (handle_packet packet w) in
  state (inventory_state (reader w')) = InvIdle /\
  stop_reason (inventory_state (reader w')) = SRMaxDuration /\
  exists summary,
    calls w' =
      calls w
      ++ [insert_fifo_event true
            {| packet_type := ContinuousInventorySummary;
               us_counter := 2000100;
               static_data := continuous_inventory_summary summary;
               dynamic_data := [];
               is_valid := true |}] /\
    reason summary = SRMaxDuration /\
    duration_us summary = wrap32 (2000100 - 0) /\
    0 < 2000000 <= duration_us summary.
Proof.
  intros w packet.
  apply (@max_duration_summary _ Sim.sim_driver packet w).
  - by vm_compute.
  - reflexivity.
  - reflexivity.
  - reflexivity.
  - reflexivity.
  - by vm_compute.
  - by vm_compute.
Defined.



(** C4 fails on the code when no FIFO buffer node is free: the session ends
    and the summary is inserted, but no result packet is pushed. *)
Lemma session_error_without_result_packet :
  let w := Sim.session_started Sim.device_without_free_node
             (Sim.stop_after_rounds 7) in
  let packet := Sim.round_summary_packet 1000 InventorySummaryEventFifoFull 3 0 0 in
  let w' := snd (fifo_data_handler [packet] w) in
  state (inventory_state (reader w')) = InvIdle /\
  Forall (fun c => ~ Sim.is_result_node_push c) (calls w') /\
  Exists (fun c => exists p, c = insert_fifo_event true p
                             /\ packet_type p = ContinuousInventorySummary)
    (calls w').
Proof.
  split; [reflexivity|]. split.
  - vm_compute. repeat constructor; tauto.
  - vm_compute. do 2 apply Exists_cons_tl. apply Exists_cons_hd. eauto.
Qed.

Lemma session_error_published_witness :
  let w := Sim.session_started Sim.idle_device (Sim.stop_after_rounds 7) in
  let packet := Sim.round_summary_packet 1000 InventorySummaryEventFifoFull 3 0 0 in
  let r := make_ex10_sdk_error Ex10ModuleReader Ex10SdkEventFifoFull in
  let w' := snd (handle_packet packet w) in
  error r = true /\
  state (inventory_state (reader w')) = InvIdle /\
  stop_reason (inventory_state (reader w')) = Sim.sim_stop_reason r /\
  exists summary,
    calls w' =
      calls w
      ++ [list_node_push_back (result_node (result_packet r 1000));
          insert_fifo_event true
            {| packet_type := ContinuousInventorySummary;
               us_counter := 1000;
               static_data := continuous_inventory_summary summary;
               dynamic_data := [];
               is_valid := true |}] /\
    reason summary = Sim.sim_stop_reason r.
Proof.
  intros w packet r w'.
  destruct (@session_error_published _ Sim.sim_driver packet w
              (snd (record_round_summary packet w)) r)
    as (Herr & Hstate & Hstop & (summary & Hcalls & Hreason & _) & _).
  - by vm_compute.
  - reflexivity.
  - reflexivity.
  - split; [exact Herr|]. split; [exact Hstate|]. split; [exact Hstop|].
    exists summary. split; [exact Hcalls | exact Hreason].
Defined.

(** Once the round limit has ended the session, an error summary, a stop
    request and more packets leave the stop reason as it is. *)
Lemma stop_reason_first_set_wins_witness :
  let before :=
    [api_continuous_inventory 1 103 3000 (Some Sim.example_config)
       (Some Sim.example_config_2) false (Some (Sim.stop_after_rounds 1))
       true false;
     api_fifo_data_handler
       [Sim.round_summary_packet 1000 InventorySummaryDone 3 0 0]] in
  let after :=
    [api_fifo_data_handler
       [Sim.round_summary_packet 2000 InventorySummaryEventFifoFull 3 0 0];
     api_stop_transmitting;
     api_fifo_data_handler
       [Sim.round_summary_packet 3000 InventorySummaryDone 3 0 0]] in
  let w1 := run_apis before (Sim.world_of Sim.idle_device) in
  stop_reason (inventory_state (reader w1)) = SRMaxNumberOfRounds /\
  stop_reason (inventory_state (reader (run_apis after w1))) = SRMaxNumberOfRounds.
Proof.
  intros before after w1.
  assert (Hset : stop_reason (inventory_state (reader w1)) = SRMaxNumberOfRounds)
    by reflexivity.
  split; [exact Hset|].
  rewrite <- Hset.
  apply (@stop_reason_first_set_wins _ Sim.sim_driver Sim.idle_device before after).
  - reflexivity.
  - by vm_compute.
Defined.

Lemma round_count_incremented_iff_done_or_host_witness :
  let w := Sim.session_started Sim.idle_device (Sim.stop_after_rounds 7) in
  let packet := Sim.round_summary_packet 1000 InventorySummaryDone 3 0 0 in
  round_count (inventory_state (reader (snd (handle_packet packet w))))
    = wrap32 (0 + 1).
Proof.
  intros w packet.
  refine (proj1 (@round_count_incremented_iff_done_or_host _ Sim.sim_driver packet
                   {| irs_duration_us := 0; irs_total_slots := 0;
                      irs_reason := InventorySummaryDone;
                      irs_final_q := 3; irs_min_q_count := 0;
                      irs_queries_since_valid_epc_count := 0 |}
                   w _ _ _ _)).
  - by vm_compute.
  - reflexivity.
  - reflexivity.
  - by vm_compute.
Defined.


(** Scenario A on the simulated device: seven completed rounds with a limit
    of seven end the session with exactly one summary, which counts seven
    rounds and gives the round limit as its reason. *)
Example scenario_A_seven_rounds :
  let done_at us := Sim.round_summary_packet us InventorySummaryDone 3 0 0 in
  let w := fold_left (fun w us => snd (fifo_data_handler [done_at us] w))
             [1000; 2000; 3000; 4000; 5000; 6000; 7000]
             (Sim.session_started Sim.idle_device (Sim.stop_after_rounds 7)) in
  state (inventory_state (reader w)) = InvIdle /\
  count_run_inventory (calls w) = 7%nat /\
  List.filter (fun c => match c with insert_fifo_event _ _ => true | _ => false end)
    (calls w)
  = [insert_fifo_event true
       {| packet_type := ContinuousInventorySummary;
          us_counter := 7000;
          static_data := continuous_inventory_summary
            {| duration_us := 7000;
               number_of_inventory_rounds := 7;
               number_of_tags := 0;
               reason := SRMaxNumberOfRounds;
               last_op_id := OpIdRaw 0;
               last_op_error := ErrorNone;
               packet_rfu_1 := 0 |};
          dynamic_data := [];
          is_valid := true |}].
Proof. by vm_compute. Qed.

End ReaderProofs.

(* ================================================================== *)
(** ** More on the OSAL memory helpers *)

Module OsalMore.

Import Osal OsalProofs.

(** The filling loop overwrites [count] bytes from [index] on with [value]
    and nothing else. *)
Lemma memset_loop_spec (value : byte) (count : nat) :
  forall (dst : buffer) (index : nat),
  (index + count <= length dst)%nat ->
  memset_loop dst value index count =
    Some (take index dst ++ replicate count value ++ drop (index + count) dst).
Proof.
  induction count as [| count IH]; intros dst index Hlen; simpl.
  - by rewrite Nat.add_0_r, take_drop.
  - rewrite store_in_range by lia. simpl.
    rewrite IH by (rewrite length_insert; lia).
    f_equal.
    rewrite (take_S_r _ index value) by (apply list_lookup_insert_eq; lia).
    rewrite take_insert_ge by lia.
    rewrite drop_insert_lt by lia.
    rewrite <- app_assoc. simpl.
    by rewrite Nat.add_succ_r.
Qed.

(** X1.  [ex10_memset(dst, dst_size, value, count)], on a destination of at
    least [dst_size] bytes: when [count <= dst_size] the first [count] bytes
    become [value], the rest is unchanged and 0 is returned; otherwise no
    byte is set to [value]: the first [dst_size] bytes are zeroed and
    [EINVAL] is returned. *)
Theorem ex10_memset_zero_then_fail (dst : buffer) (dst_size : nat)
    (value : byte) (count : nat) :
  (dst_size <= length dst)%nat ->
  ex10_memset dst dst_size value count =
    if decide (count <= dst_size)%nat
    then Some (replicate count value ++ drop count dst, 0)
    else Some (replicate dst_size x00 ++ drop dst_size dst, EINVAL).
Proof.
  intros Hdst. unfold ex10_memset. destruct (decide _) as [Hle | Hgt].
  - rewrite memset_loop_spec by lia. by rewrite take_0.
  - by rewrite ex10_memzero_spec.
Qed.

Lemma ex10_memset_zero_then_fail_witness :
  ex10_memset [x11; x22; x33; x44] 3 xff 5 = Some ([x00; x00; x00; x44], EINVAL).
Proof.
  apply (ex10_memset_zero_then_fail [x11; x22; x33; x44] 3 xff 5). simpl; lia.
Defined.

(** X2.  None of the three helpers changes the size of the destination, and
    none writes at or beyond [dst_size]: whatever the sizes asked for, the
    bytes of the destination from [dst_size] on are the ones it had. *)
Theorem helpers_stay_within_dst_size (dst src : buffer) (dst_size src_size : nat)
    (value : byte) (count : nat) (dst' : buffer) (rc : Z) :
  (dst_size <= length dst)%nat ->
  (src_size <= length src)%nat ->
  ex10_memcpy dst dst_size src src_size = Some (dst', rc) \/
  ex10_memset dst dst_size value count = Some (dst', rc) \/
  (ex10_memzero dst dst_size = Some dst' /\ rc = 0) ->
  length dst' = length dst /\ drop dst_size dst' = drop dst_size dst.
Proof.
  intros Hdst Hsrc Hrun.
  assert (Hshape : exists (n : nat) (prefix : buffer),
            (n <= dst_size)%nat /\ length prefix = n /\
            dst' = prefix ++ drop n dst).
  { destruct Hrun as [Hcpy | [Hset | [Hzero _]]].
    - unfold ex10_memcpy in Hcpy.
      destruct (decide (src_size <= dst_size)%nat) as [Hle | Hgt].
      + rewrite memcpy_loop_spec in Hcpy by lia.
        rewrite take_0, drop_0 in Hcpy. injection Hcpy as <- _.
        exists src_size, (take src_size src). split; [done|].
        split; [rewrite length_take; lia | done].
      + rewrite ex10_memzero_spec in Hcpy by done. injection Hcpy as <- _.
        exists dst_size, (replicate dst_size x00).
        split; [done|]. split; [apply length_replicate | done].
    - unfold ex10_memset in Hset.
      destruct (decide (count <= dst_size)%nat).
      + rewrite memset_loop_spec in Hset by lia.
        rewrite take_0 in Hset. injection Hset as <- _.
        exists count, (replicate count value).
        split; [done|]. split; [apply length_replicate | done].
      + rewrite ex10_memzero_spec in Hset by done. injection Hset as <- _.
        exists dst_size, (replicate dst_size x00).
        split; [done|]. split; [apply length_replicate | done].
    - rewrite ex10_memzero_spec in Hzero by done. injection Hzero as <-.
      exists dst_size, (replicate dst_size x00).
      split; [done|]. split; [apply length_replicate | done]. }
  destruct Hshape as (n & prefix & Hn & Hlen & ->). split.
  - rewrite length_app, length_drop. lia.
  - rewrite drop_app_ge by lia. rewrite drop_drop. f_equal. lia.
Qed.

Lemma helpers_stay_within_dst_size_witness :
  length [xaa; xbb; x33; x44] = length [x11; x22; x33; x44] /\
  drop 3 [xaa; xbb; x33; x44] = drop 3 [x11; x22; x33; x44].
Proof.
  apply (helpers_stay_within_dst_size [x11; x22; x33; x44] [xaa; xbb] 3 2
           x00 0 [xaa; xbb; x33; x44] 0).
  - simpl; lia.
  - simpl; lia.
  - left. reflexivity.
Defined.

End OsalMore.

(* ================================================================== *)
(** ** More on the regulatory timers *)

Module EtsiLowerMore.

Import EtsiLower EtsiLowerProofs EtsiLowerRuns.

Lemma wrap32_add (a b : Z) : wrap32 (wrap32 a + wrap32 b) = wrap32 (a + b).
Proof. unfold wrap32. by rewrite <- Zplus_mod. Qed.

Lemma wrap32_wrap32 (a : Z) : wrap32 (wrap32 a) = wrap32 a.
Proof. unfold wrap32. by rewrite Zmod_mod. Qed.

Lemma channel_timers_some (s : State) (channel : nat) :
  well_sized s -> (channel < ETSI_UPPER_CHANNELS)%nat ->
  exists timers, channel_timers s channel = Some timers.
Proof.
  intros Hws Hlt.
  destruct (well_sized_lookups s channel Hws Hlt) as (a & b & c & Ha & Hb & Hc).
  exists (a, b, c). unfold channel_timers. by rewrite Ha, Hb, Hc.
Qed.

(** X3.  The timers of the channels are independent: a start or an end on
    one channel of the arrays leaves the start time, the end time and the
    accumulated on-time of every other channel as they were, and the region
    in use too. *)
Theorem timers_of_other_channels_kept (s s' : State) (channel other : nat)
    (time_ms : Z) :
  well_sized s ->
  other <> channel ->
  regulatory_timer_set_start channel time_ms s = Some s' \/
  regulatory_timer_set_end channel time_ms s = Some s' ->
  channel_timers s' other = channel_timers s other /\
  region_ptr s' = region_ptr s /\
  well_sized s'.
Proof.
  intros Hws Hne Hrun.
  assert (Hshape : exists a b c,
            s' = {| region_ptr := region_ptr s;
                    channel_last_start := <[channel := a]> (channel_last_start s);
                    channel_last_end := <[channel := b]> (channel_last_end s);
                    channel_total_time := <[channel := c]> (channel_total_time s) |}).
  { destruct Hrun as [Hrun | Hrun].
    - unfold regulatory_timer_set_start, array_store in Hrun.
      destruct (decide (channel < length (channel_last_start s))%nat); [|done].
      simpl in Hrun.
      destruct (channel_last_end s !! channel) as [le|] eqn:Hle; [|done].
      destruct (channel_total_time s !! channel) as [tot|]; [|done].
      simpl in Hrun.
      destruct (decide (channel < length (channel_total_time s))%nat); [|done].
      simpl in Hrun. injection Hrun as <-.
      eexists _, le, _. by rewrite (list_insert_id _ _ _ Hle).
    - unfold regulatory_timer_set_end, array_store in Hrun.
      destruct (decide (channel < length (channel_last_end s))%nat); [|done].
      simpl in Hrun.
      destruct (channel_last_start s !! channel) as [ls|] eqn:Hls; [|done].
      destruct (channel_total_time s !! channel) as [tot|]; [|done].
      simpl in Hrun.
      destruct (decide (channel < length (channel_total_time s))%nat); [|done].
      simpl in Hrun. injection Hrun as <-.
      eexists ls, _, _. by rewrite (list_insert_id _ _ _ Hls). }
  destruct Hshape as (a & b & c & ->). split; [|split; [done|]].
  - unfold channel_timers. simpl.
    by rewrite !list_lookup_insert_ne by done.
  - destruct Hws as (? & ? & ?). unfold well_sized. simpl.
    by rewrite !length_insert.
Qed.

Lemma timers_of_other_channels_kept_witness :
  exists s',
    regulatory_timer_set_start 1 5000 initial = Some s' /\
    channel_timers s' 3 = channel_timers initial 3.
Proof.
  destruct (set_start_runs 1 5000 initial) as [s' Hs'].
  - repeat split.
  - unfold ETSI_UPPER_CHANNELS; lia.
  - exists s'. split; [exact Hs'|].
    refine (proj1 (timers_of_other_channels_kept initial s' 1 3 5000 _ _ _)).
    + repeat split.
    + lia.
    + left. exact Hs'.
Defined.

(** X4.  [regulatory_timer_clear] zeroes the three timers of every channel
    and keeps the region in use.  The zero it leaves as last end time counts
    as a ramp down at time 0: a first start at a time below the off time
    takes that time as on-time already accumulated. *)
Theorem regulatory_timer_clear_zeroes (s : State) (channel : nat) (time_ms : Z) :
  well_sized s ->
  (channel < ETSI_UPPER_CHANNELS)%nat ->
  is_uint32 time_ms ->
  let cleared := regulatory_timer_clear s in
  well_sized cleared /\
  region_ptr cleared = region_ptr s /\
  channel_timers cleared channel = Some (0, 0, 0) /\
  exists s',
    regulatory_timer_set_start channel time_ms cleared = Some s' /\
    channel_timers s' channel =
      Some (time_ms, 0,
            if time_ms <? off_same_channel_ms (regulatory_timers (region_ptr s))
            then time_ms else 0).
Proof.
  intros (Hstart & Hend & Htotal) Hlt Htime cleared.
  assert (Hws : well_sized cleared).
  { unfold well_sized, cleared, regulatory_timer_clear. simpl.
    by rewrite !length_replicate. }
  assert (Hzero : channel_timers cleared channel = Some (0, 0, 0)).
  { unfold channel_timers, cleared, regulatory_timer_clear. simpl.
    by rewrite !lookup_replicate_2 by lia. }
  split; [done|]. split; [done|]. split; [done|].
  destruct (set_start_runs channel time_ms cleared Hws Hlt) as [s' Hs'].
  exists s'. split; [done|].
  destruct (channel_timers_start _ _ _ _ _ _ _ Hws Hzero Hs') as (_ & _ & ->).
  rewrite Z.sub_0_r, Z.add_0_l, wrap32_wrap32, (wrap32_small time_ms) by done.
  done.
Qed.

Lemma regulatory_timer_clear_zeroes_witness :
  exists s',
    regulatory_timer_set_start 0 60 (regulatory_timer_clear initial) = Some s' /\
    channel_timers s' 0 = Some (60, 0, 60).
Proof.
  destruct (regulatory_timer_clear_zeroes initial 0 60) as (_ & _ & _ & s' & Hs' & Ht).
  - repeat split.
  - unfold ETSI_UPPER_CHANNELS; lia.
  - unfold is_uint32, UINT32_MAX; lia.
  - exists s'. split; [exact Hs' | exact Ht].
Defined.

(** X5.  In a region whose [off_same_channel_ms] is zero (as in the timers
    [remain_on] uses) no pause is ever too short: every start resets the
    accumulated on-time of its channel to zero. *)
Theorem no_off_time_always_resets (s s' : State) (channel : nat) (time_ms : Z) :
  well_sized s ->
  off_same_channel_ms (regulatory_timers (region_ptr s)) <= 0 ->
  regulatory_timer_set_start channel time_ms s = Some s' ->
  exists last_end,
    channel_timers s' channel = Some (time_ms, last_end, 0).
Proof.
  intros Hws Hoff Hrun.
  assert (Hlt : (channel < ETSI_UPPER_CHANNELS)%nat).
  { unfold regulatory_timer_set_start, array_store in Hrun.
    destruct (decide (channel < length (channel_last_start s))%nat); [|done].
    destruct Hws as (<- & _). done. }
  destruct (channel_timers_some s channel Hws Hlt) as [[[ls le] tot] Ht].
  exists le.
  destruct (channel_timers_start _ _ _ _ _ _ _ Hws Ht Hrun) as (_ & _ & ->).
  pose proof (wrap32_range (time_ms - le)) as [Hge _].
  by rewrite (proj2 (Z.ltb_ge _ _)) by lia.
Qed.

Lemma no_off_time_always_resets_witness :
  let timers_off :=
    {| nominal_ms := 0; extended_ms := 0; regulatory_ms := 0;
       off_same_channel_ms := 0 |} in
  let s := set_region
             (Some {| region_id := REGION_CUSTOM;
                      regulatory_timers := timers_off;
                      regulatory_channels := regulatory_channels region;
                      pll_divider := 60; rf_filter := LOWER_BAND;
                      max_power_cdbm := 3000 |})
             {| region_ptr := region;
                channel_last_start := [0; 0; 1000; 0];
                channel_last_end := [0; 0; 1040; 0];
                channel_total_time := [0; 0; 40; 0] |} in
  exists s' last_end,
    regulatory_timer_set_start 2 1041 s = Some s' /\
    channel_timers s' 2 = Some (1041, last_end, 0).
Proof.
  intros timers_off s.
  destruct (set_start_runs 2 1041 s) as [s' Hs'].
  - repeat split.
  - unfold ETSI_UPPER_CHANNELS; lia.
  - destruct (no_off_time_always_resets s s' 2 1041) as [last_end Ht].
    + repeat split.
    + simpl; lia.
    + exact Hs'.
    + exists s', last_end. split; [exact Hs' | exact Ht].
Defined.

Lemma last_cons_default {A} (l : list A) (x d : A) :
  List.last (x :: l) d = List.last l x.
Proof.
  revert x d. induction l as [| y l IH]; intros x d; [done|].
  change (List.last (x :: y :: l) d) with (List.last (y :: l) d).
  by rewrite (IH y d), (IH y x).
Qed.

(** Transmissions that follow each other with pauses below the off time keep
    the accumulated on-time equal to the time since [t0], pauses included. *)
Lemma transmit_all_accumulates (channel : nat) (t0 : Z) (bursts : list (Z * Z)) :
  forall (s : State) (last_start last_end : Z),
  well_sized s ->
  channel_timers s channel = Some (last_start, last_end, wrap32 (last_end - t0)) ->
  pauses_below (off_same_channel_ms (regulatory_timers (region_ptr s)))
    last_end bursts ->
  exists s',
    transmit_all channel bursts s = Some s' /\
    channel_timers s' channel =
      Some (fst (List.last bursts (last_start, last_end)),
            snd (List.last bursts (last_start, last_end)),
            wrap32 (snd (List.last bursts (last_start, last_end)) - t0)).
Proof.
  induction bursts as [| [st en] rest IH]; intros s ls le Hws Ht Hpauses.
  { exists s. by split. }
  simpl in Hpauses. destruct Hpauses as [Hshort Hrest].
  assert (Hlt : (channel < ETSI_UPPER_CHANNELS)%nat).
  { unfold channel_timers in Ht.
    destruct (channel_last_start s !! channel) eqn:Hl; [|done].
    apply lookup_lt_Some in Hl. by destruct Hws as (<- & _). }
  destruct (set_start_runs channel st s Hws Hlt) as [s1 Hs1].
  destruct (channel_timers_start _ _ _ _ _ _ _ Hws Ht Hs1) as (Hws1 & Hreg1 & Ht1).
  rewrite (proj2 (Z.ltb_lt _ _) Hshort) in Ht1.
  destruct (set_end_runs channel en s1 Hws1 Hlt) as [s2 Hs2].
  destruct (channel_timers_end _ _ _ _ _ _ _ Hws1 Ht1 Hs2) as (Hws2 & Hreg2 & Ht2).
  assert (Htotal : wrap32 (wrap32 (wrap32 (le - t0) + wrap32 (st - le))
                           + wrap32 (en - st)) = wrap32 (en - t0)).
  { rewrite (wrap32_add (le - t0) (st - le)), wrap32_add. f_equal. lia. }
  rewrite Htotal in Ht2.
  destruct (IH s2 st en Hws2 Ht2) as (s' & Hrun & Hfinal).
  { by rewrite Hreg2, Hreg1. }
  exists s'. split.
  - simpl. unfold transmit. simpl. rewrite Hs1. simpl. rewrite Hs2. simpl. exact Hrun.
  - by rewrite Hfinal, last_cons_default.
Qed.

(** X6.  When a channel is started after a full rest and every later pause
    stays below the off time, the pauses count as on-time: after any number
    of transmissions the accumulated on-time is the time from the first
    start to the last end, in [uint32_t] arithmetic. *)
Theorem on_time_spans_short_pauses (s : State) (channel : nat)
    (first : Z * Z) (rest : list (Z * Z)) (last_start last_end total : Z) :
  let off := off_same_channel_ms (regulatory_timers (region_ptr s)) in
  well_sized s ->
  channel_timers s channel = Some (last_start, last_end, total) ->
  off <= wrap32 (fst first - last_end) ->
  pauses_below off (snd first) rest ->
  exists s',
    transmit_all channel (first :: rest) s = Some s' /\
    channel_timers s' channel =
      Some (fst (List.last rest first), snd (List.last rest first),
            wrap32 (snd (List.last rest first) - fst first)).
Proof.
  intros off Hws Ht Hrested Hpauses. destruct first as [t0 e0]. simpl in *.
  assert (Hlt : (channel < ETSI_UPPER_CHANNELS)%nat).
  { unfold channel_timers in Ht.
    destruct (channel_last_start s !! channel) eqn:Hl; [|done].
    apply lookup_lt_Some in Hl. by destruct Hws as (<- & _). }
  destruct (set_start_runs channel t0 s Hws Hlt) as [s1 Hs1].
  destruct (channel_timers_start _ _ _ _ _ _ _ Hws Ht Hs1) as (Hws1 & Hreg1 & Ht1).
  fold off in Ht1. rewrite (proj2 (Z.ltb_ge _ _) Hrested) in Ht1.
  destruct (set_end_runs channel e0 s1 Hws1 Hlt) as [s2 Hs2].
  destruct (channel_timers_end _ _ _ _ _ _ _ Hws1 Ht1 Hs2) as (Hws2 & Hreg2 & Ht2).
  rewrite Z.add_0_l, wrap32_wrap32 in Ht2.
  destruct (transmit_all_accumulates channel t0 rest s2 t0 e0 Hws2 Ht2)
    as (s' & Hrun & Hfinal).
  { by rewrite Hreg2, Hreg1. }
  exists s'. split.
  - unfold transmit. simpl. rewrite Hs1. simpl. rewrite Hs2. simpl. exact Hrun.
  - exact Hfinal.
Qed.

Lemma on_time_spans_short_pauses_witness :
  exists s',
    transmit_all 2 [(1000, 1040); (1100, 1200); (1299, 1350)] initial = Some s' /\
    channel_timers s' 2 = Some (1299, 1350, wrap32 (1350 - 1000)).
Proof.
  apply (on_time_spans_short_pauses initial 2 (1000, 1040)
           [(1100, 1200); (1299, 1350)] 0 0 0).
  - repeat split.
  - reflexivity.
  - by vm_compute.
  - repeat split; by vm_compute.
Defined.

End EtsiLowerMore.

(* ================================================================== *)
(** ** More on the reader *)

Module ReaderMore.

Import EtsiLower Reader ReaderProofs ReaderObservations ReaderCwTest.

Section WithDriver.

Context {D : Type} `{Ex10Driver D}.

(** *** Parts of the reader that a computation keeps *)

Section Keeps.

Context {A : Type} (f : Ex10ReaderPrivate -> A).

Lemma keeps_ret {B} (b : B) : keeps (D:=D) f (ret b).
Proof. by intros w. Qed.

Lemma keeps_bind {B C} (m : M D B) (k : B -> M D C) :
  keeps f m -> (forall b, keeps f (k b)) -> keeps f (bind m k).
Proof.
  intros Hm Hk w. unfold bind.
  specialize (Hm w). destruct (m w) as [b w1]. simpl in Hm.
  by rewrite Hk.
Qed.

Lemma keeps_query {B} (g : D -> B) : keeps f (query g).
Proof. by intros w. Qed.

Lemma keeps_get_reader : keeps (D:=D) f get_reader.
Proof. by intros w. Qed.

Lemma keeps_get_state : keeps (D:=D) f get_state.
Proof. by intros w. Qed.

Lemma keeps_call c : keeps f (call c).
Proof. intros w. by rewrite call_reader. Qed.

Lemma keeps_op c : keeps f (op c).
Proof. intros w. by destruct (op_calls c w) as [_ ->]. Qed.

Lemma keeps_modify_state g :
  (forall r, f (map_inventory_state g r) = f r) -> keeps (D:=D) f (modify_state g).
Proof. intros Hg w. apply Hg. Qed.

Lemma keeps_modify_params g :
  (forall r, f (map_inventory_params g r) = f r) -> keeps (D:=D) f (modify_params g).
Proof. intros Hg w. apply Hg. Qed.

End Keeps.

(** One structural step of a [keeps] proof, for a part [f] that the stored
    receiver gains are not in. *)
Ltac keeps_step :=
  first
    [ apply keeps_ret
    | apply keeps_query
    | apply keeps_get_reader
    | apply keeps_get_state
    | apply keeps_op
    | apply keeps_call
    | apply keeps_modify_state; intros [? ? []]; reflexivity
    | apply keeps_bind; [| intros ?]
    | match goal with
      | |- keeps _ (put_stored_analog_rx_fields _) => intros ?; reflexivity
      | |- keeps _ (if ?b then _ else _) => destruct b
      | |- keeps _ (match ?x with _ => _ end) => destruct x
      end ].

Lemma reader_ramp_keeps_settings a m p ro droop :
  keeps host_settings (reader_ramp_for_inventory a m p ro droop).
Proof.
  unfold reader_ramp_for_inventory, build_cw_configs. repeat keeps_step.
Qed.

Lemma reader_ramp_keeps_target a m p ro droop :
  keeps session_target (reader_ramp_for_inventory a m p ro droop).
Proof.
  unfold reader_ramp_for_inventory, build_cw_configs. repeat keeps_step.
Qed.

Lemma run_inventory_rerun_keeps_settings a m p c c2 s ro droop :
  keeps host_settings (run_inventory_rerun a m p c c2 s ro droop).
Proof.
  unfold run_inventory_rerun.
  repeat first [ apply reader_ramp_keeps_settings | keeps_step ].
Qed.

Lemma run_inventory_rerun_keeps_target a m p c c2 s ro droop :
  keeps session_target (run_inventory_rerun a m p c c2 s ro droop).
Proof.
  unfold run_inventory_rerun.
  repeat first [ apply reader_ramp_keeps_target | keeps_step ].
Qed.

(** *** stop_transmitting *)

(** X7.  [stop_transmitting] makes exactly one call, the ramp down, whose
    result it returns, whatever the session is doing.  It turns a session
    that is not idle into [InvStopRequested] and writes nothing else; on
    an idle reader it writes nothing, and a second call in a row changes the
    reader no further. *)
Theorem stop_transmitting_requests_stop (w : World D) :
  let after := stop_transmitting w in
  let again := stop_transmitting (snd after) in
  calls (snd after) = calls w ++ [stop_op_and_ramp_down] /\
  fst after = reply_result (fst (perform stop_op_and_ramp_down (device w))) /\
  reader (snd after)
    = (if decide (state (inventory_state (reader w)) = InvIdle)
       then reader w
       else map_inventory_state (set_state InvStopRequested) (reader w)) /\
  reader (snd again) = reader (snd after).
Proof.
  assert (Hone : forall w0 : World D,
            calls (snd (stop_transmitting w0)) = calls w0 ++ [stop_op_and_ramp_down] /\
            fst (stop_transmitting w0)
              = reply_result (fst (perform stop_op_and_ramp_down (device w0))) /\
            reader (snd (stop_transmitting w0))
              = (if decide (state (inventory_state (reader w0)) = InvIdle)
                 then reader w0
                 else map_inventory_state (set_state InvStopRequested) (reader w0))).
  { intros w0.
    unfold stop_transmitting, op, bind, get_state, modify_state, ret, call.
    simpl.
    destruct (decide (state (inventory_state (reader w0)) <> InvIdle)) as [Hbusy | Hidle];
      simpl; destruct (perform stop_op_and_ramp_down (device w0)); simpl.
    - by rewrite decide_False by done.
    - rewrite decide_True; [done|].
      by destruct (decide (state (inventory_state (reader w0)) = InvIdle)). }
  intros after again.
  destruct (Hone w) as (Hcalls & Hres & Hreader).
  split; [done|]. split; [done|]. split; [done|].
  unfold again. destruct (Hone (snd after)) as (_ & _ & ->).
  fold after in Hreader. rewrite Hreader.
  destruct (decide (state (inventory_state (reader w)) = InvIdle)) as [Hidle | Hbusy].
  - by rewrite decide_True.
  - simpl. by destruct (reader w) as [? ? []].
Qed.

(** *** Packets other than round summaries *)

(** X8.  A packet that is not an [InventoryRoundSummary] never ends or
    continues a session: it makes no call, and it changes nothing but the
    tag count, which a [TagRead] packet increments while the session is not
    idle, even when that reaches [max_number_of_tags]. *)
Theorem other_packets_pass_through packet (w : World D) :
  packet_type packet <> InventoryRoundSummary ->
  handle_packet packet w =
    (tt,
     if decide (state (inventory_state (reader w)) <> InvIdle
                /\ packet_type packet = TagRead)
     then mkWorld
            (map_inventory_state
               (set_tag_count (wrap32 (tag_count (inventory_state (reader w)) + 1)))
               (reader w))
            (device w) (calls w)
     else w).
Proof.
  intros Hother. unfold handle_packet, bind, get_state, modify_state, ret. simpl.
  destruct (decide (state (inventory_state (reader w)) <> InvIdle)) as [Hbusy | Hidle].
  - destruct (decide (packet_type packet = TagRead)) as [Htag | Hno].
    + by rewrite decide_True.
    + rewrite decide_False by done. by rewrite decide_False by (by intros [_ ?]).
  - by rewrite decide_False by (by intros [? _]).
Qed.

(** *** Invalid packets *)

Lemma fifo_data_loop_stops_at_invalid pre bad rest : forall w : World D,
  get_packet_type_valid (packet_type bad) = false ->
  fifo_data_loop (pre ++ bad :: rest) w = fifo_data_loop pre w.
Proof.
  induction pre as [| packet pre IH]; intros w Hbad; simpl.
  - by rewrite Hbad.
  - destruct (negb _); [done|]. unfold bind.
    destruct (handle_packet packet w) as [[] w1]. by apply IH.
Qed.

(** X9.  A packet of invalid type ends the processing of its buffer: the
    packets before it are handled as usual, the packets after it have no
    effect on the session, and the whole buffer, unprocessed packets
    included, is still handed to the event queue as the last call. *)
Theorem invalid_packet_ends_processing pre bad rest (w : World D) :
  get_packet_type_valid (packet_type bad) = false ->
  let processed := snd (fifo_data_loop pre w) in
  let after := snd (fifo_data_handler (pre ++ bad :: rest) w) in
  reader after = reader processed /\
  calls after
    = calls processed ++ [list_node_push_back (fifo_data (pre ++ bad :: rest))].
Proof.
  intros Hbad processed after. unfold after, fifo_data_handler, bind, ret.
  rewrite fifo_data_loop_stops_at_invalid by done. fold processed.
  destruct (fifo_data_loop pre w) as [[] w1]. simpl in *.
  unfold processed, call. simpl.
  by destruct (perform _ (device w1)).
Qed.

(** *** The elapsed time across a wrap of the microsecond counter *)

(** X10.  The elapsed time [check_stop_conditions] compares with
    [max_duration_us] is right across a wrap of the 32-bit microsecond
    counter: for a packet stamped [e] microseconds after the start, with
    [e] below 2^32, it is [e], also when the counter has wrapped in
    between and the timestamp is below the start time. *)
Theorem elapsed_us_across_wrap (start_time e : Z) :
  is_uint32 start_time ->
  is_uint32 e ->
  elapsed_us start_time (wrap32 (start_time + e)) = e.
Proof.
  intros Hstart He.
  rewrite elapsed_us_wrap by (done || apply wrap32_range).
  unfold wrap32. rewrite Zminus_mod_idemp_l.
  replace (start_time + e - start_time) with e by lia.
  apply Z.mod_small. unfold is_uint32, UINT32_MAX in He. lia.
Qed.

(** *** Properties of the reader that a computation preserves *)

Section Stays.

Context (Q : Ex10ReaderPrivate -> Prop).

Lemma stays_ret {B} (b : B) : stays (D:=D) Q (ret b).
Proof. by intros w. Qed.

Lemma stays_bind {B C} (m : M D B) (k : B -> M D C) :
  stays Q m -> (forall b, stays Q (k b)) -> stays Q (bind m k).
Proof.
  intros Hm Hk w HQ. unfold bind.
  specialize (Hm w HQ). destruct (m w) as [b w1]. by apply Hk.
Qed.

(** The reader that [get_reader] hands on satisfies [Q] too. *)
Lemma stays_bind_get_reader {C} (k : Ex10ReaderPrivate -> M D C) :
  (forall r, Q r -> stays Q (k r)) -> stays Q (bind get_reader k).
Proof. intros Hk w HQ. unfold bind, get_reader. by apply Hk. Qed.

Lemma stays_bind_get_state {C} (k : ContinuousInventoryState -> M D C) :
  (forall r, Q r -> stays Q (k (inventory_state r))) -> stays Q (bind get_state k).
Proof. intros Hk w HQ. unfold bind, get_state. by apply (Hk (reader w)). Qed.

Lemma stays_query {B} (g : D -> B) : stays Q (query g).
Proof. by intros w. Qed.

Lemma stays_call c : stays Q (call c).
Proof. intros w HQ. by rewrite call_reader. Qed.

Lemma stays_op c : stays Q (op c).
Proof. intros w HQ. by destruct (op_calls c w) as [_ ->]. Qed.

Lemma stays_modify_state g :
  (forall r, Q r -> Q (map_inventory_state g r)) -> stays (D:=D) Q (modify_state g).
Proof. intros Hg w HQ. by apply Hg. Qed.

Lemma stays_modify_params g :
  (forall r, Q r -> Q (map_inventory_params g r)) -> stays (D:=D) Q (modify_params g).
Proof. intros Hg w HQ. by apply Hg. Qed.

End Stays.

Lemma keeps_stays {A B} (f : Ex10ReaderPrivate -> A) (m : M D B) (x : A) :
  keeps f m -> stays (fun r => f r = x) m.
Proof. intros Hm w HQ. by rewrite Hm. Qed.

Lemma stays_keeps {A B} (f : Ex10ReaderPrivate -> A) (m : M D B) :
  (forall x, stays (fun r => f r = x) m) -> keeps f m.
Proof. intros Hm w. by apply (Hm (f (reader w))). Qed.

Lemma stays_and {B} (Q1 Q2 : Ex10ReaderPrivate -> Prop) (m : M D B) :
  stays Q1 m -> stays Q2 m -> stays (fun r => Q1 r /\ Q2 r) m.
Proof. intros H1 H2 w [? ?]. split; [by apply H1 | by apply H2]. Qed.

(** *** The host's settings *)

Lemma set_antenna_rf_mode_same p :
  set_antenna_rf_mode (antenna p) (rf_mode p) p = p.
Proof. by destruct p. Qed.

(** [start_inventory] called with the antenna and the RF mode that are
    saved already writes the saved parameters back as they are. *)
Lemma start_inventory_stays_settings x p c c2 s ro :
  stays (fun r => host_settings r = x)
    (start_inventory (antenna (fst x)) (rf_mode (fst x)) p c c2 s ro).
Proof.
  unfold start_inventory.
  apply stays_bind; [apply stays_query | intros running].
  destruct running; [apply stays_ret|].
  apply stays_bind.
  { apply stays_modify_state. by intros [? ? []] <-. }
  intros _. apply stays_bind.
  { apply stays_modify_params. intros [rx params st] <-. unfold host_settings.
    simpl. by rewrite set_antenna_rf_mode_same. }
  intros _. apply keeps_stays.
  repeat first [ apply run_inventory_rerun_keeps_settings
               | apply reader_ramp_keeps_settings
               | keeps_step ].
Qed.

Lemma continue_continuous_inventory_stays_settings x :
  stays (D:=D) (fun r => host_settings r = x) continue_continuous_inventory.
Proof.
  unfold continue_continuous_inventory.
  apply stays_bind_get_reader. intros r Hr.
  apply stays_bind; [apply stays_query | intros cw].
  destruct (next_target r cw) as [tgt reset_q].
  apply stays_bind.
  { apply stays_modify_state. by intros [? ? []] <-. }
  intros _. apply stays_bind_get_reader. intros r1 Hr1.
  destruct (next_round_config r1 reset_q) as [c c2].
  assert (Hp : inventory_params r1 = fst x) by (by rewrite <- Hr1).
  rewrite Hp. apply start_inventory_stays_settings.
Qed.

Lemma handle_continuous_inventory_error_keeps_settings r packet :
  keeps (D:=D) host_settings (handle_continuous_inventory_error r packet).
Proof.
  intros w.
  destruct (handle_continuous_inventory_error_spec r packet w) as [-> _].
  by destruct (reader w) as [? ? []].
Qed.

Lemma handle_packet_keeps_settings packet :
  keeps (D:=D) host_settings (handle_packet packet).
Proof.
  apply stays_keeps. intros x.
  unfold handle_packet, handle_inventory_round_summary, record_round_summary,
    classify_reason, stop_or_continue, check_stop_conditions,
    push_continuous_inventory_summary_packet.
  repeat first
    [ apply continue_continuous_inventory_stays_settings
    | apply keeps_stays; apply handle_continuous_inventory_error_keeps_settings
    | apply stays_ret
    | apply stays_query
    | apply stays_call
    | apply stays_modify_state; by intros [? ? []] <-
    | apply stays_bind; [| intros ?]
    | apply keeps_stays; apply keeps_get_state
    | apply keeps_stays; apply keeps_get_reader
    | match goal with
      | |- stays _ (if ?b then _ else _) => destruct b
      | |- stays _ (match ?x with _ => _ end) => destruct x
      end ].
Qed.

Lemma fifo_data_loop_keeps {A} (f : Ex10ReaderPrivate -> A) :
  (forall packet, keeps (D:=D) f (handle_packet packet)) ->
  forall packets, keeps (D:=D) f (fifo_data_loop packets).
Proof.
  intros Hpacket packets.
  induction packets as [| packet rest IH]; simpl; [by intros w|].
  destruct (negb _); [by intros w|].
  apply keeps_bind; [apply Hpacket | intros _; apply IH].
Qed.

(** X11.  The packet handler never writes what the host has set: after
    [fifo_data_handler], whatever the packets and whatever the device
    answers, the saved parameters (antenna, RF mode, power, both round
    configurations, stop conditions, start time and flags) and the saved
    initial round configuration are the ones the reader had before, and so
    they are after [stop_transmitting]. *)
Theorem handler_keeps_host_settings packets (w : World D) :
  host_settings (reader (snd (fifo_data_handler packets w)))
    = host_settings (reader w) /\
  host_settings (reader (snd (stop_transmitting w))) = host_settings (reader w).
Proof.
  split.
  - rewrite fifo_data_handler_reader.
    apply fifo_data_loop_keeps, handle_packet_keeps_settings.
  - rewrite stop_transmitting_reader.
    destruct (decide _); [|done]. by destruct (reader w) as [? ? []].
Qed.

(** *** The target of the session *)

Section KeepsAny.

(** A part of the reader that the stored receiver gains are not in. *)
Context {A : Type} (f : Ex10ReaderPrivate -> A).
Hypothesis f_rx : forall v r,
  f {| stored_analog_rx_fields := v;
       inventory_params := inventory_params r;
       inventory_state := inventory_state r |} = f r.

Lemma put_stored_analog_rx_fields_keeps v :
  keeps (D:=D) f (put_stored_analog_rx_fields v).
Proof. intros w. apply f_rx. Qed.

Lemma reader_ramp_keeps a m p ro droop :
  keeps f (reader_ramp_for_inventory a m p ro droop).
Proof.
  unfold reader_ramp_for_inventory, build_cw_configs.
  repeat first [ apply put_stored_analog_rx_fields_keeps | keeps_step ].
Qed.

Lemma run_inventory_rerun_keeps a m p c c2 s ro droop :
  keeps f (run_inventory_rerun a m p c c2 s ro droop).
Proof.
  unfold run_inventory_rerun.
  repeat first [ apply reader_ramp_keeps | keeps_step ].
Qed.

(** What [start_inventory] does once it has written the target, the antenna
    and the RF mode. *)
Lemma start_inventory_stays (Q : Ex10ReaderPrivate -> Prop) a m p c c2 s ro :
  (forall r, Q r -> exists x, f r = x /\ forall r', f r' = x -> Q r') ->
  (forall r, Q r ->
     Q (map_inventory_params (set_antenna_rf_mode a m)
          (map_inventory_state (set_inv_target (target c)) r))) ->
  stays Q (start_inventory a m p c c2 s ro).
Proof.
  intros Hf Hwrite. unfold start_inventory.
  apply stays_bind; [apply stays_query | intros running].
  destruct running; [apply stays_ret|].
  intros w HQ. unfold bind at 1 2, modify_state, modify_params. simpl.
  match goal with
  | |- Q (reader (snd (?rest ?w0))) =>
      assert (Hkeeps : keeps f rest) by
        (repeat first [ apply run_inventory_rerun_keeps | apply reader_ramp_keeps
                      | keeps_step ]);
      specialize (Hkeeps w0); specialize (Hwrite _ HQ);
      destruct (Hf _ Hwrite) as (x & Hx & Hback)
  end.
  apply Hback. simpl in Hkeeps. by rewrite Hkeeps.
Qed.

End KeepsAny.

Lemma next_round_config_target r reset_q :
  target (fst (next_round_config r reset_q)) = session_target r.
Proof.
  unfold next_round_config, session_target.
  destruct reset_q; [done|]. by destruct (decide _).
Qed.

Lemma next_target_valid r cw :
  target_valid (session_target r) -> target_valid (fst (next_target r cw)).
Proof.
  unfold next_target, session_target, target_valid, target_A, target_B.
  intros [-> | ->]; repeat case_match; simplify_eq; simpl; auto.
Qed.

Lemma next_target_single r cw :
  dual_target (inventory_params r) = false ->
  fst (next_target r cw) = session_target r.
Proof.
  unfold next_target, session_target. intros ->. by destruct (decide _).
Qed.

Lemma target_fact_next t r cw :
  target_fact t r ->
  target_fact t (map_inventory_state (set_inv_target (fst (next_target r cw))) r).
Proof.
  destruct t as [t|]; simpl.
  - intros [Ht Hsingle]. rewrite next_target_single by done.
    split; [|done]. by destruct r as [? ? []].
  - intros Hvalid. apply (next_target_valid r cw) in Hvalid.
    by destruct r as [? ? []].
Qed.

Lemma continue_continuous_inventory_stays_target t :
  stays (D:=D) (target_fact t) continue_continuous_inventory.
Proof.
  unfold continue_continuous_inventory.
  apply stays_bind_get_reader. intros r Hr.
  apply stays_bind; [apply stays_query | intros cw].
  pose proof (target_fact_next t r cw Hr) as Hnext.
  destruct (next_target r cw) as [tgt reset_q]. simpl in Hnext.
  intros w Hw. unfold bind, modify_state, get_reader. simpl.
  assert (Hsame : target_fact t (map_inventory_state (set_inv_target tgt) (reader w))).
  { destruct t as [t|]; simpl in *.
    - destruct Hw as [_ Hsingle], Hnext as [Htgt _].
      split; [|done]. by destruct r as [? ? []].
    - by destruct r as [? ? []]. }
  set (r1 := map_inventory_state (set_inv_target tgt) (reader w)) in *.
  pose proof (next_round_config_target r1 reset_q) as Htarget.
  destruct (next_round_config r1 reset_q) as [c c2]. simpl in Htarget.
  apply (start_inventory_stays
           (fun r => (session_target r, dual_target (inventory_params r)))).
  - done.
  - intros r0 Hr0. eexists. split; [reflexivity|].
    intros r' Heq. injection Heq as Ht Hd.
    destruct t as [t|]; simpl in *; [by rewrite Ht, Hd | by rewrite Ht].
  - intros r0 Hr0. rewrite Htarget.
    destruct t as [t|]; simpl in *.
    + destruct Hsame as [Ht _], Hr0 as [_ Hd]. split; [|done].
      unfold session_target in *. simpl in *. by destruct r0 as [? ? []].
    + unfold session_target in *. simpl in *. by destruct r0 as [? ? []].
  - exact Hsame.
Qed.

Lemma target_fact_state t r g :
  (forall st, inv_target (g st) = inv_target st) ->
  target_fact t r -> target_fact t (map_inventory_state g r).
Proof.
  intros Hg Hfact.
  destruct t as [t|]; unfold target_fact, session_target in *; simpl in *;
    by rewrite Hg.
Qed.

Lemma handle_packet_stays_target t packet :
  stays (D:=D) (target_fact t) (handle_packet packet).
Proof.
  unfold handle_packet, handle_inventory_round_summary, record_round_summary,
    classify_reason, stop_or_continue, check_stop_conditions,
    handle_continuous_inventory_error, make_ex10_result_fifo_packet,
    push_continuous_inventory_summary_packet.
  repeat first
    [ apply continue_continuous_inventory_stays_target
    | apply stays_ret
    | apply stays_query
    | apply stays_call
    | apply stays_modify_state; intros ?; apply target_fact_state; by intros []
    | apply stays_bind; [| intros ?]
    | apply stays_bind_get_state; intros ? ?
    | apply stays_bind_get_reader; intros ? ?
    | match goal with
      | |- stays _ (fun w => let (_, _) := free_list_get (device w) in _) =>
          intros w0 ?; destruct (free_list_get (device w0)); assumption
      | |- stays _ (if ?b then _ else _) => destruct b
      | |- stays _ (match ?x with _ => _ end) => destruct x
      end ].
Qed.

Lemma fifo_data_loop_stays (Q : Ex10ReaderPrivate -> Prop) :
  (forall packet, stays (D:=D) Q (handle_packet packet)) ->
  forall packets, stays (D:=D) Q (fifo_data_loop packets).
Proof.
  intros Hpacket packets.
  induction packets as [| packet rest IH]; simpl; [by intros w|].
  destruct (negb _); [by intros w|].
  apply stays_bind; [apply Hpacket | intros _; apply IH].
Qed.

(** X12.  The target of a session changes only by the dual-target rule: in
    a single-target session [fifo_data_handler] leaves the target as it is,
    whatever the packets, and in any session a target that is A or B is
    still A or B afterwards. *)
Theorem handler_target_rule packets (w : World D) :
  let after := reader (snd (fifo_data_handler packets w)) in
  (dual_target (inventory_params (reader w)) = false ->
   session_target after = session_target (reader w)) /\
  (target_valid (session_target (reader w)) -> target_valid (session_target after)).
Proof.
  intros after. unfold after. rewrite fifo_data_handler_reader. split.
  - intros Hsingle.
    by destruct (fifo_data_loop_stays (target_fact (Some (session_target (reader w))))
                   (handle_packet_stays_target _) packets w (conj eq_refl Hsingle)).
  - intros Hvalid.
    exact (fifo_data_loop_stays (target_fact None)
             (handle_packet_stays_target _) packets w Hvalid).
Qed.

(** *** remain_on *)

Lemma steps_bind_with {A B} P (post : A -> Prop) (m : M D A) (k : A -> M D B) :
  steps P m -> (forall w, post (fst (m w))) -> (forall a, post a -> steps P (k a)) ->
  steps P (bind m k).
Proof.
  intros Hm Hpost Hk w. unfold bind.
  specialize (Hm w). specialize (Hpost w). destruct (m w) as [a w1].
  eapply step_trans; [exact Hm | by apply Hk].
Qed.

(** One structural step of a [steps] proof about calls other than the ramp
    itself. *)
Ltac timers_step :=
  first
    [ apply steps_ret
    | apply steps_query
    | apply steps_get_reader
    | apply steps_get_state
    | apply steps_put_stored_analog_rx_fields
    | apply steps_modify_state; intros []; reflexivity
    | apply steps_modify_params; intros []; reflexivity
    | apply steps_op; exact I
    | apply steps_call; exact I
    | apply steps_bind; [| intros ?]
    | match goal with
      | |- steps _ (if ?b then _ else _) => destruct b
      | |- steps _ (match ?x with _ => _ end) => destruct x
      end ].

Lemma build_cw_configs_steps_timers a m p f ro :
  steps ramps_without_timers (build_cw_configs a m p f ro).
Proof. unfold build_cw_configs. repeat timers_step. Qed.

Lemma build_cw_configs_remain_on a m p f (w : World D) :
  match fst (build_cw_configs a m p f true w) with
  | inr cw_config => timer cw_config = regulatory_timers_disabled
  | inl _ => True
  end.
Proof.
  unfold build_cw_configs, bind, query, call, ret.
  destruct (negb (get_cw_is_on (device w))); simpl;
    repeat (match goal with
            | |- context [perform ?c ?d] => destruct (perform c d) as [? ?]
            | |- context [if ?b then _ else _] => destruct b
            end; simpl); done.
Qed.

Lemma reader_ramp_without_timers a m p droop :
  steps ramps_without_timers (reader_ramp_for_inventory a m p true droop).
Proof.
  unfold reader_ramp_for_inventory.
  apply steps_bind; [apply steps_op; exact I | intros r].
  destruct (error r); [apply steps_ret|].
  apply (steps_bind_with _
           (fun x => match x with
                     | inr cw_config => timer cw_config = regulatory_timers_disabled
                     | inl _ => True
                     end));
    [apply build_cw_configs_steps_timers
    | intros w; apply build_cw_configs_remain_on |].
  intros [failed | cw_config] Htimer; [apply steps_ret|].
  apply steps_bind; [apply steps_call; exact I | intros _].
  apply steps_bind; [apply steps_query | intros khz].
  apply steps_bind; [apply steps_call; exact I | intros _].
  apply steps_bind; [apply steps_op; exact Htimer | intros r1].
  repeat timers_step.
Qed.

Lemma start_inventory_without_timers a m p c c2 s :
  steps ramps_without_timers (start_inventory a m p c c2 s true).
Proof.
  unfold start_inventory, run_inventory_rerun.
  repeat first [ apply reader_ramp_without_timers | timers_step ].
Qed.

Section Within.

Context (Q : Ex10ReaderPrivate -> Prop) (P : Call -> Prop).

Lemma within_ret {B} (b : B) : within (D:=D) Q P (ret b).
Proof. intros w HQ. split; [done | apply extends_refl]. Qed.

Lemma within_bind {B C} (m : M D B) (k : B -> M D C) :
  within Q P m -> (forall b, within Q P (k b)) -> within Q P (bind m k).
Proof.
  intros Hm Hk w HQ. unfold bind.
  destruct (Hm w HQ) as [HQ1 Hext1]. destruct (m w) as [b w1].
  destruct (Hk b w1 HQ1) as [HQ2 Hext2].
  split; [done | by eapply extends_trans].
Qed.

Lemma within_bind_get_reader {C} (k : Ex10ReaderPrivate -> M D C) :
  (forall r, Q r -> within Q P (k r)) -> within Q P (bind get_reader k).
Proof. intros Hk w HQ. unfold bind, get_reader. by apply Hk. Qed.

Lemma within_bind_get_state {C} (k : ContinuousInventoryState -> M D C) :
  (forall r, Q r -> within Q P (k (inventory_state r))) ->
  within Q P (bind get_state k).
Proof. intros Hk w HQ. unfold bind, get_state. by apply (Hk (reader w)). Qed.

Lemma within_steps {B} (m : M D B) : stays Q m -> steps P m -> within Q P m.
Proof.
  intros Hstays Hsteps w HQ. split; [by apply Hstays|].
  by destruct (Hsteps w).
Qed.

Lemma within_call c : P c -> within Q P (call c).
Proof.
  intros HP. apply within_steps; [apply stays_call | by apply steps_call].
Qed.

Lemma within_modify_state g :
  (forall r, Q r -> Q (map_inventory_state g r)) -> within (D:=D) Q P (modify_state g).
Proof.
  intros Hg w HQ. split; [by apply Hg|]. exists []. by rewrite app_nil_r.
Qed.

Lemma within_free_list {B} (k : bool -> B) :
  within Q P (fun w : World D =>
                let (available, d) := free_list_get (device w) in
                (k available, mkWorld (reader w) d (calls w))).
Proof.
  intros w HQ. destruct (free_list_get (device w)).
  split; [done|]. exists []. by rewrite app_nil_r.
Qed.

End Within.

Lemma continue_continuous_inventory_within_timers :
  within (D:=D) remains_on ramps_without_timers continue_continuous_inventory.
Proof.
  unfold continue_continuous_inventory.
  apply within_bind_get_reader. intros r Hr.
  apply within_bind; [apply within_steps; [apply stays_query | apply steps_query]
                     | intros cw].
  destruct (next_target r cw) as [tgt reset_q].
  apply within_bind.
  { apply within_modify_state. by intros [? ? []]. }
  intros _. apply within_bind_get_reader. intros r1 Hr1.
  destruct (next_round_config r1 reset_q) as [c c2].
  unfold remains_on in Hr1. rewrite Hr1.
  apply within_steps; [| apply start_inventory_without_timers].
  apply (start_inventory_stays (fun r => remain_on (inventory_params r))).
  - done.
  - intros r0 Hr0. exists true. by split.
  - by intros [? [] []].
Qed.

Lemma handle_packet_within_timers packet :
  within (D:=D) remains_on ramps_without_timers (handle_packet packet).
Proof.
  unfold handle_packet, handle_inventory_round_summary, record_round_summary,
    classify_reason, stop_or_continue, check_stop_conditions,
    handle_continuous_inventory_error, make_ex10_result_fifo_packet,
    push_continuous_inventory_summary_packet.
  repeat first
    [ apply continue_continuous_inventory_within_timers
    | apply within_ret
    | apply within_free_list
    | apply within_call; exact I
    | apply within_modify_state; by intros [? ? []]
    | apply within_bind; [| intros ?]
    | apply within_bind_get_state; intros ? ?
    | apply within_bind_get_reader; intros ? ?
    | match goal with
      | |- within _ _ (if ?b then _ else _) => destruct b
      | |- within _ _ (match ?x with _ => _ end) => destruct x
      end ].
Qed.

(** X13.  A session started with [remain_on] never ramps the carrier with
    regulatory timers: every [cw_on] call made by [continuous_inventory]
    itself, and every one made later by [fifo_data_handler] when it
    continues the session, carries the disabled timers (all four zero). *)
Theorem remain_on_ramps_without_timers :
  (forall (w : World D) a m p c1 c2 s sc dt,
     extends ramps_without_timers w
       (snd (continuous_inventory a m p c1 c2 s sc dt true w))) /\
  (forall packets (w : World D),
     remain_on (inventory_params (reader w)) = true ->
     extends ramps_without_timers w (snd (fifo_data_handler packets w))).
Proof.
  split.
  - intros w a m p c1 c2 s sc dt. unfold continuous_inventory.
    destruct sc, c1, c2; try apply extends_refl.
    unfold bind at 1 2 3 4, modify_state at 1, modify_params, query. simpl.
    match goal with
    | |- context [start_inventory ?a' ?m' ?p' ?c1' ?c2' ?s' true ?w0] =>
        destruct (start_inventory_without_timers a' m' p' c1' c2' s' w0)
          as [_ Hext];
        destruct (start_inventory a' m' p' c1' c2' s' true w0) as [r w1]
    end.
    simpl in *. unfold bind, ret. by destruct (error r).
  - intros packets. unfold fifo_data_handler.
    assert (Hloop : within (D:=D) remains_on ramps_without_timers
                      (fifo_data_loop packets)).
    { induction packets as [| packet rest IH]; simpl; [apply within_ret|].
      destruct (negb _); [apply within_ret|].
      apply within_bind; [apply handle_packet_within_timers | intros _; apply IH]. }
    intros w Hw.
    assert (Hall : within (D:=D) remains_on ramps_without_timers
                     (fifo_data_loop packets ;;
                      call (list_node_push_back (fifo_data packets)) ;; ret tt)).
    { apply within_bind; [exact Hloop | intros _].
      apply within_bind; [apply within_call; exact I | intros _].
      apply within_ret. }
    by destruct (Hall w Hw).
Qed.

(** *** One summary for each session *)

Lemma count_summaries_app l d :
  count_summaries (l ++ d) = (count_summaries l + count_summaries d)%nat.
Proof. unfold count_summaries. by rewrite List.filter_app, length_app. Qed.

Lemma count_summaries_none d :
  Forall (fun c => ~ is_queue_or_event c) d -> count_summaries d = 0%nat.
Proof.
  unfold count_summaries. induction 1 as [| c d Hc _ IH]; [done|].
  simpl. destruct c; simpl in *; try exact IH. by destruct Hc.
Qed.

Lemma count_summaries_summary b r packet x :
  count_summaries [insert_fifo_event b (make_summary_packet r packet x)] = 1%nat.
Proof. reflexivity. Qed.

Lemma count_summaries_push_back node :
  count_summaries [list_node_push_back node] = 0%nat.
Proof. reflexivity. Qed.

Lemma runs_or_ends_refl (w : World D) : runs_or_ends w w.
Proof. by left. Qed.

Lemma handle_continuous_inventory_error_ends r packet (w : World D) :
  let w' := snd (handle_continuous_inventory_error r packet w) in
  state (inventory_state (reader w')) = InvIdle /\
  count_summaries (calls w') = S (count_summaries (calls w)).
Proof.
  destruct (handle_continuous_inventory_error_spec r packet w) as [Hr Hc].
  simpl in *. rewrite Hr, Hc. split; [done|].
  rewrite !count_summaries_app, count_summaries_summary.
  destruct (fst (free_list_get (device w)));
    [rewrite count_summaries_push_back | change (count_summaries []) with 0%nat];
    lia.
Qed.

Lemma continue_continuous_inventory_runs (w : World D) :
  let w' := snd (continue_continuous_inventory w) in
  state (inventory_state (reader w')) = state (inventory_state (reader w)) /\
  count_summaries (calls w') = count_summaries (calls w).
Proof.
  destruct (continue_continuous_inventory_steps w) as [Hkept (d & Hc & Hd)].
  simpl. split; [by apply session_kept_fields in Hkept as [? _]|].
  rewrite Hc, count_summaries_app, (count_summaries_none d Hd). lia.
Qed.

Lemma record_round_summary_runs packet (w : World D) :
  let w' := snd (record_round_summary packet w) in
  state (inventory_state (reader w')) = state (inventory_state (reader w)) /\
  calls w' = calls w.
Proof.
  unfold record_round_summary, classify_reason, bind, modify_state, get_state, ret.
  simpl. by destruct (irs_reason _).
Qed.

Lemma stop_or_continue_runs_or_ends packet r (w : World D) :
  runs_or_ends w (snd (stop_or_continue packet r w)).
Proof.
  unfold stop_or_continue. destruct (error r).
  { right. apply handle_continuous_inventory_error_ends. }
  unfold bind at 1. rewrite check_stop_conditions_spec.
  assert (Hstop : forall rd,
            runs_or_ends w
              (snd ((modify_state (set_state InvIdle) ;;
                     push_continuous_inventory_summary_packet packet r)
                      (mkWorld rd (device w) (calls w))))).
  { intros rd. right. unfold bind, modify_state. simpl.
    match goal with
    | |- context [push_continuous_inventory_summary_packet ?p ?x ?w0] =>
        destruct (push_summary_spec p x w0) as [Hr Hc]
    end.
    simpl in *. rewrite Hr, Hc, count_summaries_app, count_summaries_summary.
    split; [done | lia]. }
  destruct (decide _).
  { destruct w as [rd dev cs]. apply (Hstop rd). }
  destruct (first_stop_condition _ _); [apply Hstop|].
  unfold bind.
  destruct (continue_continuous_inventory_runs w) as [Hstate Hcount].
  destruct (continue_continuous_inventory w) as [r1 w1]. simpl in *.
  destruct (error r1).
  - right.
    destruct (handle_continuous_inventory_error_ends r1 packet w1) as [Hs Hc].
    simpl in *. split; [done | by rewrite Hc, Hcount].
  - by left.
Qed.

Lemma handle_packet_runs_or_ends packet (w : World D) :
  runs_or_ends w (snd (handle_packet packet w)).
Proof.
  unfold handle_packet, bind, get_state. simpl.
  destruct (decide _); [| apply runs_or_ends_refl].
  destruct (decide _); [by left|].
  destruct (decide _); [| apply runs_or_ends_refl].
  unfold handle_inventory_round_summary, bind.
  destruct (record_round_summary_runs packet w) as [Hstate Hcalls].
  destruct (record_round_summary packet w) as [r w1]. simpl in *.
  destruct (stop_or_continue_runs_or_ends packet r w1) as [[Hs Hc] | [Hs Hc]];
    [left | right]; rewrite Hs, Hc, Hcalls; by rewrite ?Hstate.
Qed.

Lemma fifo_data_loop_runs_or_ends packets (w : World D) :
  runs_or_ends w (snd (fifo_data_loop packets w)).
Proof.
  revert w. induction packets as [| packet rest IH]; intros w; simpl;
    [apply runs_or_ends_refl|].
  destruct (negb _); [apply runs_or_ends_refl|].
  unfold bind.
  pose proof (handle_packet_runs_or_ends packet w) as Hone.
  destruct (handle_packet packet w) as [[] w1]. simpl in *.
  destruct Hone as [[Hs Hc] | [Hs Hc]].
  - destruct (IH w1) as [[Hs' Hc'] | [Hs' Hc']]; [left | right];
      rewrite Hs', Hc', Hc; by rewrite ?Hs.
  - rewrite (fifo_data_loop_idle rest w1 Hs). by right.
Qed.

(** X14.  [fifo_data_handler] publishes a continuous-inventory summary
    exactly when it ends the session: whatever the packets in the buffer, it
    inserts one summary event if it takes the session out of a running state
    into [InvIdle], and none otherwise; it never inserts two. *)
Theorem one_summary_when_session_ends packets (w : World D) :
  let w' := snd (fifo_data_handler packets w) in
  count_summaries (calls w') =
    (count_summaries (calls w)
     + if decide (state (inventory_state (reader w)) <> InvIdle /\
                  state (inventory_state (reader w')) = InvIdle)
       then 1 else 0)%nat.
Proof.
  unfold fifo_data_handler, bind, call, ret.
  pose proof (fifo_data_loop_runs_or_ends packets w) as Hloop.
  pose proof (fifo_data_loop_idle packets w) as Hidle.
  destruct (fifo_data_loop packets w) as [[] w1]. simpl in *.
  destruct (perform _ (device w1)) as [rep dev]. simpl.
  rewrite count_summaries_app.
  rewrite count_summaries_push_back.
  destruct Hloop as [[Hs Hc] | [Hs Hc]]; rewrite Hs, Hc.
  - rewrite decide_False by (by intros [? ?]). lia.
  - destruct (decide (state (inventory_state (reader w)) = InvIdle)) as [Hi | Hr].
    + specialize (Hidle Hi). injection Hidle as ->. lia.
    + rewrite decide_True by done. lia.
Qed.

(** *** Stop conditions are respected *)

Lemma count_run_inventory_queue delta :
  Forall is_queue_or_event delta -> count_run_inventory delta = 0%nat.
Proof.
  unfold count_run_inventory.
  induction 1 as [| call delta Hq _ IH]; [done|].
  rewrite filter_cons_False; [done|]. destruct call; simpl in *; tauto.
Qed.

Lemma extends_queue_no_round (w w' : World D) :
  extends is_queue_or_event w w' ->
  count_run_inventory (calls w') = count_run_inventory (calls w).
Proof.
  intros (delta & -> & Hq).
  rewrite count_run_inventory_app, (count_run_inventory_queue delta Hq). lia.
Qed.

(** X15.  The stop conditions are respected: when a packet is handled in a
    session that already has a stop reason, or in which, once the packet's
    round summary is recorded, one of the stop conditions holds (rounds, tags
    or duration bound reached, or a stop requested by the host), no
    inventory round is started, whatever the reason in the summary. *)
Theorem no_round_after_stop_condition packet (w : World D) :
  let w1 := snd (record_round_summary packet w) in
  stop_reason (inventory_state (reader w)) <> SRNone \/
  first_stop_condition (reader w1) (us_counter packet) <> None ->
  count_run_inventory (calls (snd (handle_packet packet w)))
  = count_run_inventory (calls w).
Proof.
  intros w1 Hstop.
  unfold handle_packet, bind, get_state. simpl.
  destruct (decide _); [| done].
  destruct (decide _); [done|].
  destruct (decide _); [| done].
  unfold handle_inventory_round_summary, bind.
  assert (Hrec : calls w1 = calls w /\
                 stop_reason (inventory_state (reader w1))
                 = stop_reason (inventory_state (reader w))).
  { unfold w1, record_round_summary, classify_reason, bind, modify_state,
      get_state, ret.
    destruct (irs_reason _); simpl; by split. }
  destruct Hrec as [Hcalls Hreason]. subst w1.
  destruct (record_round_summary packet w) as [r w1]. simpl in *.
  rewrite <- Hcalls. apply extends_queue_no_round.
  unfold stop_or_continue.
  destruct (error r); [apply handle_continuous_inventory_error_extends|].
  unfold bind at 1. rewrite check_stop_conditions_spec.
  assert (Hidle : forall rd,
            extends is_queue_or_event w1
              (snd ((modify_state (set_state InvIdle) ;;
                     push_continuous_inventory_summary_packet packet r)
                      (mkWorld rd (device w1) (calls w1))))).
  { intros rd. unfold bind, modify_state. simpl.
    match goal with
    | |- context [push_continuous_inventory_summary_packet ?p ?x ?w0] =>
        destruct (push_summary_extends x p w0) as (delta & Hc & Hq)
    end.
    by exists delta. }
  destruct (decide _) as [Hset | Hnone].
  { destruct w1 as [rd dev cs]. apply (Hidle rd). }
  destruct (first_stop_condition _ _); [apply Hidle|].
  destruct Hstop as [Hstop | Hstop]; [| done].
  destruct Hnone. by rewrite Hreason.
Qed.

(** *** start_inventory *)

(** X16.  [start_inventory] writes the round's target, the antenna and the
    RF mode into the reader before anything that can fail: when no op is
    running, the reader holds the three values on return whatever the device
    answers, a failed [set_rf_mode], ramp or round start included. *)
Theorem start_inventory_writes_settings_first a m p c c2 s ro (w : World D) :
  is_op_currently_running (device w) = false ->
  let w' := snd (start_inventory a m p c c2 s ro w) in
  inv_target (inventory_state (reader w')) = target c /\
  antenna (inventory_params (reader w')) = a /\
  rf_mode (inventory_params (reader w')) = m.
Proof.
  intros Hrun. cbv zeta.
  assert (Hall : round_settings (reader (snd (start_inventory a m p c c2 s ro w)))
                 = (target c, a, m)).
  { unfold start_inventory. unfold bind at 1. unfold query at 1. rewrite Hrun.
    unfold bind at 1 2, modify_state, modify_params. simpl.
    match goal with
    | |- round_settings (reader (snd (?rest ?w0))) = _ =>
        assert (Hkeeps : keeps round_settings rest) by
          (repeat first [ apply run_inventory_rerun_keeps | apply reader_ramp_keeps
                        | keeps_step ]; done);
        rewrite (Hkeeps w0)
    end.
    simpl. by destruct (reader w) as [? [] []]. }
  unfold round_settings in Hall. by injection Hall.
Qed.

(** *** continuous_inventory_lbt *)

Lemma call_spec c (w : World D) :
  reader (snd (call c w)) = reader w /\ calls (snd (call c w)) = calls w ++ [c].
Proof. unfold call. by destruct (perform c (device w)). Qed.




(** *** cw_test *)

(** X18.  With the carrier already on, [cw_test] only sets the RF mode: it
    returns the result of [set_rf_mode], makes no other call and leaves the
    reader as it was; the antenna, power and frequency asked for, and
    [remain_on], have no effect. *)
Theorem cw_test_carrier_already_on a m p f ro (w : World D) :
  error (reply_result (fst (perform (set_rf_mode m) (device w)))) = false ->
  get_cw_is_on (snd (perform (set_rf_mode m) (device w))) = true ->
  let after := cw_test a m p f ro w in
  fst after = reply_result (fst (perform (set_rf_mode m) (device w))) /\
  reader (snd after) = reader w /\
  calls (snd after) = calls w ++ [set_rf_mode m].
Proof.
  intros Hok Hcw. cbv zeta.
  unfold cw_test, bind, query, op, bind, call, ret. simpl.
  destruct (perform (set_rf_mode m) (device w)) as [rep dev]. simpl in *.
  rewrite Hok. simpl. by rewrite Hcw.
Qed.

(** X19.  [cw_test] is no part of a session: whatever the device answers it
    leaves the session state and the saved settings of the reader as they
    were, it starts no inventory round and publishes no packet, and with
    [remain_on] the carrier ramp it makes has the regulatory timers
    disabled. *)
Theorem cw_test_outside_session a m p f ro (w : World D) :
  let w' := snd (cw_test a m p f ro w) in
  inventory_state (reader w') = inventory_state (reader w) /\
  inventory_params (reader w') = inventory_params (reader w) /\
  extends (fun c => is_ramp_call c /\ (ro = true -> ramps_without_timers c))
    w w'.
Proof.
  cbv zeta.
  assert (Hkeeps : keeps (D:=D)
                     (fun r => (inventory_state r, inventory_params r))
                     (cw_test a m p f ro)).
  { unfold cw_test.
    repeat first [ apply put_stored_analog_rx_fields_keeps; done | keeps_step ]. }
  specialize (Hkeeps w). simpl in Hkeeps. injection Hkeeps as -> ->.
  split; [done|]. split; [done|].
  assert (Hsteps : steps (D:=D)
                     (fun c => is_ramp_call c /\
                               (ro = true -> ramps_without_timers c))
                     (cw_test a m p f ro)).
  { unfold cw_test. destruct ro;
      repeat first
        [ apply steps_ret
        | apply steps_query
        | apply steps_put_stored_analog_rx_fields
        | apply steps_op;
            (split; [split; intros [] | intros Hro; first [exact I | reflexivity | discriminate]])
        | apply steps_call;
            (split; [split; intros [] | intros Hro; first [exact I | reflexivity | discriminate]])
        | apply steps_bind; [| intros ?]
        | match goal with
          | |- steps _ (if ?b then _ else _) => destruct b
          end ]. }
  by destruct (Hsteps w).
Qed.

(** X20.  The calls of [cw_test] when the carrier is off and the
    temperature measurement succeeds: the measured temperature is stored,
    the frequency is set only if it is non-zero, the frequency asked for
    (zero included) is what is stored as post-ramp variable, and the carrier
    is ramped with a configuration built from the measured temperature but
    with the temperature compensation decided from the temperature that was
    stored before; the only call that may follow the ramp is the read of the
    receiver gains. *)
Theorem cw_test_ramp_calls a m p f ro (w : World D) :
  let first := perform (set_rf_mode m) (device w) in
  let second := perform measure_and_read_adc_temperature (snd first) in
  let stored := retrieve_adc_temperature (device w) in
  let measured := hd stored (reply_data (fst second)) in
  error (reply_result (fst first)) = false ->
  get_cw_is_on (snd first) = false ->
  error (reply_result (fst second)) = false ->
  exists d droop rest,
    calls (snd (cw_test a m p f ro w)) =
      calls w
      ++ [set_rf_mode m; measure_and_read_adc_temperature;
          store_adc_temperature measured]
      ++ (if decide (f <> 0) then [set_single_frequency f] else [])
      ++ [store_pre_ramp_variables a; store_post_ramp_variables p f;
          cw_on (let cw_config :=
                   rf_power_build_cw_configs a m p measured
                     (temperature_compensation_enabled stored) d in
                 if ro then set_timer regulatory_timers_disabled cw_config
                 else cw_config) droop]
      ++ rest /\
    (rest = [] \/ rest = [read_rx_gain_control]).
Proof.
  cbv zeta. intros Hok Hcw Hmeasured.
  unfold cw_test, bind, query, op, bind, call, ret, put_stored_analog_rx_fields.
  simpl.
  destruct (perform (set_rf_mode m) (device w)) as [rep1 d1]. simpl in *.
  rewrite Hok. simpl. rewrite Hcw. simpl.
  destruct (perform measure_and_read_adc_temperature d1) as [rep2 d2].
  simpl in *. rewrite Hmeasured. simpl.
  destruct (perform (store_adc_temperature _) d2) as [rep3 d3]. simpl.
  destruct (decide (f <> 0)); simpl;
    repeat (match goal with
            | |- context [perform ?c ?d] =>
                lazymatch d with
                | context [perform] => fail
                | _ => destruct (perform c d) as [? ?]
                end
            | |- context [if error ?r then _ else _] => destruct (error r)
            end; simpl);
    do 3 eexists; rewrite <- ?app_assoc; simpl;
    (split; [reflexivity | auto]).
Qed.

(** *** Summaries and sessions *)

Lemma continuous_inventory_extends a m p c1 c2 s sc dt ro (w : World D) :
  extends (fun c => ~ is_queue_or_event c) w
    (snd (continuous_inventory a m p c1 c2 s sc dt ro w)).
Proof.
  unfold continuous_inventory.
  destruct sc, c1, c2; try apply extends_refl.
  unfold bind at 1 2 3 4, modify_state at 1, modify_params, query. simpl.
  match goal with
  | |- context [start_inventory ?a' ?m' ?p' ?c1' ?c2' ?s' ?ro' ?w0] =>
      destruct (start_inventory_steps a' m' p' c1' c2' s' ro' w0)
        as [_ (rest & Hrest & Hcalls)];
      destruct (start_inventory a' m' p' c1' c2' s' ro' w0) as [r w1]
  end.
  simpl in *. exists rest. unfold bind, ret, modify_state.
  split; [by destruct (error r)|].
  eapply Forall_impl; [exact Hcalls|]. by intros c [Hc _].
Qed.

Lemma extends_no_summary (w w' : World D) :
  extends (fun c => ~ is_queue_or_event c) w w' ->
  count_summaries (calls w') = count_summaries (calls w).
Proof.
  intros (delta & -> & Hdelta).
  rewrite count_summaries_app, (count_summaries_none delta Hdelta). lia.
Qed.

Lemma open_sessions_le (w : World D) : (open_sessions w <= 1)%nat.
Proof. unfold open_sessions. destruct (decide _); lia. Qed.

Lemma open_sessions_state (w w' : World D) :
  state (inventory_state (reader w')) = state (inventory_state (reader w)) ->
  open_sessions w' = open_sessions w.
Proof. unfold open_sessions. by intros ->. Qed.

Lemma fifo_data_handler_potential packets (w : World D) :
  let w' := snd (fifo_data_handler packets w) in
  (count_summaries (calls w') + open_sessions w'
   = count_summaries (calls w) + open_sessions w)%nat.
Proof.
  unfold fifo_data_handler, bind, call, ret.
  pose proof (fifo_data_loop_runs_or_ends packets w) as Hloop.
  pose proof (fifo_data_loop_idle packets w) as Hidle.
  destruct (fifo_data_loop packets w) as [[] w1]. simpl in *.
  destruct (perform _ (device w1)) as [rep dev]. simpl.
  rewrite count_summaries_app, count_summaries_push_back.
  unfold open_sessions in *. simpl.
  destruct Hloop as [[Hs Hc] | [Hs Hc]]; rewrite Hs, Hc.
  - lia.
  - rewrite decide_True by done.
    destruct (decide (state (inventory_state (reader w)) = InvIdle)) as [Hi | Hr];
      [| lia].
    specialize (Hidle Hi). injection Hidle as ->. lia.
Qed.

Lemma run_api_potential c (w : World D) :
  (count_summaries (calls (run_api c w)) + open_sessions (run_api c w)
   <= count_summaries (calls w) + open_sessions w
      + (if starts_session c then 1 else 0))%nat.
Proof.
  destruct c as [| a m p c1 c2 s sc dt ro | a m p c1 c2 s ro | packets |]; simpl.
  - unfold init, bind, modify_state.
    destruct (call_spec event_fifo_queue_init w) as [_ Hc].
    destruct (call event_fifo_queue_init w) as [rep w1]. simpl in *.
    rewrite Hc, count_summaries_app. unfold open_sessions at 1. simpl.
    change (count_summaries [event_fifo_queue_init]) with 0%nat. lia.
  - rewrite (extends_no_summary _ _
               (continuous_inventory_extends a m p c1 c2 s sc dt ro w)).
    pose proof (open_sessions_le
                  (snd (continuous_inventory a m p c1 c2 s sc dt ro w))).
    lia.
  - unfold inventory.
    destruct (start_inventory_steps a m p c1 c2 s ro w)
      as [Hkept (rest & Hrest & Hcalls)].
    apply session_kept_fields in Hkept as [Hstate _].
    rewrite (open_sessions_state _ _ Hstate), Hrest, count_summaries_app.
    rewrite (count_summaries_none rest); [lia|].
    eapply Forall_impl; [exact Hcalls|]. by intros c [Hc _].
  - rewrite (fifo_data_handler_potential packets w). lia.
  - assert (Hopen : open_sessions (snd (stop_transmitting w)) = open_sessions w).
    { unfold open_sessions. rewrite stop_transmitting_reader.
      destruct (decide (state (inventory_state (reader w)) <> InvIdle)) as [Hr | Hi].
      - rewrite (decide_False (P := state (inventory_state (reader w)) = InvIdle))
          by done.
        destruct (decide _) as [Hbad |]; [| done].
        destruct (reader w) as [? ? []]. simpl in Hbad. discriminate.
      - by destruct (decide (state (inventory_state (reader w)) = InvIdle)). }
    rewrite Hopen.
    unfold stop_transmitting, bind, get_state, modify_state, ret. simpl.
    destruct (decide _); simpl;
      match goal with
      | |- context [op stop_op_and_ramp_down ?w0] =>
          destruct (op_calls stop_op_and_ramp_down w0) as [-> _]
      end;
      simpl; rewrite count_summaries_app;
      change (count_summaries [stop_op_and_ramp_down]) with 0%nat; lia.
Qed.

(** X21.  The reader publishes at most one continuous-inventory summary for
    each session: over any sequence of calls of [init],
    [continuous_inventory], [inventory], [fifo_data_handler] and
    [stop_transmitting], on any device and from any state, the summaries
    inserted plus the session still running at the end are at most the
    sessions started by the sequence plus the one that was running at the
    beginning. *)
Theorem summaries_bounded_by_sessions cs (w : World D) :
  (count_summaries (calls (run_apis cs w)) + open_sessions (run_apis cs w)
   <= count_summaries (calls w) + open_sessions w + count_sessions cs)%nat.
Proof.
  revert w. induction cs as [| c cs IH]; intros w; simpl; [lia|].
  specialize (IH (run_api c w)). pose proof (run_api_potential c w) as Hc.
  unfold count_sessions in *. simpl.
  destruct (starts_session c); simpl; lia.
Qed.

(** *** Rounds outside a session *)

Lemma fifo_data_handler_idle packets (w : World D) :
  state (inventory_state (reader w)) = InvIdle ->
  let w' := snd (fifo_data_handler packets w) in
  reader w' = reader w /\
  calls w' = calls w ++ [list_node_push_back (fifo_data packets)].
Proof.
  intros Hidle. unfold fifo_data_handler, bind, ret.
  rewrite (fifo_data_loop_idle packets w Hidle).
  destruct (call_spec (list_node_push_back (fifo_data packets)) w) as [Hr Hc].
  by destruct (call _ w).
Qed.

(** X22.  A round started with [inventory] while no session is running is
    not continued: the reader stays idle, and when the packets of the round
    arrive, its summary included, [fifo_data_handler] only hands the buffer
    to the queue, without starting a round or publishing a summary. *)
Theorem inventory_round_is_not_continued a m p c c2 s ro packets (w : World D) :
  state (inventory_state (reader w)) = InvIdle ->
  let w1 := snd (inventory a m p c c2 s ro w) in
  let w2 := snd (fifo_data_handler packets w1) in
  state (inventory_state (reader w1)) = InvIdle /\
  reader w2 = reader w1 /\
  calls w2 = calls w1 ++ [list_node_push_back (fifo_data packets)].
Proof.
  intros Hidle. cbv zeta. unfold inventory.
  pose proof (start_inventory_kept a m p c c2 s ro w) as Hkept.
  apply session_kept_fields in Hkept as [Hstate _].
  rewrite Hidle in Hstate. split; [done|].
  by apply fifo_data_handler_idle.
Qed.

(** X23.  [init] drops a running session silently: whatever the state
    of the reader, after [init] the session state is all zero and idle, the
    saved settings are untouched, the one call made is the initialisation of
    the queue (no ramp down, no summary), and the packets that arrive
    afterwards are only queued. *)
Theorem init_drops_session packets (w : World D) :
  let w1 := snd (init w) in
  let w2 := snd (fifo_data_handler packets w1) in
  inventory_state (reader w1) = inventory_state_zero /\
  inventory_params (reader w1) = inventory_params (reader w) /\
  calls w1 = calls w ++ [event_fifo_queue_init] /\
  reader w2 = reader w1 /\
  calls w2 = calls w1 ++ [list_node_push_back (fifo_data packets)].
Proof.
  cbv zeta.
  assert (Hinit : inventory_state (reader (snd (init w))) = inventory_state_zero /\
                  inventory_params (reader (snd (init w)))
                  = inventory_params (reader w) /\
                  calls (snd (init w)) = calls w ++ [event_fifo_queue_init]).
  { unfold init, bind, modify_state.
    destruct (call_spec event_fifo_queue_init w) as [Hr Hc].
    destruct (call event_fifo_queue_init w) as [rep w1]. simpl in *.
    by rewrite Hr, Hc. }
  destruct Hinit as (Hstate & Hparams & Hcalls).
  repeat split; try done; apply fifo_data_handler_idle; by rewrite Hstate.
Qed.

End WithDriver.

Lemma other_packets_pass_through_witness :
  let w := Sim.session_started Sim.idle_device
             {| max_number_of_rounds := 0; max_number_of_tags := 1;
                max_duration_us := 0 |} in
  let tag := {| packet_type := TagRead; us_counter := 500;
                static_data := other_packet_data; dynamic_data := [];
                is_valid := true |} in
  let w' := snd (handle_packet tag w) in
  tag_count (inventory_state (reader w')) = 1 /\
  state (inventory_state (reader w')) = InvOngoing /\
  calls w' = calls w.
Proof.
  intros w tag w'. unfold w'.
  rewrite (@other_packets_pass_through Sim.Device Sim.sim_driver tag w) by done.
  by vm_compute.
Defined.

Lemma invalid_packet_ends_processing_witness :
  let w := Sim.session_started Sim.idle_device (Sim.stop_after_rounds 1) in
  let bad := {| packet_type := InvalidPacket; us_counter := 0;
                static_data := other_packet_data; dynamic_data := [];
                is_valid := false |} in
  let done := Sim.round_summary_packet 1000 InventorySummaryDone 3 0 0 in
  let after := snd (fifo_data_handler ([] ++ bad :: [done]) w) in
  reader after = reader w /\
  calls after = calls w ++ [list_node_push_back (fifo_data [bad; done])].
Proof.
  intros w bad done after.
  apply (@invalid_packet_ends_processing Sim.Device Sim.sim_driver [] bad [done] w).
  reflexivity.
Defined.

Lemma elapsed_us_across_wrap_witness :
  elapsed_us 4294967000 (wrap32 (4294967000 + 2000000)) = 2000000.
Proof.
  apply elapsed_us_across_wrap; unfold is_uint32, UINT32_MAX; lia.
Defined.

Lemma no_round_after_stop_condition_witness :
  count_run_inventory
    (calls (snd (handle_packet
                   (Sim.round_summary_packet 900 InventorySummaryDone 5 0 0)
                   (Sim.session_started Sim.idle_device (Sim.stop_after_rounds 1)))))
  = count_run_inventory
      (calls (Sim.session_started Sim.idle_device (Sim.stop_after_rounds 1))).
Proof.
  apply (@no_round_after_stop_condition _ Sim.sim_driver).
  right. by vm_compute.
Defined.

Lemma start_inventory_writes_settings_first_witness :
  let w' := snd (start_inventory 2 241 2500
                   (set_target 1 Sim.example_config) Sim.example_config_2
                   false false (Sim.world_of Sim.idle_device)) in
  inv_target (inventory_state (reader w')) = 1 /\
  antenna (inventory_params (reader w')) = 2 /\
  rf_mode (inventory_params (reader w')) = 241.
Proof.
  apply (@start_inventory_writes_settings_first _ Sim.sim_driver).
  reflexivity.
Defined.

Lemma handler_target_rule_witness :
  let w := Sim.session_started Sim.idle_device (Sim.stop_after_rounds 3) in
  let packets := [Sim.round_summary_packet 900 InventorySummaryDone 5 0 0] in
  target_valid (session_target (reader (snd (fifo_data_handler packets w)))).
Proof.
  intros w packets.
  apply (proj2 (@handler_target_rule _ Sim.sim_driver packets w)).
  left. reflexivity.
Defined.

Lemma remain_on_ramps_without_timers_witness :
  let carrier_off :=
    {| Sim.sim_op_running := false; Sim.sim_cw_is_on := false;
       Sim.sim_time := 0; Sim.sim_free_nodes := 1;
       Sim.sim_run_inventory_replies := [];
       Sim.sim_cw_on_replies := [] |} in
  let count_cw_on l :=
    length (List.filter (fun c => match c with cw_on _ _ => true | _ => false end) l) in
  let w0 := Sim.world_of carrier_off in
  let w1 := snd (continuous_inventory 1 103 3000 (Some Sim.example_config)
                   (Some Sim.example_config_2) false
                   (Some Sim.no_stop_conditions) false true w0) in
  let w2 := mkWorld (reader w1) carrier_off (calls w1) in
  let packets := [Sim.round_summary_packet 900 InventorySummaryDone 5 0 0] in
  let w3 := snd (fifo_data_handler packets w2) in
  (extends ramps_without_timers w0 w1 /\ count_cw_on (calls w1) = 1%nat) /\
  (extends ramps_without_timers w2 w3 /\ count_cw_on (calls w3) = 2%nat).
Proof.
  intros carrier_off count_cw_on w0 w1 w2 packets w3.
  split; (split; [| reflexivity]).
  - apply (proj1 (@remain_on_ramps_without_timers _ Sim.sim_driver)).
  - apply (proj2 (@remain_on_ramps_without_timers _ Sim.sim_driver) packets w2).
    reflexivity.
Defined.


Lemma cw_test_carrier_already_on_witness :
  let w := Sim.world_of Sim.idle_device in
  let after := cw_test 2 241 2500 865700 true w in
  fst after = make_ex10_success /\
  reader (snd after) = reader w /\
  calls (snd after) = [set_rf_mode 241].
Proof.
  apply (@cw_test_carrier_already_on _ Sim.sim_driver 2 241 2500 865700 true
           (Sim.world_of Sim.idle_device)); reflexivity.
Defined.

Lemma cw_test_ramp_calls_witness :
  let w := Sim.world_of
             {| Sim.sim_op_running := false; Sim.sim_cw_is_on := false;
                Sim.sim_time := 0; Sim.sim_free_nodes := 1;
                Sim.sim_run_inventory_replies := [];
                Sim.sim_cw_on_replies := [] |} in
  exists d droop rest,
    calls (snd (cw_test 2 241 2500 865700 true w)) =
      calls w
      ++ [set_rf_mode 241; measure_and_read_adc_temperature;
          store_adc_temperature 500]
      ++ [set_single_frequency 865700]
      ++ [store_pre_ramp_variables 2; store_post_ramp_variables 2500 865700;
          cw_on (set_timer regulatory_timers_disabled
                   (rf_power_build_cw_configs 2 241 2500 500 false d)) droop]
      ++ rest /\
    (rest = [] \/ rest = [read_rx_gain_control]).
Proof.
  intros w.
  apply (@cw_test_ramp_calls _ Sim.sim_driver 2 241 2500 865700 true w);
    reflexivity.
Defined.

Lemma inventory_round_is_not_continued_witness :
  let w := Sim.world_of Sim.idle_device in
  let packets := [Sim.round_summary_packet 900 InventorySummaryDone 5 0 0] in
  let w1 := snd (inventory 1 103 3000 Sim.example_config Sim.example_config_2
                   false false w) in
  let w2 := snd (fifo_data_handler packets w1) in
  state (inventory_state (reader w1)) = InvIdle /\
  reader w2 = reader w1 /\
  calls w2 = calls w1 ++ [list_node_push_back (fifo_data packets)].
Proof.
  intros w packets.
  apply (@inventory_round_is_not_continued _ Sim.sim_driver 1 103 3000
           Sim.example_config Sim.example_config_2 false false packets w).
  reflexivity.
Defined.

End ReaderMore.

(* ================================================================== *)
(** ** Properties of the inventory sequence use case *)

Module InventorySequenceProofs.

Import Reader InventorySequence InventorySequenceObservations.

Section WithDriver.

Context {D : Type} `{UseCaseDriver D}.

Lemma use_case_call_spec c (w : UseCaseWorld D) :
  fst (use_case_call c w) = fst (use_case_perform c (use_case_device w)) /\
  sequence_state (snd (use_case_call c w)) = sequence_state w /\
  use_case_calls (snd (use_case_call c w)) = use_case_calls w ++ [c].
Proof. unfold use_case_call. by destruct (use_case_perform c _). Qed.

Lemma sequence_of_iter st array v :
  sequence_of st array -> sequence_of (set_inventory_round_iter v st) array.
Proof. by intros (seq & ? & ? & ? & ?); exists seq. Qed.

Lemma get_basic_in_range st array i :
  sequence_of st array -> 0 <= i < Z.of_nat (length array) ->
  get_basic_inventory_round_config st i = Some (Some i) /\
  round_at st (Some i) = array !! Z.to_nat i.
Proof.
  intros (seq & Hseq & Htype & Harray & Hcount) Hi.
  unfold get_basic_inventory_round_config, round_at. rewrite Hseq. simpl.
  rewrite decide_False by (by rewrite Htype; intros []).
  rewrite Harray. simpl. split; [| done].
  by destruct (Z.geb_spec i (count seq)); [lia|].
Qed.

Lemma get_basic_past_end st array i :
  sequence_of st array -> Z.of_nat (length array) <= i ->
  get_basic_inventory_round_config st i = Some None.
Proof.
  intros (seq & Hseq & Htype & Harray & Hcount) Hi.
  unfold get_basic_inventory_round_config. rewrite Hseq. simpl.
  rewrite decide_False by (by rewrite Htype; intros []).
  by destruct (Z.geb_spec i (count seq)); [| lia].
Qed.

Lemma lookup_in_range (array : list InventoryRoundConfigBasic) i round :
  0 <= i -> array !! Z.to_nat i = Some round -> 0 <= i < Z.of_nat (length array).
Proof. intros Hi Hround. apply lookup_lt_Some in Hround. lia. Qed.

(** X24.  A round interrupted by the regulatory timers, or whose summary
    says that the transmitter was not ramped up, is started again: the
    position in the sequence is unchanged and the one call made is
    [start_inventory] with the antenna, RF mode, power and select flag of
    the current round and its configuration, in which [initial_q] and the
    two starting counts are those of the summary; its result is returned. *)
Theorem regulatory_summary_restarts_round round_summary array round
    (w : UseCaseWorld D) :
  let st := sequence_state w in
  let restart :=
    inventory_start_inventory (ircb_antenna round) (ircb_rf_mode round)
      (ircb_tx_power_cdbm round)
      (set_initial_q (irs_final_q round_summary) (ircb_inventory_config round))
      (set_starting_counts (irs_min_q_count round_summary)
         (irs_queries_since_valid_epc_count round_summary)
         (ircb_inventory_config_2 round))
      (ircb_send_selects round) in
  sequence_of st array ->
  0 <= inventory_round_iter st ->
  array !! Z.to_nat (inventory_round_iter st) = Some round ->
  restarts_round (irs_reason round_summary) ->
  exists w',
    continue_inventory_sequence round_summary w
    = Some (fst (use_case_perform restart (use_case_device w)), w') /\
    sequence_state w' = st /\
    use_case_calls w' = use_case_calls w ++ [restart].
Proof.
  intros st restart Hseq Hiter Hround Hreason.
  destruct (get_basic_in_range st array _ Hseq
              (lookup_in_range array _ round Hiter Hround)) as [Hget Hat].
  destruct (use_case_call_spec restart w) as (Hres & Hstate & Hcalls).
  exists (snd (use_case_call restart w)).
  split; [| by split].
  unfold continue_inventory_sequence. fold st. rewrite Hget. simpl.
  unfold round_at in Hat. simpl in Hat.
  destruct Hreason as [-> | ->]; rewrite Hat, Hround; simpl;
    fold restart; rewrite <- Hres; by destruct (use_case_call restart w).
Qed.

Lemma wrap_size_succ i : 0 <= i < SIZE_MAX -> wrap_size (i + 1) = i + 1.
Proof. intros Hi. unfold wrap_size. apply Z.mod_small. lia. Qed.

Lemma continue_past_last_round round_summary array (w : UseCaseWorld D) :
  let st := sequence_state w in
  sequence_of st array ->
  completes_round (irs_reason round_summary) ->
  0 <= inventory_round_iter st < SIZE_MAX ->
  Z.of_nat (length array) <= inventory_round_iter st + 1 ->
  continue_inventory_sequence round_summary w
  = Some (make_ex10_success,
          mkUseCaseWorld
            (set_inventory_round_iter (inventory_round_iter st + 1) st)
            (use_case_device w) (use_case_calls w)).
Proof.
  intros st Hseq Hreason Hiter Hlast.
  assert (Hget : exists pointer,
            get_basic_inventory_round_config st (inventory_round_iter st)
            = Some pointer).
  { destruct Hseq as (seq & Hseq & _).
    unfold get_basic_inventory_round_config. rewrite Hseq. simpl.
    repeat case_match; eauto. }
  destruct Hget as [pointer Hget].
  unfold continue_inventory_sequence. fold st. rewrite Hget. simpl.
  rewrite (wrap_size_succ _ Hiter).
  pose proof (get_basic_past_end _ array (inventory_round_iter st + 1)
                (sequence_of_iter st array (inventory_round_iter st + 1) Hseq)
                Hlast) as Hnext.
  simpl in Hnext.
  destruct Hreason as [-> | ->]; by rewrite Hnext.
Qed.

(** X25.  When the last round of the sequence is done (or stopped by the
    host), nothing is started and nothing is called: the position moves past
    the end of the sequence and the result is success. *)
Theorem sequence_end_is_silent round_summary array (w : UseCaseWorld D) :
  let st := sequence_state w in
  sequence_of st array ->
  completes_round (irs_reason round_summary) ->
  0 <= inventory_round_iter st < SIZE_MAX ->
  Z.of_nat (length array) <= inventory_round_iter st + 1 ->
  continue_inventory_sequence round_summary w
  = Some (make_ex10_success,
          mkUseCaseWorld
            (set_inventory_round_iter (inventory_round_iter st + 1) st)
            (use_case_device w) (use_case_calls w)).
Proof. apply continue_past_last_round. Qed.

Lemma continue_starts_next_round round_summary array round round_next
    (w : UseCaseWorld D) :
  let st := sequence_state w in
  let i := inventory_round_iter st in
  let ramp_down :=
    if decide (ircb_tx_power_cdbm round <> ircb_tx_power_cdbm round_next)
    then [rf_power_stop_op_and_ramp_down] else [] in
  let start :=
    inventory_start_inventory (ircb_antenna round) (ircb_rf_mode round_next)
      (ircb_tx_power_cdbm round_next) (ircb_inventory_config round_next)
      (set_starting_counts 0 0 (ircb_inventory_config_2 round_next))
      (ircb_send_selects round_next) in
  sequence_of st array ->
  completes_round (irs_reason round_summary) ->
  0 <= i < SIZE_MAX ->
  array !! Z.to_nat i = Some round ->
  array !! Z.to_nat (i + 1) = Some round_next ->
  (ircb_tx_power_cdbm round <> ircb_tx_power_cdbm round_next ->
   error (fst (use_case_perform rf_power_stop_op_and_ramp_down
                 (use_case_device w))) = false) ->
  exists r w',
    continue_inventory_sequence round_summary w = Some (r, w') /\
    sequence_state w' = set_inventory_round_iter (i + 1) st /\
    use_case_calls w' = use_case_calls w ++ ramp_down ++ [start] /\
    exists c d, r = fst (use_case_perform c d).
Proof.
  intros st i ramp_down start Hseq Hreason Hiter Hround Hnext Hramp.
  destruct (get_basic_in_range st array i Hseq
              (lookup_in_range array i round ltac:(lia) Hround)) as [Hget Hat].
  pose proof (sequence_of_iter st array (i + 1) Hseq) as Hseq1.
  destruct (get_basic_in_range _ array (i + 1) Hseq1
              (lookup_in_range array (i + 1) round_next ltac:(lia) Hnext))
    as [Hget1 Hat1].
  unfold round_at in Hat, Hat1. simpl in Hat, Hat1, Hget1.
  unfold continue_inventory_sequence. fold st. fold i. rewrite Hget. simpl.
  rewrite (wrap_size_succ i Hiter).
  assert (Hbody :
    forall w0 : UseCaseWorld D,
      w0 = mkUseCaseWorld (set_inventory_round_iter (i + 1) st)
             (use_case_device w) (use_case_calls w) ->
      exists r w',
        (if decide (ircb_tx_power_cdbm round <> ircb_tx_power_cdbm round_next)
         then
           let (ex10_result, w1) :=
             use_case_call rf_power_stop_op_and_ramp_down w0 in
           if error ex10_result then Some (ex10_result, w1)
           else Some (use_case_call start w1)
         else Some (use_case_call start w0)) = Some (r, w') /\
        sequence_state w' = set_inventory_round_iter (i + 1) st /\
        use_case_calls w' = use_case_calls w ++ ramp_down ++ [start] /\
        exists c d, r = fst (use_case_perform c d)).
  { intros w0 ->. unfold ramp_down. destruct (decide _) as [Hdiff |].
    - destruct (use_case_call_spec rf_power_stop_op_and_ramp_down
                  (mkUseCaseWorld (set_inventory_round_iter (i + 1) st)
                     (use_case_device w) (use_case_calls w)))
        as (Hres & Hstate & Hcalls).
      destruct (use_case_call rf_power_stop_op_and_ramp_down _) as [r1 w1].
      simpl in *. rewrite Hres, (Hramp Hdiff).
      destruct (use_case_call_spec start w1) as (Hres2 & Hstate2 & Hcalls2).
      destruct (use_case_call start w1) as [r2 w2]. simpl in *.
      exists r2, w2. split; [done|]. split; [congruence|].
      split; [by rewrite Hcalls2, Hcalls, <- app_assoc | by eauto].
    - match goal with
      | |- context [use_case_call start ?w0] =>
          destruct (use_case_call_spec start w0) as (Hres2 & Hstate2 & Hcalls2);
          destruct (use_case_call start w0) as [r2 w2]
      end.
      simpl in *. exists r2, w2. repeat split; [done | done | by eauto]. }
  destruct Hreason as [-> | ->]; rewrite Hget1; simpl;
    rewrite Hat1, Hnext; simpl; rewrite Hat, Hround; simpl;
    by apply Hbody.
Qed.

(** X26.  When a round is done (or stopped by the host) and another one
    follows, the position moves on by one and the next round is started
    with its own RF mode, power, select flag and configuration, both
    starting counts reset to zero, but on the antenna of the round that has
    just finished.  The carrier is ramped down first exactly when the two
    rounds differ in power (a ramp down that succeeds). *)
Theorem next_round_started round_summary array round round_next
    (w : UseCaseWorld D) :
  let st := sequence_state w in
  let i := inventory_round_iter st in
  let ramp_down :=
    if decide (ircb_tx_power_cdbm round <> ircb_tx_power_cdbm round_next)
    then [rf_power_stop_op_and_ramp_down] else [] in
  let start :=
    inventory_start_inventory (ircb_antenna round) (ircb_rf_mode round_next)
      (ircb_tx_power_cdbm round_next) (ircb_inventory_config round_next)
      (set_starting_counts 0 0 (ircb_inventory_config_2 round_next))
      (ircb_send_selects round_next) in
  sequence_of st array ->
  completes_round (irs_reason round_summary) ->
  0 <= i < SIZE_MAX ->
  array !! Z.to_nat i = Some round ->
  array !! Z.to_nat (i + 1) = Some round_next ->
  (ircb_tx_power_cdbm round <> ircb_tx_power_cdbm round_next ->
   error (fst (use_case_perform rf_power_stop_op_and_ramp_down
                 (use_case_device w))) = false) ->
  exists r w',
    continue_inventory_sequence round_summary w = Some (r, w') /\
    sequence_state w' = set_inventory_round_iter (i + 1) st /\
    use_case_calls w' = use_case_calls w ++ ramp_down ++ [start].
Proof.
  intros st i ramp_down start Hseq Hreason Hiter Hround Hnext Hramp.
  destruct (continue_starts_next_round round_summary array round round_next w
              Hseq Hreason Hiter Hround Hnext Hramp)
    as (r & w' & Hcontinue & Hstate & Hcalls & _).
  by exists r, w'.
Qed.

(** X27.  When the next round needs another power and the ramp down
    fails, that error is returned and the next round is not started, but
    the position in the sequence has already moved on. *)
Theorem ramp_down_failure_skips_round round_summary array round round_next
    (w : UseCaseWorld D) :
  let st := sequence_state w in
  let i := inventory_round_iter st in
  let stopped := use_case_perform rf_power_stop_op_and_ramp_down
                   (use_case_device w) in
  sequence_of st array ->
  completes_round (irs_reason round_summary) ->
  0 <= i < SIZE_MAX ->
  array !! Z.to_nat i = Some round ->
  array !! Z.to_nat (i + 1) = Some round_next ->
  ircb_tx_power_cdbm round <> ircb_tx_power_cdbm round_next ->
  error (fst stopped) = true ->
  continue_inventory_sequence round_summary w
  = Some (fst stopped,
          mkUseCaseWorld (set_inventory_round_iter (i + 1) st) (snd stopped)
            (use_case_calls w ++ [rf_power_stop_op_and_ramp_down])).
Proof.
  intros st i stopped Hseq Hreason Hiter Hround Hnext Hpower Hfail.
  destruct (get_basic_in_range st array i Hseq
              (lookup_in_range array i round ltac:(lia) Hround)) as [Hget Hat].
  pose proof (sequence_of_iter st array (i + 1) Hseq) as Hseq1.
  destruct (get_basic_in_range _ array (i + 1) Hseq1
              (lookup_in_range array (i + 1) round_next ltac:(lia) Hnext))
    as [Hget1 Hat1].
  unfold round_at in Hat, Hat1. simpl in Hat, Hat1, Hget1.
  unfold continue_inventory_sequence. fold st. fold i. rewrite Hget. simpl.
  rewrite (wrap_size_succ i Hiter).
  destruct Hreason as [-> | ->]; rewrite Hget1; simpl;
    rewrite Hat1, Hnext; simpl; rewrite Hat, Hround; simpl;
    rewrite decide_True by done;
    unfold use_case_call; simpl; fold stopped;
    destruct stopped as [r1 d1]; simpl in *; by rewrite Hfail.
Qed.

(** X28.  With a well-formed sequence, [continue_inventory_sequence] reads
    through a null pointer in one case only: when a summary asks for the
    round to be started again (regulatory, or transmitter not ramped up)
    after the position has moved past the end of the sequence.  In every
    other case it returns. *)
Theorem continue_inventory_sequence_defined round_summary array
    (w : UseCaseWorld D) :
  let st := sequence_state w in
  sequence_of st array ->
  0 <= inventory_round_iter st < SIZE_MAX ->
  is_Some (continue_inventory_sequence round_summary w) <->
  (restarts_round (irs_reason round_summary) ->
   inventory_round_iter st < Z.of_nat (length array)).
Proof.
  intros st Hseq Hiter. set (i := inventory_round_iter st) in *.
  pose proof (sequence_of_iter st array (i + 1) Hseq) as Hseq1.
  assert (Hnext :
    (exists round_next,
       get_basic_inventory_round_config (set_inventory_round_iter (i + 1) st)
         (i + 1) = Some (Some (i + 1)) /\
       array !! Z.to_nat (i + 1) = Some round_next) \/
    get_basic_inventory_round_config (set_inventory_round_iter (i + 1) st)
      (i + 1) = Some None).
  { destruct (decide (i + 1 < Z.of_nat (length array))) as [Hin | Hout].
    - left.
      destruct (lookup_lt_is_Some_2 array (Z.to_nat (i + 1)) ltac:(lia))
        as [round_next Hround_next].
      exists round_next. split; [| done].
      by destruct (get_basic_in_range _ array (i + 1) Hseq1 ltac:(lia)).
    - right. apply (get_basic_past_end _ array (i + 1) Hseq1). lia. }
  destruct (decide (i < Z.of_nat (length array))) as [Hin | Hout].
  - destruct (lookup_lt_is_Some_2 array (Z.to_nat i) ltac:(lia))
      as [round Hround].
    destruct (get_basic_in_range st array i Hseq ltac:(lia)) as [Hget Hat].
    unfold round_at in Hat. simpl in Hat.
    split; [by intros _ _|]. intros _.
    unfold continue_inventory_sequence. fold st. fold i. rewrite Hget. simpl.
    rewrite (wrap_size_succ i Hiter).
    destruct (irs_reason round_summary); simpl; try (by eexists);
      try (rewrite Hat, Hround; simpl; by eexists).
    all: destruct Hnext as [(round_next & Hget1 & Hround_next) | Hget1];
      rewrite Hget1; simpl; [| by eexists].
    all: destruct Hseq as (seq & Hs & _ & Ha & _); rewrite Hs; simpl;
      rewrite Ha; simpl; rewrite Hround_next, Hround; simpl.
    all: destruct (decide _); [| by eexists].
    all: destruct (use_case_call rf_power_stop_op_and_ramp_down _) as [r1 w1].
    all: destruct (error r1); by eexists.
  - assert (Hget : get_basic_inventory_round_config st i = Some None)
      by (apply (get_basic_past_end st array i Hseq); lia).
    assert (Hget1 : get_basic_inventory_round_config
                      (set_inventory_round_iter (i + 1) st) (i + 1) = Some None)
      by (apply (get_basic_past_end _ array (i + 1) Hseq1); lia).
    unfold continue_inventory_sequence. fold st. fold i. rewrite Hget. simpl.
    rewrite (wrap_size_succ i Hiter).
    split.
    + intros Hsome Hrestart. exfalso.
      destruct Hrestart as [Hr | Hr]; rewrite Hr in Hsome; simpl in Hsome;
        by destruct Hsome.
    + intros Himp.
      destruct (irs_reason round_summary) eqn:Hreason; simpl; try (by eexists).
      * by rewrite Hget1; eexists.
      * by rewrite Hget1; eexists.
      * exfalso. apply Hout, Himp. by left.
      * exfalso. apply Hout, Himp. by right.
Qed.

Lemma handle_packet_error_reason packet s code (w : UseCaseWorld D) :
  packet_type packet = InventoryRoundSummary ->
  static_data packet = inventory_round_summary s ->
  reason_error_code (irs_reason s) = Some code ->
  is_Some (inventory_sequence (sequence_state w)) ->
  handle_packet packet w =
    let ex10_result := make_ex10_sdk_error Ex10ModuleUseCase code in
    let (node, w1) := use_case_result_fifo_packet ex10_result (us_counter packet) w in
    match node with
    | Some node => Some (snd (use_case_call (queue_list_node_push_back node) w1))
    | None => Some w1
    end.
Proof.
  intros Htype Hdata Hcode [seq Hseq].
  unfold handle_packet. rewrite decide_True by done. rewrite Hdata. simpl.
  unfold continue_inventory_sequence, get_basic_inventory_round_config.
  rewrite Hseq. simpl.
  destruct (decide (type_id seq <> INVENTORY_ROUND_CONFIG_BASIC));
    [| destruct (inventory_round_iter (sequence_state w) >=? count seq)];
    simpl; destruct (irs_reason s); simpl in *; simplify_eq; simpl;
    by destruct (use_case_result_fifo_packet _ _ w) as [[node |] w1].
Qed.

(** X29.  A summary whose reason is an error (event FIFO full, LMAC
    overload, invalid parameter, or any reason the use case does not know)
    starts nothing and leaves the position in the sequence as it is; the
    handler reports it by queueing an Ex10Result packet that carries the
    SDK error of the use case module under the timestamp of the summary,
    when a FIFO buffer is free, and by nothing at all when none is. *)
Theorem error_summary_is_reported packet s code (w : UseCaseWorld D) :
  packet_type packet = InventoryRoundSummary ->
  static_data packet = inventory_round_summary s ->
  reason_error_code (irs_reason s) = Some code ->
  is_Some (inventory_sequence (sequence_state w)) ->
  exists w',
    handle_packet packet w = Some w' /\
    sequence_state w' = sequence_state w /\
    use_case_calls w' =
      use_case_calls w
      ++ (if fst (use_case_free_list_get (use_case_device w))
          then [queue_list_node_push_back
                  (result_node
                     (result_packet (make_ex10_sdk_error Ex10ModuleUseCase code)
                        (us_counter packet)))]
          else []).
Proof.
  intros Htype Hdata Hcode Hseq.
  rewrite (handle_packet_error_reason packet s code w Htype Hdata Hcode Hseq).
  cbv zeta. unfold use_case_result_fifo_packet.
  destruct (use_case_free_list_get (use_case_device w)) as [[] d]; simpl.
  - match goal with
    | |- context [use_case_call ?c ?w0] =>
        destruct (use_case_call_spec c w0) as (_ & Hstate & Hcalls)
    end.
    eexists. split; [reflexivity|]. by split.
  - eexists. split; [reflexivity|]. by rewrite app_nil_r.
Qed.

(** *** A whole sequence *)

Lemma set_inventory_round_iter_same st :
  set_inventory_round_iter (inventory_round_iter st) st = st.
Proof. by destruct st. Qed.

Lemma transitions_one (remaining : list InventoryRoundConfigBasic) :
  transitions (take 1 remaining) = [].
Proof. by destruct remaining as [| ? []]. Qed.

Lemma fifo_data_loop_rounds array packets :
  forall (w : UseCaseWorld D) remaining,
    let st := sequence_state w in
    let i := inventory_round_iter st in
    sequence_of st array ->
    (forall c d, error (fst (use_case_perform c d)) = false) ->
    Forall round_done packets ->
    0 <= i ->
    Z.of_nat (length array) < SIZE_MAX ->
    drop (Z.to_nat i) array = remaining ->
    (length packets <= length remaining)%nat ->
    exists w',
      fifo_data_loop packets w = Some w' /\
      sequence_state w'
      = set_inventory_round_iter (i + Z.of_nat (length packets)) st /\
      use_case_calls w'
      = use_case_calls w ++ transitions (take (S (length packets)) remaining).
Proof.
  induction packets as [| packet rest IH];
    intros w remaining st i Hseq Hworks Hdone Hi Hmax Hdrop Hlen.
  { exists w. split; [done|]. split.
    - simpl. rewrite Z.add_0_r. unfold i. by rewrite set_inventory_round_iter_same.
    - simpl length. by rewrite transitions_one, app_nil_r. }
  apply Forall_cons in Hdone as [[Htype Hreason] Hdone].
  destruct remaining as [| round tail]; [simpl in Hlen; lia|].
  assert (Hround : array !! Z.to_nat i = Some round).
  { pose proof (lookup_drop array (Z.to_nat i) 0) as Hl.
    rewrite Hdrop, Nat.add_0_r in Hl. by rewrite <- Hl. }
  assert (Htail : drop (S (Z.to_nat i)) array = tail).
  { rewrite (drop_S _ _ _ Hround) in Hdrop. by injection Hdrop. }
  pose proof (lookup_lt_Some _ _ _ Hround) as Hin.
  assert (Hsucc : Z.to_nat (i + 1) = S (Z.to_nat i)) by lia.
  simpl fifo_data_loop. unfold handle_packet. rewrite decide_True by done.
  destruct tail as [| round_next tail'].
  - assert (Hrest : rest = []) by (destruct rest; [done | simpl in Hlen; lia]).
    subst rest.
    assert (Hlast : Z.of_nat (length array) <= i + 1).
    { apply (f_equal length) in Htail. rewrite length_drop in Htail.
      simpl in Htail. lia. }
    rewrite (continue_past_last_round _ array w Hseq Hreason
               ltac:(fold st; fold i; lia) Hlast).
    simpl. eexists. split; [reflexivity|]. split; [done|].
    by rewrite app_nil_r.
  - assert (Hnext : array !! Z.to_nat (i + 1) = Some round_next).
    { pose proof (lookup_drop array (S (Z.to_nat i)) 0) as Hl.
      rewrite Htail, Nat.add_0_r in Hl. by rewrite Hsucc, <- Hl. }
    destruct (continue_starts_next_round _ array round round_next w Hseq Hreason
                ltac:(fold st; fold i; lia) Hround Hnext (fun _ => Hworks _ _))
      as (r & w1 & Hcontinue & Hstate & Hcalls & (c & d & Hr)).
    rewrite Hcontinue. simpl. rewrite Hr, Hworks.
    fold st in Hstate. fold i in Hstate.
    destruct (IH w1 (round_next :: tail')) as (w' & Hloop & Hstate' & Hcalls').
    + rewrite Hstate. by apply sequence_of_iter.
    + done.
    + done.
    + rewrite Hstate. simpl. lia.
    + done.
    + rewrite Hstate. simpl. by rewrite Hsucc.
    + simpl in *. lia.
    + exists w'. split; [done|]. rewrite Hstate', Hcalls', Hstate, Hcalls.
      split.
      * unfold set_inventory_round_iter. simpl. f_equal. lia.
      * rewrite <- app_assoc. simpl length.
        change (take (S (S (length rest))) (round :: round_next :: tail'))
          with (round :: round_next :: take (length rest) tail').
        change (take (S (length rest)) (round_next :: tail'))
          with (round_next :: take (length rest) tail').
        reflexivity.
Qed.

(** X30.  A whole sequence runs through the handler: on a device whose
    calls succeed, when the summaries of all the rounds of a well-formed
    sequence come in as done (or stopped by the host), in one buffer, the
    handler starts every round after the first, in order, each after a ramp
    down exactly when the power changes, then hands the buffer to the
    queue; the position ends at the number of rounds. *)
Theorem whole_sequence_runs array packets (w : UseCaseWorld D) :
  let st := sequence_state w in
  sequence_of st array ->
  inventory_round_iter st = 0 ->
  Z.of_nat (length array) < SIZE_MAX ->
  (forall c d, error (fst (use_case_perform c d)) = false) ->
  Forall round_done packets ->
  length packets = length array ->
  exists w',
    fifo_data_handler packets w = Some w' /\
    inventory_round_iter (sequence_state w') = Z.of_nat (length array) /\
    use_case_calls w'
    = use_case_calls w ++ transitions array
      ++ [queue_list_node_push_back (fifo_data packets)].
Proof.
  intros st Hseq Hzero Hmax Hworks Hdone Hlen.
  destruct (fifo_data_loop_rounds array packets w array Hseq Hworks Hdone)
    as (w1 & Hloop & Hstate & Hcalls).
  - fold st. lia.
  - done.
  - fold st. by rewrite Hzero.
  - lia.
  - unfold fifo_data_handler. rewrite Hloop. simpl.
    destruct (use_case_call_spec (queue_list_node_push_back (fifo_data packets)) w1)
      as (_ & Hstate2 & Hcalls2).
    eexists. split; [reflexivity|].
    rewrite Hstate2, Hcalls2, Hstate, Hcalls. fold st. rewrite Hzero, Hlen.
    split; [simpl; lia|].
    by rewrite firstn_all2, <- app_assoc by (simpl; lia).
Qed.

End WithDriver.


Lemma two_rounds_sequence iter d :
  sequence_of (sequence_state (SimUseCase.at_round iter d))
    [SimUseCase.round_0; SimUseCase.round_1].
Proof. exists SimUseCase.two_rounds. repeat split; reflexivity. Qed.

Lemma whole_sequence_runs_witness :
  let w := SimUseCase.at_round 0 SimUseCase.working in
  let packets := [Sim.round_summary_packet 900 InventorySummaryDone 5 0 0;
                  Sim.round_summary_packet 1800 InventorySummaryHost 4 0 0] in
  exists w',
    @fifo_data_handler _ SimUseCase.reliable_driver packets w = Some w' /\
    inventory_round_iter (sequence_state w') = 2 /\
    use_case_calls w'
    = transitions [SimUseCase.round_0; SimUseCase.round_1]
      ++ [queue_list_node_push_back (fifo_data packets)].
Proof.
  intros w packets.
  apply (@whole_sequence_runs _ SimUseCase.reliable_driver
           [SimUseCase.round_0; SimUseCase.round_1] packets w).
  - apply two_rounds_sequence.
  - reflexivity.
  - reflexivity.
  - reflexivity.
  - constructor; [split; [reflexivity | left; reflexivity]|].
    constructor; [split; [reflexivity | right; reflexivity]|].
    constructor.
  - reflexivity.
Defined.

Lemma regulatory_summary_restarts_round_witness :
  let w := SimUseCase.at_round 1 SimUseCase.working in
  let round_summary := SimUseCase.summary InventorySummaryRegulatory 7 1 2 in
  exists w',
    continue_inventory_sequence round_summary w = Some (make_ex10_success, w') /\
    sequence_state w' = sequence_state w /\
    use_case_calls w' =
      [inventory_start_inventory 2 241 2500
         (set_initial_q 7 (set_target 1 Sim.example_config))
         (set_starting_counts 1 2 Sim.example_config_2) true].
Proof.
  intros w round_summary.
  apply (@regulatory_summary_restarts_round _ SimUseCase.driver round_summary
           [SimUseCase.round_0; SimUseCase.round_1] SimUseCase.round_1 w).
  - apply two_rounds_sequence.
  - simpl. lia.
  - reflexivity.
  - left. reflexivity.
Defined.

Lemma sequence_end_is_silent_witness :
  let w := SimUseCase.at_round 1 SimUseCase.working in
  continue_inventory_sequence (SimUseCase.summary InventorySummaryDone 5 0 0) w
  = Some (make_ex10_success, SimUseCase.at_round 2 SimUseCase.working).
Proof.
  apply (@sequence_end_is_silent _ SimUseCase.driver
           (SimUseCase.summary InventorySummaryDone 5 0 0)
           [SimUseCase.round_0; SimUseCase.round_1]
           (SimUseCase.at_round 1 SimUseCase.working)).
  - apply two_rounds_sequence.
  - left. reflexivity.
  - simpl. lia.
  - simpl. lia.
Defined.

Lemma next_round_started_witness :
  let w := SimUseCase.at_round 0 SimUseCase.working in
  exists r w',
    continue_inventory_sequence (SimUseCase.summary InventorySummaryDone 5 0 0) w
    = Some (r, w') /\
    sequence_state w' = sequence_state (SimUseCase.at_round 1 SimUseCase.working) /\
    use_case_calls w' =
      [rf_power_stop_op_and_ramp_down;
       inventory_start_inventory 1 241 2500 (set_target 1 Sim.example_config)
         (set_starting_counts 0 0 Sim.example_config_2) true].
Proof.
  intros w.
  apply (@next_round_started _ SimUseCase.driver
           (SimUseCase.summary InventorySummaryDone 5 0 0)
           [SimUseCase.round_0; SimUseCase.round_1]
           SimUseCase.round_0 SimUseCase.round_1 w).
  - apply two_rounds_sequence.
  - left. reflexivity.
  - simpl. lia.
  - reflexivity.
  - reflexivity.
  - intros _. reflexivity.
Defined.

Lemma ramp_down_failure_skips_round_witness :
  let w := SimUseCase.at_round 0 SimUseCase.stuck in
  continue_inventory_sequence (SimUseCase.summary InventorySummaryDone 5 0 0) w
  = Some (Sim.ops_error_result (OpIdRaw 0) ErrorUnknownError,
          mkUseCaseWorld (sequence_state (SimUseCase.at_round 1 SimUseCase.stuck))
            SimUseCase.stuck [rf_power_stop_op_and_ramp_down]).
Proof.
  apply (@ramp_down_failure_skips_round _ SimUseCase.driver
           (SimUseCase.summary InventorySummaryDone 5 0 0)
           [SimUseCase.round_0; SimUseCase.round_1]
           SimUseCase.round_0 SimUseCase.round_1
           (SimUseCase.at_round 0 SimUseCase.stuck)).
  - apply two_rounds_sequence.
  - left. reflexivity.
  - simpl. lia.
  - reflexivity.
  - reflexivity.
  - simpl. lia.
  - reflexivity.
Defined.

Lemma continue_inventory_sequence_defined_witness :
  let w := SimUseCase.at_round 2 SimUseCase.working in
  let round_summary := SimUseCase.summary InventorySummaryRegulatory 7 1 2 in
  is_Some (continue_inventory_sequence round_summary w) <->
  (restarts_round InventorySummaryRegulatory -> 2 < 2).
Proof.
  intros w round_summary.
  apply (@continue_inventory_sequence_defined _ SimUseCase.driver round_summary
           [SimUseCase.round_0; SimUseCase.round_1] w).
  - apply two_rounds_sequence.
  - simpl. lia.
Defined.

Lemma error_summary_is_reported_witness :
  let w := SimUseCase.at_round 0 SimUseCase.working in
  let packet := Sim.round_summary_packet 900 InventorySummaryEventFifoFull 5 0 0 in
  exists w',
    handle_packet packet w = Some w' /\
    sequence_state w' = sequence_state w /\
    use_case_calls w' =
      [queue_list_node_push_back
         (result_node
            (result_packet
               (make_ex10_sdk_error Ex10ModuleUseCase Ex10SdkEventFifoFull) 900))].
Proof.
  intros w packet.
  apply (@error_summary_is_reported _ SimUseCase.driver packet
           (SimUseCase.summary InventorySummaryEventFifoFull 5 0 0)
           Ex10SdkEventFifoFull w).
  - reflexivity.
  - reflexivity.
  - reflexivity.
  - eexists. reflexivity.
Defined.

End InventorySequenceProofs.
